(** * Plan orchestration engine: a shallow embedding and its properties

    The development follows the Python sources

      - [src/functions/base.py]            (operation registry),
      - [src/models/function_calling.py]   (plan validation, de-duplication),
      - [src/pipeline/query_processor.py]  (plan repair, query processing),
      - [src/pipeline/execution_engine.py] (reference resolution, execution),
      - [src/pipeline/pipeline_manager.py] (orchestration).

    Python values are embedded as a small JSON-like universe; dictionaries
    are insertion-ordered association lists, exceptions are an explicit
    result type, and the outside world (operations, planner, clock) is a
    state threaded through every call that can touch it. *)

From Stdlib Require Import ZArith List String Ascii Bool Lia Arith DecimalString.
From Stdlib Require DecimalNat DecimalFacts.
Import ListNotations.
Local Open Scope list_scope.
Local Open Scope string_scope.

(* ================================================================== *)
(** * Python values, dictionaries and exceptions *)
(* ================================================================== *)

Module Py.

(** The values a plan, a parameter mapping or a call result can hold.
    Floating-point numbers are left out; strings are sequences of code
    points below 256. *)
#[warning="-register-all"]
Inductive value : Type :=
| VNone
| VBool (b : bool)
| VInt (z : Z)
| VStr (s : string)
| VList (l : list value)
| VDict (d : list (string * value)).

(** A [dict] with string keys, in insertion order. *)
Definition dict : Type := list (string * value).

(** ** Exceptions *)

Inductive exn : Type :=
| AttributeError (msg : string)
| TypeError (msg : string)
| KeyError (key : string)
| OperationError (msg : string).

Inductive result (A : Type) : Type :=
| Ok (a : A)
| Raise (e : exn).

Arguments Ok {A} a.
Arguments Raise {A} e.

Definition bind {A B : Type} (m : result A) (k : A -> result B) : result B :=
  match m with
  | Ok a => k a
  | Raise e => Raise e
  end.

Notation "x <- m ;; k" := (bind m (fun x => k))
  (at level 61, m at next level, right associativity).

(** ** Insertion-ordered association lists *)

Section Assoc.
Context {A : Type}.

Fixpoint assoc_get (k : string) (l : list (string * A)) : option A :=
  match l with
  | [] => None
  | (k', v) :: rest => if String.eqb k k' then Some v else assoc_get k rest
  end.

Definition assoc_mem (k : string) (l : list (string * A)) : bool :=
  match assoc_get k l with Some _ => true | None => false end.

(** [d[k] = v]: an existing key keeps its position, a new key goes last. *)
Fixpoint assoc_set (k : string) (v : A) (l : list (string * A))
  : list (string * A) :=
  match l with
  | [] => [(k, v)]
  | (k', v') :: rest =>
      if String.eqb k k' then (k, v) :: rest
      else (k', v') :: assoc_set k v rest
  end.

Definition assoc_keys (l : list (string * A)) : list string := map fst l.
Definition assoc_values (l : list (string * A)) : list A := map snd l.
End Assoc.

(** [d.update(other)] *)
Definition dict_update (d other : dict) : dict :=
  fold_left (fun acc kv => assoc_set (fst kv) (snd kv) acc) other d.

(** ** Strings *)

Definition startswith (s p : string) : bool := String.prefix p s.

Fixpoint drop (n : nat) (s : string) : string :=
  match n, s with
  | O, _ => s
  | S n', String _ r => drop n' r
  | S _, EmptyString => EmptyString
  end.

Definition endswith (s p : string) : bool :=
  (String.length p <=? String.length s)%nat
  && String.eqb (drop (String.length s - String.length p) s) p.

(** [sub in s] on strings *)
Fixpoint str_contains (sub s : string) : bool :=
  String.prefix sub s
  || match s with
     | EmptyString => false
     | String _ r => str_contains sub r
     end.

(** [s.split(sep)] for a one-character separator *)
Fixpoint split_on (sep : ascii) (s : string) : list string :=
  match s with
  | EmptyString => [EmptyString]
  | String c r =>
      if Ascii.eqb c sep then EmptyString :: split_on sep r
      else match split_on sep r with
           | [] => [String c EmptyString]
           | w :: ws => String c w :: ws
           end
  end.

(** [c.isspace()]: the white space [str.strip()] and the pattern [\s] see. *)
Definition is_space (c : ascii) : bool :=
  let n := nat_of_ascii c in
  ((9 <=? n) && (n <=? 13) || (28 <=? n) && (n <=? 32)
   || (n =? 133) || (n =? 160))%nat.

Fixpoint lstrip (s : string) : string :=
  match s with
  | EmptyString => EmptyString
  | String c r => if is_space c then lstrip r else s
  end.

Fixpoint rstrip (s : string) : string :=
  match s with
  | EmptyString => EmptyString
  | String c r =>
      match rstrip r with
      | EmptyString => if is_space c then EmptyString else String c EmptyString
      | r' => String c r'
      end
  end.

Definition strip (s : string) : string := rstrip (lstrip s).

(** [re.sub(r'\s+', ' ', s)]: every run of white space becomes one blank. *)
Fixpoint collapse_spaces (in_run : bool) (s : string) : string :=
  match s with
  | EmptyString => EmptyString
  | String c r =>
      if is_space c then
        if in_run then collapse_spaces true r
        else String " "%char (collapse_spaces true r)
      else String c (collapse_spaces false r)
  end.

(** [s.replace(old, new)] for a non-empty [old]; [skip] counts the
    characters of a match still to be passed over. *)
Fixpoint replace_from (old new : string) (skip : nat) (s : string) : string :=
  match s with
  | EmptyString => EmptyString
  | String c r =>
      match skip with
      | S k => replace_from old new k r
      | O =>
          if String.prefix old s
          then new ++ replace_from old new (String.length old - 1) r
          else String c (replace_from old new 0 r)
      end
  end.

Definition replace (s old new : string) : string := replace_from old new 0 s.

(** [c.lower()]: the capital letters are A to Z and, above 127, the
    code points 192 to 222 but for the multiplication sign. *)
Definition lower_char (c : ascii) : ascii :=
  let n := nat_of_ascii c in
  if ((65 <=? n) && (n <=? 90)
      || (192 <=? n) && (n <=? 222) && negb (n =? 215))%nat
  then ascii_of_nat (n + 32) else c.

Fixpoint lower (s : string) : string :=
  match s with
  | EmptyString => EmptyString
  | String c r => String (lower_char c) (lower r)
  end.

(** [s.split()]: the maximal runs of characters that are not white space;
    [current] is the run being read. *)
Fixpoint split_from (current : string) (s : string) : list string :=
  match s with
  | EmptyString =>
      match current with
      | EmptyString => []
      | _ => [current]
      end
  | String c r =>
      if is_space c then
        match current with
        | EmptyString => split_from EmptyString r
        | _ => current :: split_from EmptyString r
        end
      else split_from (current ++ String c EmptyString) r
  end.

Definition split_words (s : string) : list string := split_from EmptyString s.

(** [s[2:-2]] *)
Definition slice_2_m2 (s : string) : string :=
  substring 2 (String.length s - 4) s.

(** [max] over a non-empty sequence of strings: the first greatest one. *)
Definition str_max (first : string) (rest : list string) : string :=
  fold_left (fun m k => if String.ltb m k then k else m) rest first.

Definition str_of_nat (n : nat) : string :=
  NilZero.string_of_uint (Nat.to_uint n).

Definition str_of_Z (z : Z) : string :=
  NilZero.string_of_int (Z.to_int z).

Definition quote1 : string := String "039"%char EmptyString.
Definition quote2 : string := String "034"%char EmptyString.
Definition backslash : string := String "092"%char EmptyString.

Definition hex_digit (n : nat) : ascii :=
  if (n <? 10)%nat then ascii_of_nat (48 + n) else ascii_of_nat (87 + n).

Definition hex2 (n : nat) : string :=
  String (hex_digit (n / 16)) (String (hex_digit (n mod 16)) EmptyString).

Fixpoint str_map (f : ascii -> string) (s : string) : string :=
  match s with
  | EmptyString => EmptyString
  | String c r => f c ++ str_map f r
  end.

(** [c.isprintable()] *)
Definition is_printable (c : ascii) : bool :=
  let n := nat_of_ascii c in
  ((32 <=? n) && (n <=? 126) || (161 <=? n) && negb (n =? 173))%nat.

(** [repr] of a string *)
Definition repr_char (q : ascii) (c : ascii) : string :=
  let n := nat_of_ascii c in
  if Ascii.eqb c q then backslash ++ String c EmptyString
  else if (n =? 92)%nat then backslash ++ backslash
  else if (n =? 9)%nat then backslash ++ "t"
  else if (n =? 10)%nat then backslash ++ "n"
  else if (n =? 13)%nat then backslash ++ "r"
  else if is_printable c then String c EmptyString
  else backslash ++ "x" ++ hex2 n.

Definition repr_str (s : string) : string :=
  let q := if str_contains quote1 s && negb (str_contains quote2 s)
           then "034"%char else "039"%char in
  String q (str_map (repr_char q) s) ++ String q EmptyString.

(** [repr] and [str] of a value, as f-strings and [str(e)] use them. *)
Fixpoint repr (v : value) : string :=
  match v with
  | VNone => "None"
  | VBool true => "True"
  | VBool false => "False"
  | VInt z => str_of_Z z
  | VStr s => repr_str s
  | VList l => "[" ++ String.concat ", " (map repr l) ++ "]"
  | VDict d =>
      "{" ++ String.concat ", "
               (map (fun kv => repr_str (fst kv) ++ ": " ++ repr (snd kv)) d)
          ++ "}"
  end.

Definition str (v : value) : string :=
  match v with
  | VStr s => s
  | _ => repr v
  end.

Definition exn_str (e : exn) : string :=
  match e with
  | AttributeError m => m
  | TypeError m => m
  | KeyError k => repr_str k
  | OperationError m => m
  end.

(** ** Dynamic operations on values *)

Definition type_name (v : value) : string :=
  match v with
  | VNone => "NoneType"
  | VBool _ => "bool"
  | VInt _ => "int"
  | VStr _ => "str"
  | VList _ => "list"
  | VDict _ => "dict"
  end.

Definition truthy (v : value) : bool :=
  match v with
  | VNone => false
  | VBool b => b
  | VInt z => negb (Z.eqb z 0)
  | VStr s => negb (String.eqb s EmptyString)
  | VList l => match l with [] => false | _ => true end
  | VDict d => match d with [] => false | _ => true end
  end.

Definition no_attribute (v : value) (attr : string) : exn :=
  AttributeError
    (quote1 ++ type_name v ++ quote1 ++ " object has no attribute "
       ++ quote1 ++ attr ++ quote1).

(** [d.get(k, default)] on a dictionary *)
Definition dict_get (d : dict) (k : string) (default : value) : value :=
  match assoc_get k d with
  | Some v => v
  | None => default
  end.

(** [v.get(k, default)] on any value *)
Definition get (v : value) (k : string) (default : value) : result value :=
  match v with
  | VDict d => Ok (dict_get d k default)
  | _ => Raise (no_attribute v "get")
  end.

Definition is_str (v : value) (s : string) : bool :=
  match v with
  | VStr s' => String.eqb s' s
  | _ => false
  end.

(** [k in v] for a string [k] *)
Definition contains (k : string) (v : value) : result bool :=
  match v with
  | VDict d => Ok (assoc_mem k d)
  | VStr s => Ok (str_contains k s)
  | VList l => Ok (existsb (fun x => is_str x k) l)
  | _ => Raise (TypeError ("argument of type " ++ quote1 ++ type_name v
                             ++ quote1 ++ " is not iterable"))
  end.

(** [v[k]] for a string [k] *)
Definition subscript (v : value) (k : string) : result value :=
  match v with
  | VDict d =>
      match assoc_get k d with
      | Some x => Ok x
      | None => Raise (KeyError k)
      end
  | VStr _ => Raise (TypeError "string indices must be integers, not 'str'")
  | VList _ =>
      Raise (TypeError "list indices must be integers or slices, not str")
  | _ => Raise (TypeError (quote1 ++ type_name v ++ quote1
                             ++ " object is not subscriptable"))
  end.

(** [v[k] = x] for a string [k] *)
Definition setitem (v : value) (k : string) (x : value) : result value :=
  match v with
  | VDict d => Ok (VDict (assoc_set k x d))
  | VList _ =>
      Raise (TypeError "list indices must be integers or slices, not str")
  | _ => Raise (TypeError (quote1 ++ type_name v ++ quote1
                             ++ " object does not support item assignment"))
  end.

Fixpoint chars (s : string) : list value :=
  match s with
  | EmptyString => []
  | String c r => VStr (String c EmptyString) :: chars r
  end.

(** The elements a [for] loop (or [enumerate]) draws from a value. *)
Definition iter (v : value) : result (list value) :=
  match v with
  | VList l => Ok l
  | VStr s => Ok (chars s)
  | VDict d => Ok (map VStr (assoc_keys d))
  | _ => Raise (TypeError (quote1 ++ type_name v ++ quote1
                             ++ " object is not iterable"))
  end.

(** Hashing: lists and dictionaries cannot be set members or keys. *)
Definition hashable (v : value) : bool :=
  match v with
  | VList _ | VDict _ => false
  | _ => true
  end.

Definition unhashable (v : value) : exn :=
  TypeError ("unhashable type: " ++ quote1 ++ type_name v ++ quote1).

(** [a == b] on hashable values ([True == 1] and [False == 0] hold). *)
Definition eqb_hashable (a b : value) : bool :=
  match a, b with
  | VNone, VNone => true
  | VBool x, VBool y => Bool.eqb x y
  | VBool x, VInt z | VInt z, VBool x => Z.eqb z (if x then 1 else 0)
  | VInt x, VInt y => Z.eqb x y
  | VStr x, VStr y => String.eqb x y
  | _, _ => false
  end.

(** ** [json.dumps(v, sort_keys=True)] *)

Definition json_char (c : ascii) : string :=
  let n := nat_of_ascii c in
  if (n =? 34)%nat then backslash ++ quote2
  else if (n =? 92)%nat then backslash ++ backslash
  else if (n =? 10)%nat then backslash ++ "n"
  else if (n =? 13)%nat then backslash ++ "r"
  else if (n =? 9)%nat then backslash ++ "t"
  else if (n =? 8)%nat then backslash ++ "b"
  else if (n =? 12)%nat then backslash ++ "f"
  else if ((n <? 32) || (126 <? n))%nat then backslash ++ "u00" ++ hex2 n
  else String c EmptyString.

Definition json_str (s : string) : string :=
  quote2 ++ str_map json_char s ++ quote2.

Fixpoint insert_item (kv : string * string) (l : list (string * string))
  : list (string * string) :=
  match l with
  | [] => [kv]
  | kv' :: rest =>
      if String.leb (fst kv) (fst kv') then kv :: l
      else kv' :: insert_item kv rest
  end.

Definition sort_items (l : list (string * string)) : list (string * string) :=
  fold_right insert_item [] l.

Fixpoint json_dumps (v : value) : string :=
  match v with
  | VNone => "null"
  | VBool true => "true"
  | VBool false => "false"
  | VInt z => str_of_Z z
  | VStr s => json_str s
  | VList l => "[" ++ String.concat ", " (map json_dumps l) ++ "]"
  | VDict d =>
      "{" ++ String.concat ", "
               (map (fun kv => json_str (fst kv) ++ ": " ++ snd kv)
                    (sort_items (map (fun kv => (fst kv, json_dumps (snd kv))) d)))
          ++ "}"
  end.

End Py.

(* ================================================================== *)
(** * [src/functions/base.py]: schemas and the operation registry *)
(* ================================================================== *)

Module Base.
Import Py.

Record FunctionParameter : Type := {
  param_name : string;
  param_type : string;
  param_description : string;
  required : bool;
  default : value
}.

(** [FunctionSchema]; [BaseFunction.to_dict] exports exactly these fields. *)
Record FunctionSchema : Type := {
  name : string;
  description : string;
  parameters : list FunctionParameter;
  returns : string;
  category : string;
  examples : list string
}.

Section Registry.
(** Everything an operation can read or change outside the plan. *)
Variable World : Type.

(** An operation: the schema that [_generate_schema] derives from the
    signature of [execute], and the [execute] method itself, which is given
    the keyword arguments and may raise.  Operations are taken to leave
    their arguments as they are and to build what they return afresh. *)
Record BaseFunction : Type := {
  schema : FunctionSchema;
  execute : dict -> World -> result value * World
}.

Definition to_dict (f : BaseFunction) : FunctionSchema := schema f.

Record FunctionRegistry : Type := {
  functions : list (string * BaseFunction);
  categories : list (string * list string)
}.

(** [FunctionRegistry.__init__] *)
Definition new_registry : FunctionRegistry :=
  {| functions := []; categories := [] |}.

Definition register (self : FunctionRegistry) (function : BaseFunction)
  : FunctionRegistry :=
  let n := name (schema function) in
  let c := category (schema function) in
  let functions' := assoc_set n function (functions self) in
  let categories' :=
    if assoc_mem c (categories self) then categories self
    else assoc_set c [] (categories self) in
  let members :=
    match assoc_get c categories' with Some l => l | None => [] end in
  {| functions := functions';
     categories := assoc_set c (members ++ [n])%list categories' |}.

Definition get_function (self : FunctionRegistry) (n : string)
  : option BaseFunction :=
  assoc_get n (functions self).

Definition get_functions_by_category (self : FunctionRegistry) (c : string)
  : list BaseFunction :=
  match assoc_get c (categories self) with
  | None => []
  | Some names =>
      flat_map (fun n => match assoc_get n (functions self) with
                         | Some f => [f]
                         | None => []
                         end) names
  end.

Definition get_all_functions (self : FunctionRegistry) : list BaseFunction :=
  assoc_values (functions self).

Definition get_function_schemas (self : FunctionRegistry)
  : list FunctionSchema :=
  map to_dict (assoc_values (functions self)).
End Registry.

Arguments schema {World} _.
Arguments execute {World} _ _ _.
Arguments to_dict {World} _.
Arguments functions {World} _.
Arguments categories {World} _.
Arguments new_registry {World}.
Arguments register {World} _ _.
Arguments get_function {World} _ _.
Arguments get_functions_by_category {World} _ _.
Arguments get_all_functions {World} _.
Arguments get_function_schemas {World} _.

End Base.

(* ================================================================== *)
(** * [src/models/function_calling.py]: validation and de-duplication *)
(* ================================================================== *)

Module FunctionCalling.
Import Py Base.

Definition call_label (i : nat) : string :=
  "Function call " ++ str_of_nat (i + 1) ++ ": ".

(** [x in available_function_names], a set of strings *)
Definition in_name_set (x : value) (names : list string) : result bool :=
  if hashable x then Ok (existsb (is_str x) names)
  else Raise (unhashable x).

(** [v.keys()] *)
Definition keys (v : value) : result (list string) :=
  match v with
  | VDict d => Ok (assoc_keys d)
  | _ => Raise (no_attribute v "keys")
  end.

Definition str_mem (s : string) (l : list string) : bool :=
  existsb (String.eqb s) l.

(** [set(required_params) - provided_params].  Python leaves the iteration
    order of a set open; the members are listed here in schema order. *)
Definition missing_params (required_params provided_params : list string)
  : list string :=
  filter (fun p => negb (str_mem p provided_params))
         (nodup string_dec required_params).

(** One pass of the loop body of [validate_function_calls]: the error it
    appends, if any. *)
Definition validate_call (available_functions : list FunctionSchema)
  (i : nat) (call : value) : result (option string) :=
  has_name <- contains "function_name" call ;;
  if negb has_name then
    Ok (Some (call_label i ++ "Missing 'function_name'"))
  else
    function_name <- subscript call "function_name" ;;
    known <- in_name_set function_name (map name available_functions) ;;
    if negb known then
      Ok (Some (call_label i ++ "Unknown function '" ++ str function_name ++ "'"))
    else
      has_parameters <- contains "parameters" call ;;
      if negb has_parameters then
        Ok (Some (call_label i ++ "Missing 'parameters'"))
      else
        match find (fun f => is_str function_name (name f)) available_functions with
        | None => Ok None
        | Some func_def =>
            let required_params :=
              map param_name (filter required (parameters func_def)) in
            call_parameters <- subscript call "parameters" ;;
            provided_params <- keys call_parameters ;;
            match missing_params required_params provided_params with
            | [] => Ok None
            | missing =>
                Ok (Some (call_label i ++ "Missing required parameters: "
                            ++ String.concat ", " missing))
            end
        end.

Fixpoint validate_loop (available_functions : list FunctionSchema)
  (calls : list value) (i : nat) (errors : list string)
  : result (list string) :=
  match calls with
  | [] => Ok errors
  | call :: rest =>
      e <- validate_call available_functions i call ;;
      validate_loop available_functions rest (S i)
        (match e with
         | Some msg => (errors ++ [msg])%list
         | None => errors
         end)
  end.

Definition validate_function_calls (function_calls : value)
  (available_functions : list FunctionSchema) : result (bool * list string) :=
  calls <- iter function_calls ;;
  errors <- validate_loop available_functions calls 0 [] ;;
  Ok (Nat.eqb (List.length errors) 0, errors).

Definition planned_call (function_name : string) (call_parameters : dict)
  (call_description : string) : value :=
  VDict [("function_name", VStr function_name);
         ("parameters", VDict call_parameters);
         ("description", VStr call_description)].

(** [_create_fallback_plan]: the keyword-based plan used when the model's
    answer cannot be parsed. *)
Definition _create_fallback_plan (user_query : string) : dict :=
  let query_lower := lower user_query in
  if str_contains "email" query_lower && str_contains "send" query_lower then
    [("plan", VStr "Send an email based on the user request");
     ("function_calls",
      VList [planned_call "send_email"
               [("to_email", VStr "abhayrajputcse@gmail.com");
                ("subject", VStr "Automated Email");
                ("body", VStr "This is an automated email based on your request.")]
               "Send email to specified recipient"])]
  else if str_contains "file" query_lower
          && (str_contains "read" query_lower
              || str_contains "open" query_lower) then
    [("plan", VStr "Read a file as requested");
     ("function_calls",
      VList [planned_call "read_file"
               [("file_path", VStr "data/sample.txt")]
               "Read the specified file"])]
  else if str_contains "data" query_lower
          && (str_contains "analyze" query_lower
              || str_contains "process" query_lower) then
    [("plan", VStr "Analyze data as requested");
     ("function_calls",
      VList [planned_call "read_csv"
               [("file_path", VStr "data/sample.csv")]
               "Read CSV data for analysis";
             planned_call "summarize_data"
               [("data", VStr "{{output_from_previous}}");
                ("column", VStr "amount")]
               "Summarize the data"])]
  else
    [("plan", VStr "Get current system information");
     ("function_calls",
      VList [planned_call "get_system_info" []
               "Get basic system information"])].

(** [(call['function_name'], json.dumps(call['parameters'], sort_keys=True))] *)
Definition call_signature (call : value) : result (value * string) :=
  function_name <- subscript call "function_name" ;;
  call_parameters <- subscript call "parameters" ;;
  Ok (function_name, json_dumps call_parameters).

(** Equality of two signatures, as membership in the [seen] set decides it *)
Definition signature_eqb (a b : value * string) : bool :=
  eqb_hashable (fst a) (fst b) && String.eqb (snd a) (snd b).

Fixpoint optimize_loop (calls : list value) (seen : list (value * string))
  (optimized : list value) : result (list value) :=
  match calls with
  | [] => Ok optimized
  | call :: rest =>
      sig <- call_signature call ;;
      if negb (hashable (fst sig)) then Raise (unhashable (fst sig))
      else if existsb (signature_eqb sig) seen then
        optimize_loop rest seen optimized
      else
        optimize_loop rest (sig :: seen) (optimized ++ [call])%list
  end.

Definition optimize_function_sequence (function_calls : value)
  : result (list value) :=
  calls <- iter function_calls ;;
  optimize_loop calls [] [].

End FunctionCalling.

(* ================================================================== *)
(** * [src/pipeline/execution_engine.py]: the execution engine *)
(* ================================================================== *)

Module Engine.
Import Py Base.

Record ExecutionSummary : Type := {
  total_functions : nat;
  successful_functions : nat;
  failed_functions : nat;
  execution_time : string
}.

Record ExecutionResult : Type := {
  success : bool;
  message : string;
  plan : dict;
  results : list dict;
  execution_summary : ExecutionSummary
}.

(** [r.get('success', False)], read as a condition *)
Definition succeeded (r : dict) : bool :=
  truthy (dict_get r "success" (VBool false)).

Definition _create_execution_result (plan0 : dict) (results0 : list dict)
  (message0 : string) (success0 : bool) (timestamp : string)
  : ExecutionResult :=
  {| success := success0;
     message := message0;
     plan := plan0;
     results := results0;
     execution_summary :=
       {| total_functions := List.length results0;
          successful_functions :=
            List.length (filter succeeded results0);
          failed_functions :=
            List.length (filter (fun r => negb (succeeded r)) results0);
          execution_time := timestamp |} |}.

(** ** Reference resolution *)

(** [result.get('data', result)] on an entry of the context *)
Definition payload (entry : value) : result value := get entry "data" entry.

(** The dotted walk of the third branch, starting from the context. *)
Fixpoint walk (obj : value) (parts : list string) : value :=
  match parts with
  | [] => obj
  | part :: rest =>
      match obj with
      | VDict d =>
          match assoc_get part d with
          | Some x => walk x rest
          | None => VNone
          end
      | _ => VNone
      end
  end.

(** The scan over [execution_context.items()] that closes the function. *)
Fixpoint scan_context (reference : string) (items : dict) : result value :=
  match items with
  | [] => Ok VNone
  | (context_key, context_value) :: rest =>
      if str_contains reference context_key then payload context_value
      else scan_context reference rest
  end.

Definition resolve_reference_body (execution_context : dict)
  (reference : string) : result value :=
  if String.eqb reference "output_from_previous" then
    match assoc_keys execution_context with
    | k :: ks =>
        let latest_key := str_max k ks in
        latest_result <- subscript (VDict execution_context) latest_key ;;
        payload latest_result
    | [] => scan_context reference execution_context
    end
  else if startswith reference "result_" then
    match assoc_get reference execution_context with
    | Some r => payload r
    | None => scan_context reference execution_context
    end
  else if str_contains "." reference then
    Ok (walk (VDict execution_context) (split_on "." reference))
  else scan_context reference execution_context.

(** The [try ... except Exception: return None] around the body. *)
Definition _resolve_reference (execution_context : dict) (reference : string)
  : value :=
  match resolve_reference_body execution_context reference with
  | Ok v => v
  | Raise _ => VNone
  end.

Definition is_reference (v : value) : option string :=
  match v with
  | VStr s =>
      if startswith s "{{" && endswith s "}}" then Some (strip (slice_2_m2 s))
      else None
  | _ => None
  end.

Definition process_item (execution_context : dict) (kv : string * value)
  : string * value :=
  match is_reference (snd kv) with
  | Some reference => (fst kv, _resolve_reference execution_context reference)
  | None => kv
  end.

Definition _process_parameters (execution_context : dict) (parameters0 : value)
  : result dict :=
  match parameters0 with
  | VDict d => Ok (map (process_item execution_context) d)
  | _ => Raise (no_attribute parameters0 "items")
  end.

(** ** Single calls *)

Definition critical_functions : list string :=
  ["read_csv"; "read_file"; "read_json"; "read_excel";
   "query_database"; "fetch_web_page"].

Definition _is_critical_function (call : value) : result bool :=
  function_name <- get call "function_name" (VStr EmptyString) ;;
  Ok (existsb (is_str function_name) critical_functions).

Definition failure (error : string) (function_name : value) (call_index : nat)
  : dict :=
  [("success", VBool false); ("error", VStr error);
   ("function_name", function_name);
   ("call_index", VInt (Z.of_nat call_index))].

(** [get_function_output]: the payload of the first result recorded under
    the given function name, [None] when there is none. *)
Fixpoint first_output (results0 : list dict) (function_name : string) : value :=
  match results0 with
  | [] => VNone
  | r :: rest =>
      if is_str (dict_get r "function_name" VNone) function_name
      then dict_get r "data" (VDict r)
      else first_output rest function_name
  end.

Definition get_function_output (execution_result : ExecutionResult)
  (function_name : string) : value :=
  first_output (results execution_result) function_name.

Section Run.
Variable World : Type.
(** [datetime.now().isoformat()] *)
Variable clock : World -> string.

Record ExecutionEngine : Type := {
  function_registry : FunctionRegistry World;
  execution_context : dict;
  results_history : list ExecutionResult
}.

(** [ExecutionEngine.__init__] over a given registry *)
Definition new_engine (registry : FunctionRegistry World) : ExecutionEngine :=
  {| function_registry := registry;
     execution_context := [];
     results_history := [] |}.

(** [self.function_registry.get_function(function_name)] on whatever the
    call holds under [function_name]: a dictionary lookup, so the key is
    hashed first. *)
Definition lookup_function (registry : FunctionRegistry World)
  (function_name : value) : result (option (BaseFunction World)) :=
  if hashable function_name then
    Ok (match function_name with
        | VStr n => get_function registry n
        | _ => None
        end)
  else Raise (unhashable function_name).

(** [result.update({...})] with the engine's four fields *)
Definition add_metadata (r : value) (function_name : value)
  (call_index : nat) (description0 : value) (processed_parameters : dict)
  : result dict :=
  match r with
  | VDict d =>
      Ok (dict_update d
            [("function_name", function_name);
             ("call_index", VInt (Z.of_nat call_index));
             ("description", description0);
             ("parameters_used", VDict processed_parameters)])
  | _ => Raise (no_attribute r "update")
  end.

(** The [try] block of [_execute_single_function]. *)
Definition execute_single_body (self : ExecutionEngine) (call : value)
  (call_index : nat) (w : World) : result dict * World :=
  match (function_name <- get call "function_name" VNone ;;
         parameters0 <- get call "parameters" (VDict []) ;;
         description0 <- get call "description" (VStr EmptyString) ;;
         function <- lookup_function (function_registry self) function_name ;;
         Ok (function_name, parameters0, description0, function)) with
  | Raise e => (Raise e, w)
  | Ok (function_name, _, _, None) =>
      (Ok (failure ("Function '" ++ str function_name ++ "' not found")
             function_name call_index), w)
  | Ok (function_name, parameters0, description0, Some function) =>
      match _process_parameters (execution_context self) parameters0 with
      | Raise e => (Raise e, w)
      | Ok processed_parameters =>
          let (outcome, w') := execute function processed_parameters w in
          (r <- outcome ;;
           add_metadata r function_name call_index description0
             processed_parameters, w')
      end
  end.

(** [_execute_single_function]: an exception of the body becomes a failed
    result; building that result reads the call once more. *)
Definition _execute_single_function (self : ExecutionEngine) (call : value)
  (call_index : nat) (w : World) : result dict * World :=
  match execute_single_body self call call_index w with
  | (Ok r, w') => (Ok r, w')
  | (Raise e, w') =>
      (function_name <- get call "function_name" (VStr "unknown") ;;
       Ok (failure (exn_str e) function_name call_index), w')
  end.

Definition record_result (self : ExecutionEngine) (i : nat) (r : dict)
  : ExecutionEngine :=
  {| function_registry := function_registry self;
     execution_context :=
       assoc_set ("result_" ++ str_of_nat i) (VDict r) (execution_context self);
     results_history := results_history self |}.

(** The [for i, call in enumerate(function_calls)] loop of [execute_plan],
    from call [i] on, with the results gathered so far. *)
Fixpoint execute_calls (self : ExecutionEngine) (calls : list value)
  (i : nat) (results0 : list dict) (w : World)
  : result (list dict) * ExecutionEngine * World :=
  match calls with
  | [] => (Ok results0, self, w)
  | call :: rest =>
      match get call "function_name" (VStr "unknown") with
      | Raise e => (Raise e, self, w)
      | Ok _ =>
          match _execute_single_function self call i w with
          | (Raise e, w') => (Raise e, self, w')
          | (Ok r, w') =>
              let results1 := (results0 ++ [r])%list in
              let self1 := record_result self i r in
              if succeeded r then execute_calls self1 rest (S i) results1 w'
              else
                match _is_critical_function call with
                | Raise e => (Raise e, self1, w')
                | Ok true => (Ok results1, self1, w')
                | Ok false => execute_calls self1 rest (S i) results1 w'
                end
          end
      end
  end.

Definition reset_context (self : ExecutionEngine) : ExecutionEngine :=
  {| function_registry := function_registry self;
     execution_context := [];
     results_history := results_history self |}.

Definition remember (self : ExecutionEngine) (r : ExecutionResult)
  : ExecutionEngine :=
  {| function_registry := function_registry self;
     execution_context := execution_context self;
     results_history := (results_history self ++ [r])%list |}.

Definition engine_failure (plan0 : dict) (e : exn) (w : World)
  : ExecutionResult :=
  _create_execution_result plan0 []
    ("Execution error: " ++ exn_str e) false (clock w).

Definition execute_plan (self : ExecutionEngine) (plan0 : dict) (w : World)
  : ExecutionResult * ExecutionEngine * World :=
  let function_calls := dict_get plan0 "function_calls" (VList []) in
  if negb (truthy function_calls) then
    (_create_execution_result plan0 [] "No function calls to execute" false
       (clock w), self, w)
  else
    let self0 := reset_context self in
    match iter function_calls with
    | Raise e => (engine_failure plan0 e w, self0, w)
    | Ok calls =>
        match execute_calls self0 calls 0 [] w with
        | (Raise e, self1, w') => (engine_failure plan0 e w', self1, w')
        | (Ok results0, self1, w') =>
            let success0 := forallb succeeded results0 in
            let execution_result :=
              _create_execution_result plan0 results0 "Execution completed"
                success0 (clock w') in
            (execution_result, remember self1 execution_result, w')
        end
    end.

Definition simulated_result (i : nat) (call : value) : result dict :=
  function_name <- get call "function_name" (VStr "unknown") ;;
  description0 <- get call "description" (VStr EmptyString) ;;
  Ok [("success", VBool true);
      ("function_name", function_name);
      ("call_index", VInt (Z.of_nat i));
      ("description", description0);
      ("simulated", VBool true);
      ("message", VStr ("Simulated execution of " ++ str function_name))].

Fixpoint simulate_calls (calls : list value) (i : nat)
  (simulated_results : list dict) : result (list dict) :=
  match calls with
  | [] => Ok simulated_results
  | call :: rest =>
      r <- simulated_result i call ;;
      simulate_calls rest (S i) (simulated_results ++ [r])%list
  end.

(** [simulate_execution] has no handler of its own: what a malformed
    plan raises reaches the caller. *)
Definition simulate_execution (plan0 : dict) (w : World)
  : result ExecutionResult :=
  calls <- iter (dict_get plan0 "function_calls" (VList [])) ;;
  simulated_results <- simulate_calls calls 0 [] ;;
  Ok (_create_execution_result plan0 simulated_results
        "Simulation completed" true (clock w)).

(** [get_execution_history]: a copy of the history *)
Definition get_execution_history (self : ExecutionEngine)
  : list ExecutionResult :=
  results_history self.

Definition clear_execution_history (self : ExecutionEngine) : ExecutionEngine :=
  {| function_registry := function_registry self;
     execution_context := [];
     results_history := [] |}.
End Run.

Arguments function_registry {World} _.
Arguments execution_context {World} _.
Arguments results_history {World} _.
Arguments new_engine {World} _.
Arguments lookup_function {World} _ _.
Arguments execute_single_body {World} _ _ _ _.
Arguments _execute_single_function {World} _ _ _ _.
Arguments record_result {World} _ _ _.
Arguments execute_calls {World} _ _ _ _ _.
Arguments reset_context {World} _.
Arguments remember {World} _ _.
Arguments engine_failure {World} _ _ _ _.
Arguments execute_plan {World} _ _ _ _.
Arguments get_execution_history {World} _.
Arguments clear_execution_history {World} _.
Arguments simulate_execution {World} _ _ _.

End Engine.

(* ================================================================== *)
(** * [src/pipeline/query_processor.py]: plan repair and query processing *)
(* ================================================================== *)

Module QueryProcessor.
Import Py Base FunctionCalling.

(** [if k not in params: params[k] = v] *)
Definition set_default (params : value) (k : string) (v : value)
  : result value :=
  present <- contains k params ;;
  if present then Ok params else setitem params k v.

(** [if k not in call['parameters']: call['parameters'][k] = v] *)
Definition default_parameter (call : value) (k : string) (v : value)
  : result value :=
  params <- subscript call "parameters" ;;
  params' <- set_default params k v ;;
  setitem call "parameters" params'.

(** The loop body of [_fix_common_issues]. *)
Definition fix_call (call : value) : result value :=
  call1 <- set_default call "parameters" (VDict []) ;;
  function_name <- get call1 "function_name" (VStr EmptyString) ;;
  if is_str function_name "send_email" then
    call2 <- default_parameter call1 "to_email" (VStr "abhayrajputcse@gmail.com") ;;
    call3 <- default_parameter call2 "subject" (VStr "Automated Email") ;;
    default_parameter call3 "body" (VStr "This is an automated email.")
  else if is_str function_name "read_csv" then
    default_parameter call1 "file_path" (VStr "data/sample.csv")
  else if is_str function_name "read_file" then
    default_parameter call1 "file_path" (VStr "data/sample.txt")
  else Ok call1.

Fixpoint fix_calls (calls : list value) : result (list value) :=
  match calls with
  | [] => Ok []
  | call :: rest =>
      call' <- fix_call call ;;
      rest' <- fix_calls rest ;;
      Ok (call' :: rest')
  end.

Definition _fix_common_issues (plan : dict) (errors : list string)
  : result dict :=
  match assoc_get "function_calls" plan with
  | None => Ok plan
  | Some function_calls =>
      calls <- iter function_calls ;;
      fixed_calls <- fix_calls calls ;;
      Ok (assoc_set "function_calls" (VList fixed_calls) plan)
  end.

Definition _create_error_response (query error timestamp : string) : dict :=
  [("query", VStr query);
   ("plan", VStr "Error occurred while processing query");
   ("function_calls", VList []);
   ("error", VStr error);
   ("timestamp", VStr timestamp);
   ("valid", VBool false)].

(** The abbreviations [_preprocess_query] expands, in the order of the
    dictionary it keeps them in. *)
Definition abbreviations : list (string * string) :=
  [("w/", "with"); ("w/o", "without"); ("etc.", "and so on");
   ("e.g.", "for example"); ("i.e.", "that is")].

Definition _preprocess_query (query : string) : string :=
  let query1 := collapse_spaces false (strip query) in
  let query2 :=
    fold_left (fun q kv => replace q (fst kv) (snd kv)) abbreviations query1 in
  let query3 :=
    if str_contains "invoice" (lower query2)
       && str_contains "march" (lower query2)
    then query2 ++ " (Note: Look for invoice data in CSV or database format)"
    else query2 in
  if str_contains "email" (lower query3) && str_contains "send" (lower query3)
  then query3 ++ " (Note: Use email function to send messages)"
  else query3.

Section Process.
Variable World : Type.
Variable clock : World -> string.
(** [FunctionCallingModel.plan_function_calls]: the planner. *)
Variable plan_function_calls :
  string -> list FunctionSchema -> World -> result dict * World.

(** What [process_query] does with the planner's plan, inside its [try]. *)
Definition finish_plan (query processed_query : string)
  (available_functions : list FunctionSchema) (plan : dict) (w : World)
  : result dict :=
  validation <- validate_function_calls
                  (dict_get plan "function_calls" (VList []))
                  available_functions ;;
  let is_valid := fst validation in
  let errors := snd validation in
  plan1 <- (if is_valid then Ok plan else _fix_common_issues plan errors) ;;
  plan2 <- match assoc_get "function_calls" plan1 with
           | None => Ok plan1
           | Some function_calls =>
               optimized <- optimize_function_sequence function_calls ;;
               Ok (assoc_set "function_calls" (VList optimized) plan1)
           end ;;
  Ok (assoc_set "errors"
        (VList (if is_valid then [] else map VStr errors))
     (assoc_set "valid" (VBool is_valid)
     (assoc_set "timestamp" (VStr (clock w))
     (assoc_set "processed_query" (VStr processed_query)
     (assoc_set "query" (VStr query) plan2))))).

Definition process_query (registry : FunctionRegistry World) (query : string)
  (w : World) : dict * World :=
  let processed_query := _preprocess_query query in
  let available_functions := get_function_schemas registry in
  let (planned, w') :=
    plan_function_calls processed_query available_functions w in
  match (plan <- planned ;;
         finish_plan query processed_query available_functions plan w') with
  | Ok plan => (plan, w')
  | Raise e => (_create_error_response query (exn_str e) (clock w'), w')
  end.
End Process.


Section Lookup.
Variable World : Type.

Definition get_function_info (registry : FunctionRegistry World)
  (function_name : string) : option FunctionSchema :=
  match get_function registry function_name with
  | Some function => Some (to_dict function)
  | None => None
  end.

Definition list_functions_by_category (registry : FunctionRegistry World)
  (category0 : string) : list FunctionSchema :=
  map to_dict (get_functions_by_category registry category0).

(** The test of the loop of [search_functions] on one exported schema. *)
Definition matches_keyword (keyword_lower : string) (func_dict : FunctionSchema)
  : bool :=
  str_contains keyword_lower (lower (name func_dict))
  || str_contains keyword_lower (lower (description func_dict))
  || str_contains keyword_lower (lower (category func_dict)).

Definition search_functions (registry : FunctionRegistry World)
  (keyword : string) : list FunctionSchema :=
  filter (matches_keyword (lower keyword))
         (map to_dict (get_all_functions registry)).
End Lookup.

Arguments get_function_info {World} _ _.
Arguments list_functions_by_category {World} _ _.
Arguments search_functions {World} _ _.

Definition data_keywords : list string :=
  ["read"; "load"; "import"; "data"; "csv"; "excel"; "database"].
Definition process_keywords : list string :=
  ["filter"; "sort"; "group"; "summarize"; "calculate"; "analyze"].
Definition output_keywords : list string :=
  ["send"; "email"; "save"; "write"; "export"; "notify"].

(** [sum(1 for word in words if word.lower() in keywords)] *)
Definition count_keywords (keywords words : list string) : nat :=
  List.length (filter (fun word => str_mem (lower word) keywords) words).

Definition analyze_query_complexity (query : string) : dict :=
  let words := split_words query in
  let data_ops := count_keywords data_keywords words in
  let process_ops := count_keywords process_keywords words in
  let output_ops := count_keywords output_keywords words in
  let complexity_score := data_ops + process_ops + output_ops in
  let complexity :=
    if (complexity_score <=? 2)%nat then "simple"
    else if (complexity_score <=? 4)%nat then "moderate"
    else "complex" in
  [("complexity", VStr complexity);
   ("complexity_score", VInt (Z.of_nat complexity_score));
   ("data_operations", VInt (Z.of_nat data_ops));
   ("processing_operations", VInt (Z.of_nat process_ops));
   ("output_operations", VInt (Z.of_nat output_ops));
   ("estimated_functions", VInt (Z.of_nat (Nat.max 1 complexity_score)))].

Arguments finish_plan {World} _ _ _ _ _ _.
Arguments process_query {World} _ _ _ _ _.

End QueryProcessor.

(* ================================================================== *)
(** * [src/pipeline/pipeline_manager.py]: the orchestrator *)
(* ================================================================== *)

Module PipelineManager.
Import Py Base Engine.

(** The three shapes of the mapping [process_query] returns. *)
Inductive PipelineResult : Type :=
| NotInitialized
| Processed (query : string) (plan : dict)
    (execution_result : option ExecutionResult)
    (model_info : value) (timestamp : string)
| Failed (error : string) (query : string).

Record BatchSummary : Type := {
  total_queries : nat;
  successful : nat;
  failed : nat
}.

(** The two shapes of the mapping [process_batch_queries] returns. *)
Inductive BatchResult : Type :=
| BatchNotInitialized
| Batch (batch_results : list PipelineResult) (summary : BatchSummary).

Section Pipeline.
Variable World : Type.
Variable clock : World -> string.
Variable plan_function_calls :
  string -> list FunctionSchema -> World -> result dict * World.
(** [ModelManager.get_model_info] *)
Variable get_model_info : World -> value.

Record PipelineManager : Type := {
  initialized : bool;
  execution_engine : ExecutionEngine World
}.

Definition with_engine (self : PipelineManager) (e : ExecutionEngine World)
  : PipelineManager :=
  {| initialized := initialized self; execution_engine := e |}.

Definition process_query (self : PipelineManager) (query : string)
  (execute_flag simulate : bool) (w : World)
  : PipelineResult * PipelineManager * World :=
  if negb (initialized self) then (NotInitialized, self, w)
  else
    let (plan, w1) :=
      QueryProcessor.process_query clock plan_function_calls
        (function_registry (execution_engine self)) query w in
    if execute_flag then
      if simulate then
        match simulate_execution clock plan w1 with
        | Ok r =>
            (Processed query plan (Some r) (get_model_info w1) (clock w1),
             self, w1)
        | Raise e => (Failed (exn_str e) query, self, w1)
        end
      else
        match execute_plan clock (execution_engine self) plan w1 with
        | (r, engine', w2) =>
            (Processed query plan (Some r) (get_model_info w2) (clock w2),
             with_engine self engine', w2)
        end
    else
      (Processed query plan None (get_model_info w1) (clock w1), self, w1).

(** [result.get('success', False)] on what [process_query] returned *)
Definition reported_success (r : PipelineResult) : bool :=
  match r with
  | Processed _ _ _ _ _ => true
  | NotInitialized | Failed _ _ => false
  end.

(** The loop of [process_batch_queries]: the results and the two counters
    so far, the queries still to be processed. *)
Fixpoint batch_loop (self : PipelineManager) (queries : list string)
  (execute_flag : bool) (results0 : list PipelineResult)
  (successful0 failed0 : nat) (w : World)
  : list PipelineResult * nat * nat * PipelineManager * World :=
  match queries with
  | [] => (results0, successful0, failed0, self, w)
  | query :: rest =>
      match process_query self query execute_flag false w with
      | (r, self', w') =>
          if reported_success r
          then batch_loop self' rest execute_flag (results0 ++ [r])%list
                 (S successful0) failed0 w'
          else batch_loop self' rest execute_flag (results0 ++ [r])%list
                 successful0 (S failed0) w'
      end
  end.

(** [process_batch_queries].  The [success_rate] entry of the summary, the
    floating-point quotient of [successful] by [total_queries], is left
    out. *)
Definition process_batch_queries (self : PipelineManager)
  (queries : list string) (execute_flag : bool) (w : World)
  : BatchResult * PipelineManager * World :=
  if negb (initialized self) then (BatchNotInitialized, self, w)
  else
    match batch_loop self queries execute_flag [] 0 0 w with
    | (results0, successful0, failed0, self', w') =>
        (Batch results0
           {| total_queries := List.length queries;
              successful := successful0;
              failed := failed0 |},
         self', w')
    end.

(** [get_execution_history]: the history and its length, once initialized *)
Definition get_execution_history (self : PipelineManager)
  : option (list ExecutionResult * nat) :=
  if initialized self then
    Some (Engine.get_execution_history (execution_engine self),
          List.length (results_history (execution_engine self)))
  else None.

Definition clear_history (self : PipelineManager) : PipelineManager :=
  if initialized self then
    with_engine self (clear_execution_history (execution_engine self))
  else self.
End Pipeline.

Arguments initialized {World} _.
Arguments execution_engine {World} _.
Arguments process_query {World} _ _ _ _ _ _ _ _.
Arguments batch_loop {World} _ _ _ _ _ _ _ _ _ _.
Arguments process_batch_queries {World} _ _ _ _ _ _ _.
Arguments get_execution_history {World} _.
Arguments clear_history {World} _.

End PipelineManager.

(* ================================================================== *)
(** * Statements: predicates and sample data the properties use *)
(* ================================================================== *)

Import Py Base FunctionCalling Engine.

(** The summary invariant of an [ExecutionResult]. *)
Definition summary_consistent (r : ExecutionResult) : Prop :=
  successful_functions (execution_summary r)
    + failed_functions (execution_summary r)
  = total_functions (execution_summary r)
  /\ total_functions (execution_summary r) = List.length (results r).

(** What the engine is to report for a plan without calls. *)
Definition empty_plan_reported (r : ExecutionResult) : Prop :=
  success r = false /\ str_contains "No function calls" (message r) = true.

(** Every recorded call result succeeded. *)
Definition all_succeeded (r : ExecutionResult) : Prop :=
  Forall (fun c => succeeded c = true) (results r).

(** ** Sample data *)

Module Sample.

(** A world that only counts the operations invoked so far. *)
Definition World : Type := nat.

Definition clock (w : World) : string := "t" ++ str_of_nat w.

Definition parameter (n : string) (req : bool) : FunctionParameter :=
  {| param_name := n; param_type := "Any";
     param_description := "Parameter " ++ n;
     required := req; default := VNone |}.

Definition make_schema (n d c : string) (ps : list FunctionParameter)
  : FunctionSchema :=
  {| name := n; description := d; parameters := ps;
     returns := "Dict[str, Any]"; category := c; examples := [] |}.

(** Fails as [read_csv] does on a file that is not there. *)
Definition read_csv : BaseFunction World :=
  {| schema := make_schema "read_csv" "Read CSV data" "data_processing"
                 [parameter "file_path" true];
     execute := fun _ w =>
       (Ok (VDict [("success", VBool false);
                   ("error", VStr "File not found")]), S w) |}.

(** A second operation registered under the name [read_csv]. *)
Definition read_csv_again : BaseFunction World :=
  {| schema := make_schema "read_csv" "Read CSV data, again" "data_processing"
                 [parameter "file_path" true];
     execute := fun _ w => (Ok (VDict [("success", VBool true)]), S w) |}.

(** Hands back its [value] argument as [data]. *)
Definition echo : BaseFunction World :=
  {| schema := make_schema "echo" "Return the argument" "text"
                 [parameter "value" true];
     execute := fun kwargs w =>
       (Ok (VDict [("success", VBool true);
                   ("data", dict_get kwargs "value" VNone)]), S w) |}.

(** A non-critical operation that always fails. *)
Definition send_sms : BaseFunction World :=
  {| schema := make_schema "send_sms" "Send SMS" "communication"
                 [parameter "phone_number" true; parameter "message" true];
     execute := fun _ w =>
       (Ok (VDict [("success", VBool false);
                   ("error", VStr "No SMS gateway")]), S w) |}.

Definition registry : FunctionRegistry World :=
  register (register (register new_registry read_csv) echo) send_sms.

Definition engine : ExecutionEngine World := new_engine registry.

Definition call (n : string) (ps : dict) : value :=
  VDict [("function_name", VStr n); ("parameters", VDict ps);
         ("description", VStr ("call " ++ n))].

Definition plan_of (calls : list value) : dict :=
  [("plan", VStr "sample"); ("function_calls", VList calls)].

Definition empty_plan : dict := plan_of [].

End Sample.

(** ** Keys of the execution context *)

(** The key under which [execute_plan] stores the result of call [i]. *)
Definition result_key (i : nat) : string := "result_" ++ str_of_nat i.

(** The context holds results under the engine's keys only. *)
Definition engine_keys (execution_context : dict) : Prop :=
  Forall (fun k => exists i, k = result_key i) (assoc_keys execution_context).

(** The key [output_from_previous] picks when results 0 to [n] are held. *)
Definition latest_key (n : nat) : string :=
  str_max (result_key 0) (map result_key (seq 1 n)).

(** ** Sample contexts and plans for reference resolution *)

Module SampleReferences.

(** The context of the repository's test [test_reference_resolution]. *)
Definition tested_context : dict :=
  [("result_0", VDict [("data", VStr "test_data"); ("success", VBool true)])].

(** Eleven [echo] calls, call [i] echoing the number [i], then one call
    that asks for the output of the call before it. *)
Definition numbered_calls : list value :=
  map (fun i => Sample.call "echo" [("value", VInt (Z.of_nat i))]) (seq 0 11).

Definition chained_plan : dict :=
  Sample.plan_of
    (numbered_calls
       ++ [Sample.call "echo" [("value", VStr "{{output_from_previous}}")]])%list.

(** The [data] field of the result recorded at index [i]. *)
Definition data_at (r : ExecutionResult) (i : nat) : option value :=
  option_map (fun c => dict_get c "data" VNone) (nth_error (results r) i).

End SampleReferences.

(** ** Critical operations *)

(** The call is a mapping whose [function_name] is the string [n]. *)
Definition names_operation (call : value) (n : string) : Prop :=
  exists d, call = VDict d /\ assoc_get "function_name" d = Some (VStr n).

(** The call names one of the six critical operations. *)
Definition names_critical_operation (call : value) : Prop :=
  exists n, names_operation call n /\ In n critical_functions.

Module SamplePolicy.

(** A non-critical failure at index 1, a critical failure at index 3. *)
Definition calls : list value :=
  [Sample.call "echo" [("value", VInt 1)];
   Sample.call "send_sms" [("phone_number", VStr "555"); ("message", VStr "hi")];
   Sample.call "echo" [("value", VStr "{{result_0}}")];
   Sample.call "read_csv" [("file_path", VStr "missing.csv")];
   Sample.call "echo" [("value", VInt 5)]].

Definition plan : dict := Sample.plan_of calls.

Definition outcome : ExecutionResult :=
  fst (fst (execute_plan Sample.clock Sample.engine plan 0)).

End SamplePolicy.

(** ** Malformed calls *)

(** The shape of a call in a plan: a mapping in which a function name,
    where present, can be looked up in a set, and the parameters, where
    present, are a mapping. *)
Definition well_shaped (call : value) : bool :=
  match call with
  | VDict d =>
      match assoc_get "function_name" d with
      | Some v => hashable v
      | None => true
      end
      && match assoc_get "parameters" d with
         | Some (VDict _) | None => true
         | Some _ => false
         end
  | _ => false
  end.

Definition missing_function_name (call : value) : bool :=
  match call with
  | VDict d => negb (assoc_mem "function_name" d)
  | _ => false
  end.

Definition unknown_operation (available_functions : list FunctionSchema)
  (call : value) : bool :=
  match call with
  | VDict d =>
      match assoc_get "function_name" d with
      | Some v => negb (existsb (is_str v) (map name available_functions))
      | None => false
      end
  | _ => false
  end.

Definition missing_parameters_field (call : value) : bool :=
  match call with
  | VDict d => negb (assoc_mem "parameters" d)
  | _ => false
  end.

(** Some parameter that the schema of the named operation requires is not
    a key of the call's parameter mapping. *)
Definition missing_required_parameter
  (available_functions : list FunctionSchema) (call : value) : bool :=
  match call with
  | VDict d =>
      match assoc_get "function_name" d, assoc_get "parameters" d with
      | Some v, Some (VDict p) =>
          match find (fun f => is_str v (name f)) available_functions with
          | Some func_def =>
              existsb (fun q => required q && negb (assoc_mem (param_name q) p))
                      (parameters func_def)
          | None => false
          end
      | _, _ => false
      end
  | _ => false
  end.

(** A malformed call, in the words of the claim. *)
Definition malformed (available_functions : list FunctionSchema)
  (call : value) : bool :=
  missing_required_parameter available_functions call
  || missing_parameters_field call
  || missing_function_name call
  || unknown_operation available_functions call.

Module SampleValidation.

(** Four malformed calls, one of each kind, around a well-formed one. *)
Definition calls : list value :=
  [VDict [("function_name", VStr "read_csv"); ("parameters", VDict [])];
   VDict [("function_name", VStr "echo")];
   Sample.call "echo" [("value", VInt 1)];
   VDict [("parameters", VDict [])];
   Sample.call "frobnicate" []].

Definition available_functions : list FunctionSchema :=
  get_function_schemas Sample.registry.

End SampleValidation.

(** ** Duplicate calls *)

(** [l] is [l'] with some elements left out, the order kept. *)
Inductive subsequence {A : Type} : list A -> list A -> Prop :=
| subsequence_nil : subsequence [] []
| subsequence_skip x l l' : subsequence l l' -> subsequence l (x :: l')
| subsequence_keep x l l' : subsequence l l' -> subsequence (x :: l) (x :: l').

(** The call has a signature that can be put in a set: it is a mapping
    with a hashable [function_name] and with [parameters]. *)
Definition has_signature (call : value) : bool :=
  match call_signature call with
  | Ok s => hashable (fst s)
  | Raise _ => false
  end.

(** Two calls with the same function name and the same parameter mapping. *)
Definition duplicate_of (a b : value) : Prop :=
  subscript a "function_name" = subscript b "function_name"
  /\ subscript a "parameters" = subscript b "parameters".

(** Two calls that the [seen] set cannot tell apart. *)
Definition same_signature (a b : value) : Prop :=
  exists sa sb,
    call_signature a = Ok sa /\ call_signature b = Ok sb
    /\ signature_eqb sa sb = true.

Definition signature_of (call : value) : value * string :=
  match call_signature call with
  | Ok s => s
  | Raise _ => (VNone, EmptyString)
  end.

(** De-duplication as the claim words it: going through the calls in
    order, a call is dropped when a call with its signature came before. *)
Fixpoint first_occurrences (seen : list (value * string)) (calls : list value)
  : list value :=
  match calls with
  | [] => []
  | call :: rest =>
      if existsb (signature_eqb (signature_of call)) seen
      then first_occurrences seen rest
      else call :: first_occurrences (signature_of call :: seen) rest
  end.

Module SampleDuplicates.

Definition read : value := Sample.call "read_csv" [("file_path", VStr "a.csv")].
Definition show : value := Sample.call "echo" [("value", VStr "{{result_0}}")].

(** The same call three times, with another call in between. *)
Definition calls : list value := [read; show; read; read].

End SampleDuplicates.

(** ** Sample planner and pipeline *)

Module SamplePipeline.

(** A planner with three answers: for the query ["load the data"] a
    [read_csv] call that lacks its file path, for ["say it twice"] the same
    [echo] call two times, and for every other query a call to an
    operation nobody registered. *)
Definition plan_function_calls (processed_query : string)
  (available_functions : list FunctionSchema) (w : Sample.World)
  : result dict * Sample.World :=
  if String.eqb processed_query "load the data" then
    (Ok (Sample.plan_of
           [VDict [("function_name", VStr "read_csv");
                   ("parameters", VDict [])]]), w)
  else if String.eqb processed_query "say it twice" then
    (Ok (Sample.plan_of
           [Sample.call "echo" [("value", VStr "hello")];
            Sample.call "echo" [("value", VStr "hello")]]), w)
  else
    (Ok (Sample.plan_of [Sample.call "frobnicate" []]), w).

Definition get_model_info (w : Sample.World) : value :=
  VDict [("loaded", VBool true)].

Definition pipeline : PipelineManager.PipelineManager Sample.World :=
  {| PipelineManager.initialized := true;
     PipelineManager.execution_engine := Sample.engine |}.

(** The plan [QueryProcessor.process_query] returns for a query. *)
Definition processed (query : string) : dict :=
  fst (QueryProcessor.process_query Sample.clock plan_function_calls
         Sample.registry query 0).

(** What the orchestrator returns for a query it is asked to execute. *)
Definition run (query : string) : PipelineManager.PipelineResult :=
  fst (fst (PipelineManager.process_query Sample.clock plan_function_calls
              get_model_info pipeline query true false 0)).

Definition executed (r : PipelineManager.PipelineResult)
  : option ExecutionResult :=
  match r with
  | PipelineManager.Processed _ _ e _ _ => e
  | _ => None
  end.

End SamplePipeline.

(** ** Further predicates and sample data *)

(** The value is a mapping. *)
Definition is_mapping (v : value) : bool :=
  match v with
  | VDict _ => true
  | _ => false
  end.

(** The run went through the loop of [execute_plan] to its end. *)
Definition completed (r : ExecutionResult) : Prop :=
  message r = "Execution completed".

(** The context that holds the given results, each under its key, in the
    order of the calls, numbered from [first]. *)
Definition context_from (first : nat) (rs : list dict) : dict :=
  map (fun p => (result_key (fst p), VDict (snd p)))
      (combine (seq first (List.length rs)) rs).

Definition context_of (rs : list dict) : dict := context_from 0 rs.

(** What a reference to a recorded result stands for: its [data] field
    when it has one, the whole result otherwise. *)
Definition payload_of (res : dict) : value := dict_get res "data" (VDict res).

(** ** Repair as a table of defaults *)

(** The defaults that [_fix_common_issues] knows, per operation, in the
    order in which it tries them. *)
Definition defaults_for (function_name : value) : dict :=
  if is_str function_name "send_email" then
    [("to_email", VStr "abhayrajputcse@gmail.com");
     ("subject", VStr "Automated Email");
     ("body", VStr "This is an automated email.")]
  else if is_str function_name "read_csv" then
    [("file_path", VStr "data/sample.csv")]
  else if is_str function_name "read_file" then
    [("file_path", VStr "data/sample.txt")]
  else [].

(** Each default is added where its key is missing, and only there. *)
Definition apply_defaults (defaults parameters0 : dict) : dict :=
  fold_left (fun p kv => if assoc_mem (fst kv) p then p
                         else assoc_set (fst kv) (snd kv) p)
            defaults parameters0.

(** The parameter mapping of a call, empty when the call has none. *)
Definition parameters_of (d : dict) : value :=
  dict_get d "parameters" (VDict []).

(** The call repaired by the table: its parameters completed, the rest of
    the call as it was. *)
Definition repaired (d pd : dict) : dict :=
  assoc_set "parameters"
    (VDict (apply_defaults (defaults_for (dict_get d "function_name"
                                            (VStr EmptyString))) pd))
    d.

(** The call is a mapping with a function name. *)
Definition has_name (call : value) : bool :=
  match call with
  | VDict d => assoc_mem "function_name" d
  | _ => false
  end.

(** What repair makes of a call of a plan. *)
Definition repaired_call (call : value) : value :=
  match call with
  | VDict d =>
      match parameters_of d with
      | VDict pd => VDict (repaired d pd)
      | _ => call
      end
  | _ => call
  end.

(** No call of the plan is malformed. *)
Definition none_malformed (available_functions : list FunctionSchema)
  (calls : list value) : bool :=
  forallb (fun call => negb (malformed available_functions call)) calls.

Module SampleNameless.

(** A planner whose plan holds a call that lacks its function name. *)
Definition plan_function_calls (processed_query : string)
  (available_functions : list FunctionSchema) (w : Sample.World)
  : result dict * Sample.World :=
  (Ok (Sample.plan_of
         [Sample.call "echo" [("value", VStr "hello")];
          VDict [("parameters", VDict [("value", VStr "hello")])]]), w).

End SampleNameless.

(** The orchestrator's answer to [query] is of the successful shape. *)
Definition answers (query : string) (r : PipelineManager.PipelineResult)
  : Prop :=
  exists plan0 execution_result model_info timestamp,
    r = PipelineManager.Processed query plan0 execution_result model_info
          timestamp.

(** ** Registries *)

(** The registries a program can arrive at: the empty one, and what
    [register] makes of one. *)
Inductive built {World : Type} : FunctionRegistry World -> Prop :=
| built_new : built new_registry
| built_register self function :
    built self -> built (register self function).

(** ** Abbreviations *)

(** No letter [w] of the text is followed by a slash; [after_w] says
    whether the character before the text is a [w]. *)
Fixpoint no_w_slash (after_w : bool) (s : string) : bool :=
  match s with
  | EmptyString => true
  | String c r =>
      if after_w && Ascii.eqb c "/" then false
      else no_w_slash (Ascii.eqb c "w") r
  end.

(** [_preprocess_query] over another table of abbreviations. *)
Definition preprocess_with (table : list (string * string)) (query : string)
  : string :=
  let query1 := collapse_spaces false (strip query) in
  let query2 :=
    fold_left (fun q kv => replace q (fst kv) (snd kv)) table query1 in
  let query3 :=
    if str_contains "invoice" (lower query2)
       && str_contains "march" (lower query2)
    then query2 ++ " (Note: Look for invoice data in CSV or database format)"
    else query2 in
  if str_contains "email" (lower query3) && str_contains "send" (lower query3)
  then query3 ++ " (Note: Use email function to send messages)"
  else query3.

(** The table of abbreviations but for the entry of [w/o]. *)
Definition abbreviations_but_without : list (string * string) :=
  filter (fun kv => negb (String.eqb (fst kv) "w/o"))
         QueryProcessor.abbreviations.

Module SampleChain.

(** A plan of one call, and the same plan with a second call that refers
    to the result of the first. *)
Definition first : value := Sample.call "echo" [("value", VStr "hello")].
Definition second : value := Sample.call "echo" [("value", VStr "{{result_0}}")].
Definition long_plan : dict := Sample.plan_of [first; second].

End SampleChain.

(** ** Tidy text *)

(** The text holds no white space but single blanks, each between two
    other characters; [after_blank] says whether the text follows a blank
    or begins the string. *)
Fixpoint tidy (after_blank : bool) (s : string) : bool :=
  match s with
  | EmptyString => negb after_blank
  | String c r =>
      (if Ascii.eqb c " " then negb after_blank else negb (is_space c))
      && tidy (Ascii.eqb c " ") r
  end.

(** The empty text, or a text of words separated by single blanks. *)
Definition normalised (s : string) : bool :=
  match s with
  | EmptyString => true
  | _ => tidy true s
  end.

(** The text does not end in white space. *)
Fixpoint ends_clean (s : string) : bool :=
  match s with
  | EmptyString => true
  | String c r =>
      match r with
      | EmptyString => negb (is_space c)
      | _ => ends_clean r
      end
  end.

(** The positions of the malformed calls of a plan, counted from [i]. *)
Fixpoint malformed_positions (available_functions : list FunctionSchema)
  (i : nat) (calls : list value) : list nat :=
  match calls with
  | [] => []
  | call :: rest =>
      if malformed available_functions call
      then i :: malformed_positions available_functions (S i) rest
      else malformed_positions available_functions (S i) rest
  end.

(** The error message is about the call at position [k]. *)
Definition names_call (k : nat) (msg : string) : Prop :=
  exists rest, msg = call_label k ++ rest.

(* ================================================================== *)
(** * Properties *)
(* ================================================================== *)

(** ** Association lists *)

Section AssocFacts.
Context {A : Type}.
Implicit Types (l : list (string * A)) (k : string) (v : A).

Lemma assoc_get_set_same l k v : assoc_get k (assoc_set k v l) = Some v.
Proof.
  induction l as [|[k' v'] l IH]; simpl.
  - now rewrite String.eqb_refl.
  - destruct (String.eqb k k') eqn:E; simpl.
    + now rewrite String.eqb_refl.
    + now rewrite E.
Qed.

Lemma assoc_get_set_other l k k' v :
  k' <> k -> assoc_get k' (assoc_set k v l) = assoc_get k' l.
Proof.
  intros Hne. induction l as [|[k0 v0] l IH]; simpl.
  - destruct (String.eqb k' k) eqn:E; [|reflexivity].
    apply String.eqb_eq in E. contradiction.
  - destruct (String.eqb k k0) eqn:E; simpl.
    + apply String.eqb_eq in E. subst k0.
      destruct (String.eqb k' k) eqn:E'; [|reflexivity].
      apply String.eqb_eq in E'. contradiction.
    + now rewrite IH.
Qed.

Lemma assoc_set_keys_present l k v :
  assoc_mem k l = true -> assoc_keys (assoc_set k v l) = assoc_keys l.
Proof.
  unfold assoc_mem, assoc_keys.
  induction l as [|[k0 v0] l IH]; simpl; [discriminate|].
  destruct (String.eqb k k0) eqn:E; simpl; intros H.
  - apply String.eqb_eq in E. now subst.
  - now rewrite IH.
Qed.
End AssocFacts.

(** ** The execution summary *)

Lemma filter_split_length {A : Type} (f : A -> bool) (l : list A) :
  List.length (filter f l) + List.length (filter (fun x => negb (f x)) l)
  = List.length l.
Proof.
  induction l as [|x l IH]; simpl; [reflexivity|].
  destruct (f x); simpl; lia.
Qed.

Lemma create_summary_consistent plan0 results0 message0 success0 timestamp :
  summary_consistent
    (_create_execution_result plan0 results0 message0 success0 timestamp).
Proof.
  unfold summary_consistent; simpl. split; [|reflexivity].
  apply filter_split_length.
Qed.

(** Every exit of [execute_plan] goes through [_create_execution_result]. *)
Lemma execute_plan_created {World} clock (self : ExecutionEngine World) plan0 w :
  exists results0 message0 success0 timestamp,
    fst (fst (execute_plan clock self plan0 w))
    = _create_execution_result plan0 results0 message0 success0 timestamp.
Proof.
  unfold execute_plan, engine_failure.
  destruct (negb (truthy (dict_get plan0 "function_calls" (VList [])))).
  - simpl. eauto.
  - destruct (iter _) as [calls|e]; simpl; [|eauto].
    destruct (execute_calls _ calls 0 [] w) as [[[rs|e] self1] w']; simpl; eauto.
Qed.

(** C5: every result the engine hands out, by whichever exit of
    [execute_plan] or by [simulate_execution], has a summary whose
    successful and failed counts add up to the total, and whose total is
    the length of [results]. *)
Theorem summary_counts_add_up :
  forall (World : Type) (clock : World -> string),
    (forall plan0 results0 message0 success0 timestamp,
        summary_consistent
          (_create_execution_result plan0 results0 message0 success0 timestamp))
    /\ (forall (self : ExecutionEngine World) plan0 w,
           summary_consistent (fst (fst (execute_plan clock self plan0 w))))
    /\ (forall plan0 w r,
           simulate_execution clock plan0 w = Ok r -> summary_consistent r).
Proof.
  intros World clock. split; [|split].
  - intros. apply create_summary_consistent.
  - intros self plan0 w.
    destruct (execute_plan_created clock self plan0 w)
      as (rs & m & s & t & ->).
    apply create_summary_consistent.
  - intros plan0 w r. unfold simulate_execution.
    destruct (iter _) as [calls|e]; simpl; [|discriminate].
    destruct (simulate_calls calls 0 []) as [rs|e]; simpl; [|discriminate].
    intros [= <-]. apply create_summary_consistent.
Qed.

(** ** The loop of [execute_plan] *)

Lemma execute_calls_extends {World} (calls : list value) :
  forall (self : ExecutionEngine World) i rs w rs' self' w',
    execute_calls self calls i rs w = (Ok rs', self', w') ->
    exists new,
      rs' = (rs ++ new)%list
      /\ List.length new <= List.length calls
      /\ (calls <> [] -> new <> []).
Proof.
  induction calls as [|call rest IH]; simpl; intros self i rs w rs' self' w' H.
  - injection H as <- _ _. exists []. rewrite app_nil_r. auto.
  - destruct (get call "function_name" (VStr "unknown")); [|discriminate].
    destruct (_execute_single_function self call i w) as [[r|e] w1];
      [|discriminate].
    assert (Hcont : forall rs1 self1 w1',
               execute_calls self1 rest (S i) (rs ++ [r])%list w1'
               = (Ok rs1, self', w') ->
               rs1 = rs' ->
               exists new, rs' = (rs ++ new)%list
                           /\ List.length new <= S (List.length rest)
                           /\ (call :: rest <> [] -> new <> [])).
    { intros rs1 self1 w1' Hrun <-.
      apply IH in Hrun as (new & -> & Hlen & _).
      exists (r :: new). rewrite <- app_assoc. simpl.
      repeat split; [lia | discriminate]. }
    destruct (succeeded r).
    + eapply Hcont; eauto.
    + destruct (_is_critical_function call) as [[|]|e]; [| |discriminate].
      * injection H as <- _ _. exists [r]. simpl.
        repeat split; [lia | discriminate].
      * eapply Hcont; eauto.
Qed.

(** A truthy [function_calls] that the loop survives is a non-empty list. *)
Lemma execute_calls_ok_nonempty {World} (self : ExecutionEngine World)
  function_calls calls rs self' w w' :
  truthy function_calls = true ->
  iter function_calls = Ok calls ->
  execute_calls self calls 0 [] w = (Ok rs, self', w') ->
  rs <> [].
Proof.
  intros Ht Hi Hrun.
  apply execute_calls_extends in Hrun as (new & -> & _ & Hne).
  simpl. apply Hne. intros ->.
  destruct function_calls as [| | |s|l|d]; simpl in *; try discriminate.
  - destruct s; [discriminate|]. discriminate.
  - injection Hi as ->. discriminate.
  - destruct d; [discriminate|]. discriminate.
Qed.

Lemma simulated_result_succeeded i call r :
  simulated_result i call = Ok r -> succeeded r = true.
Proof.
  unfold simulated_result.
  destruct (get call "function_name" (VStr "unknown")); simpl; [|discriminate].
  destruct (get call "description" (VStr EmptyString)); simpl; [|discriminate].
  now intros [= <-].
Qed.

Lemma simulate_calls_succeeded calls :
  forall i acc rs,
    Forall (fun c => succeeded c = true) acc ->
    simulate_calls calls i acc = Ok rs ->
    Forall (fun c => succeeded c = true) rs.
Proof.
  induction calls as [|call rest IH]; simpl; intros i acc rs Hacc H.
  - now injection H as <-.
  - destruct (simulated_result i call) as [r|e] eqn:E; simpl in H;
      [|discriminate].
    apply IH in H; [assumption|].
    apply Forall_app. split; [assumption|].
    constructor; [|constructor]. eapply simulated_result_succeeded; eauto.
Qed.

(** C4, as the code has it: the [success] flag of [execute_plan] is true
    exactly when at least one call result was recorded and every recorded
    result succeeded (an empty plan and an engine-level failure both give
    [success = false] with no results); [simulate_execution] always reports
    success, and all of its results succeed. *)
Theorem success_iff_recorded_and_all_succeeded :
  forall (World : Type) (clock : World -> string),
    (forall (self : ExecutionEngine World) plan0 w,
        let r := fst (fst (execute_plan clock self plan0 w)) in
        success r = true <-> (results r <> [] /\ all_succeeded r))
    /\ (forall plan0 w r,
           simulate_execution clock plan0 w = Ok r ->
           success r = true /\ all_succeeded r).
Proof.
  intros World clock. split.
  - intros self plan0 w. unfold execute_plan, engine_failure, all_succeeded.
    destruct (truthy (dict_get plan0 "function_calls" (VList []))) eqn:Ht;
      simpl.
    + destruct (iter _) as [calls|e] eqn:Hi; simpl.
      * destruct (execute_calls _ calls 0 [] w) as [[[rs|e] self1] w'] eqn:Hr;
          simpl.
        -- rewrite forallb_forall, Forall_forall.
           pose proof (execute_calls_ok_nonempty _ _ _ _ _ _ _ Ht Hi Hr).
           tauto.
        -- split; [discriminate|]. intros [Hne _]. now elim Hne.
      * split; [discriminate|]. intros [Hne _]. now elim Hne.
    + split; [discriminate|]. intros [Hne _]. now elim Hne.
  - intros plan0 w r. unfold simulate_execution, all_succeeded.
    destruct (iter _) as [calls|e]; simpl; [|discriminate].
    destruct (simulate_calls calls 0 []) as [rs|e] eqn:E; simpl;
      [|discriminate].
    intros [= <-]. simpl. split; [reflexivity|].
    eapply simulate_calls_succeeded; eauto.
Qed.

(** C4 as stated fails on the empty plan: nothing was recorded, so every
    recorded result succeeded, yet [success] is false. *)
Lemma empty_plan_breaks_success_iff :
  let r := fst (fst (execute_plan Sample.clock Sample.engine
                       Sample.empty_plan 0)) in
  ~ (success r = true <-> all_succeeded r).
Proof.
  intros r [_ H]. assert (Hs : success r = true).
  { apply H. unfold all_succeeded. vm_compute. constructor. }
  vm_compute in Hs. discriminate.
Qed.

(** ** Empty plans *)

(** C9, as the code has it: [execute_plan] reports a plan without calls as
    unsuccessful, with the message "No function calls to execute", records
    nothing and leaves the engine and the world untouched;
    [simulate_execution] reports the same plan as a success with the
    message "Simulation completed". *)
Theorem empty_plan_outcome :
  forall (World : Type) (clock : World -> string)
         (self : ExecutionEngine World) (plan0 : dict) (w : World),
    dict_get plan0 "function_calls" (VList []) = VList [] ->
    (empty_plan_reported (fst (fst (execute_plan clock self plan0 w)))
     /\ execute_plan clock self plan0 w
        = (_create_execution_result plan0 [] "No function calls to execute"
             false (clock w), self, w))
    /\ simulate_execution clock plan0 w
       = Ok (_create_execution_result plan0 [] "Simulation completed"
               true (clock w)).
Proof.
  intros World clock self plan0 w H.
  unfold execute_plan, simulate_execution, empty_plan_reported.
  rewrite H. simpl. repeat split.
Qed.

Lemma empty_plan_outcome_witness :
  (empty_plan_reported
     (fst (fst (execute_plan Sample.clock Sample.engine Sample.empty_plan 0)))
   /\ execute_plan Sample.clock Sample.engine Sample.empty_plan 0
      = (_create_execution_result Sample.empty_plan []
           "No function calls to execute" false (Sample.clock 0),
         Sample.engine, 0))
  /\ simulate_execution Sample.clock Sample.empty_plan 0
     = Ok (_create_execution_result Sample.empty_plan []
             "Simulation completed" true (Sample.clock 0)).
Proof.
  apply (empty_plan_outcome Sample.World Sample.clock Sample.engine
           Sample.empty_plan 0).
  reflexivity.
Defined.

(** C9 as stated fails for the simulated run of an empty plan. *)
Lemma simulated_empty_plan_not_reported :
  exists r,
    simulate_execution Sample.clock Sample.empty_plan 0 = Ok r
    /\ ~ empty_plan_reported r.
Proof.
  eexists. split; [reflexivity|].
  intros [H _]. discriminate H.
Qed.

(** ** The registry *)

Lemma register_category_members {World} (self : FunctionRegistry World) f :
  assoc_get (category (schema f)) (categories (register self f))
  = Some ((match assoc_get (category (schema f)) (categories self) with
           | Some l => l
           | None => []
           end) ++ [name (schema f)])%list.
Proof.
  unfold register; simpl. rewrite assoc_get_set_same. f_equal. f_equal.
  unfold assoc_mem.
  destruct (assoc_get (category (schema f)) (categories self)) eqn:E.
  - now rewrite E.
  - now rewrite assoc_get_set_same.
Qed.

(** C6, as the code has it: [register] never refuses.  The operation
    handed in becomes the entry under its name, whether or not the name
    was taken; every other name keeps its entry; a name already present
    keeps its place among the keys, and is appended once more to the list
    of its category. *)
Theorem register_overwrites :
  forall (World : Type) (self : FunctionRegistry World) (f : BaseFunction World),
    get_function (register self f) (name (schema f)) = Some f
    /\ (forall n, n <> name (schema f) ->
                  get_function (register self f) n = get_function self n)
    /\ (assoc_mem (name (schema f)) (functions self) = true ->
        assoc_keys (functions (register self f)) = assoc_keys (functions self))
    /\ assoc_get (category (schema f)) (categories (register self f))
       = Some ((match assoc_get (category (schema f)) (categories self) with
                | Some l => l
                | None => []
                end) ++ [name (schema f)])%list.
Proof.
  intros World self f. repeat split.
  - unfold get_function, register; simpl. apply assoc_get_set_same.
  - intros n Hn. unfold get_function, register; simpl.
    now apply assoc_get_set_other.
  - intros H. unfold register; simpl. now apply assoc_set_keys_present.
  - apply register_category_members.
Qed.

Lemma register_overwrites_witness :
  get_function (register Sample.registry Sample.read_csv_again) "read_csv"
  = Some Sample.read_csv_again
  /\ assoc_keys (functions (register Sample.registry Sample.read_csv_again))
     = assoc_keys (functions Sample.registry).
Proof.
  destruct (register_overwrites Sample.World Sample.registry
              Sample.read_csv_again) as (H1 & _ & H3 & _).
  split; [exact H1 | apply H3; reflexivity].
Defined.

(** C6 as stated fails: registering a second operation under the name
    [read_csv] replaces the entry that was there. *)
Lemma second_registration_replaces_entry :
  get_function Sample.registry "read_csv" = Some Sample.read_csv
  /\ get_function (register Sample.registry Sample.read_csv_again) "read_csv"
     <> get_function Sample.registry "read_csv".
Proof.
  split; [reflexivity|].
  intros H. vm_compute in H.
  apply (f_equal (fun o => match o with
                           | Some f => description (schema f)
                           | None => EmptyString
                           end)) in H.
  discriminate H.
Qed.

(** ** Reference resolution *)

Fixpoint has_dot (s : string) : bool :=
  match s with
  | EmptyString => false
  | String c r => Ascii.eqb c "."%char || has_dot r
  end.

Lemma contains_dot s : str_contains "." s = has_dot s.
Proof.
  induction s as [|c r IH]; [reflexivity|].
  cbn [str_contains has_dot]. rewrite IH. f_equal.
  cbn [String.prefix].
  destruct (Ascii.eqb_spec c "."%char) as [->|Hne].
  - destruct (ascii_dec "."%char "."%char) as [_|H]; [|now elim H].
    now destruct r.
  - destruct (ascii_dec "."%char c) as [E|_]; [now elim Hne|reflexivity].
Qed.

Lemma prefix_has_dot sub :
  forall s, String.prefix sub s = true -> has_dot sub = true -> has_dot s = true.
Proof.
  induction sub as [|a sub IH]; intros s Hp Hd; [discriminate|].
  destruct s as [|b s]; [discriminate|]. cbn [String.prefix] in Hp.
  destruct (ascii_dec a b) as [<-|]; [|discriminate].
  cbn [has_dot] in *. apply orb_prop in Hd as [Hd|Hd].
  - now rewrite Hd.
  - rewrite (IH s Hp Hd). apply orb_true_r.
Qed.

Lemma substring_has_dot sub s :
  str_contains sub s = true -> has_dot sub = true -> has_dot s = true.
Proof.
  intros Hc Hd. induction s as [|c r IH].
  - cbn [str_contains] in Hc. rewrite orb_false_r in Hc.
    eapply prefix_has_dot; eauto.
  - cbn [str_contains] in Hc. apply orb_prop in Hc as [Hc|Hc].
    + eapply prefix_has_dot; eauto.
    + cbn [has_dot]. rewrite (IH Hc). apply orb_true_r.
Qed.

Lemma digits_have_no_dot d : has_dot (NilEmpty.string_of_uint d) = false.
Proof. induction d; simpl; assumption || reflexivity. Qed.


Lemma result_key_has_no_dot i : has_dot (result_key i) = false.
Proof.
  unfold result_key, str_of_nat, NilZero.string_of_uint.
  destruct (Nat.to_uint i);
    cbn [append has_dot Ascii.eqb Bool.eqb orb andb];
    solve [reflexivity | apply digits_have_no_dot].
Qed.

(** A name with a dot in it is no key of the engine, and no part of one. *)
Lemma dotted_name_not_in_context reference (execution_context : dict) :
  has_dot reference = true ->
  engine_keys execution_context ->
  assoc_get reference execution_context = None
  /\ scan_context reference execution_context = Ok VNone.
Proof.
  intros Hdot. unfold engine_keys, assoc_keys.
  induction execution_context as [|[k v] rest IH]; simpl; intros Hkeys;
    [split; reflexivity|].
  inversion Hkeys as [|? ? (i & ->) Hrest]; subst.
  destruct (IH Hrest) as [-> ->].
  destruct (String.eqb_spec reference (result_key i))
    as [->|_].
  - now rewrite result_key_has_no_dot in Hdot.
  - destruct (str_contains reference (result_key i)) eqn:E;
      [|split; reflexivity].
    pose proof (substring_has_dot _ _ E Hdot) as H.
    now rewrite result_key_has_no_dot in H.
Qed.

(** The engine writes its own keys only. *)
Lemma execute_calls_engine_keys {World} (calls : list value) :
  forall (self : ExecutionEngine World) i rs w out self' w',
    engine_keys (execution_context self) ->
    execute_calls self calls i rs w = (out, self', w') ->
    engine_keys (execution_context self').
Proof.
  assert (Hset : forall (d : dict) i r,
             engine_keys d ->
             engine_keys
               (assoc_set (result_key i) r d)).
  { unfold engine_keys, assoc_keys.
    induction d as [|[k v] d IH]; intros i r Hd; cbn [assoc_set].
    - cbn [map fst]. constructor; [eauto|constructor].
    - cbn [map fst] in Hd. inversion Hd; subst.
      destruct (String.eqb (result_key i) k); cbn [map fst];
        constructor; eauto. }
  induction calls as [|call rest IH]; simpl;
    intros self i rs w out self' w' Hkeys Hrun.
  - now injection Hrun as _ <- _.
  - destruct (get call "function_name" (VStr "unknown"));
      [|now injection Hrun as _ <- _].
    destruct (_execute_single_function self call i w) as [[r|e] w1];
      [|now injection Hrun as _ <- _].
    assert (Hrec : engine_keys
                     (execution_context (record_result self i r)))
      by (apply Hset; assumption).
    destruct (succeeded r); [eapply IH; eauto|].
    destruct (_is_critical_function call) as [[|]|e];
      [now injection Hrun as _ <- _ | eapply IH; eauto
       | now injection Hrun as _ <- _].
Qed.

(** C1 does not hold of the code.  On the context of the repository's own
    test, the reference [result_0.data] resolves to [None], although the
    dotted walk of the third branch would reach ["test_data"].  The same
    happens for every context the engine can build and every reference
    [result_...] with a dot in it: the branch for names that start with
    [result_] is tried first and falls through to the final scan, so the
    walk is never taken. *)
Theorem dotted_result_reference_is_unresolved :
  (_resolve_reference SampleReferences.tested_context "result_0.data" = VNone
   /\ walk (VDict SampleReferences.tested_context)
           (split_on "." "result_0.data") = VStr "test_data"
   /\ _process_parameters SampleReferences.tested_context
        (VDict [("text", VStr "{{result_0.data}}")])
      = Ok [("text", VNone)])
  /\ (forall execution_context reference,
         engine_keys execution_context ->
         startswith reference "result_" = true ->
         str_contains "." reference = true ->
         _resolve_reference execution_context reference = VNone)
  /\ (forall (World : Type) (clock : World -> string)
             (self : ExecutionEngine World) plan0 w,
         engine_keys (execution_context self) ->
         engine_keys
           (execution_context (snd (fst (execute_plan clock self plan0 w))))).
Proof.
  split; [repeat split|split].
  - intros execution_context reference Hkeys Hstart Hdot.
    rewrite contains_dot in Hdot.
    unfold _resolve_reference, resolve_reference_body.
    destruct (String.eqb_spec reference "output_from_previous") as [->|_];
      [discriminate|].
    rewrite Hstart.
    now destruct (dotted_name_not_in_context _ _ Hdot Hkeys) as [-> ->].
  - intros World clock self plan0 w Hself. unfold execute_plan.
    destruct (negb _); [assumption|].
    assert (H0 : engine_keys (execution_context (reset_context self)))
      by constructor.
    destruct (iter _) as [calls|e]; [|assumption].
    destruct (execute_calls _ calls 0 [] w) as [[[rs|e] self1] w'] eqn:Hrun;
      simpl; eapply execute_calls_engine_keys; eauto.
Qed.

(** C2 does not hold of the code: with eleven results recorded, the
    twelfth call's [output_from_previous] is the payload of call 9, not of
    call 10, because the greatest key is taken in string order.  Up to ten
    recorded results the greatest key is the latest one. *)
Theorem output_from_previous_after_eleven_calls :
  (let r := fst (fst (execute_plan Sample.clock Sample.engine
                        SampleReferences.chained_plan 0)) in
   List.length (results r) = 12
   /\ SampleReferences.data_at r 9 = Some (VInt 9)
   /\ SampleReferences.data_at r 10 = Some (VInt 10)
   /\ SampleReferences.data_at r 11 = Some (VInt 9))
  /\ (forall n, n < 10 ->
                latest_key n = result_key n)
  /\ latest_key 10 = result_key 9.
Proof.
  split; [vm_compute; repeat split|split; [|reflexivity]].
  intros n Hn.
  do 10 (destruct n as [|n]; [reflexivity|]). lia.
Qed.

(** ** The critical-failure policy *)

Lemma existsb_is_str n l :
  existsb (is_str (VStr n)) l = true <-> In n l.
Proof.
  rewrite existsb_exists. split.
  - intros (x & Hx & E). simpl in E. apply String.eqb_eq in E. now subst.
  - intros H. exists n. split; [assumption|]. simpl. apply String.eqb_refl.
Qed.

Lemma is_critical_dict d :
  exists b, _is_critical_function (VDict d) = Ok b
            /\ (b = true <-> names_critical_operation (VDict d)).
Proof.
  unfold names_critical_operation, names_operation.
  cbv [_is_critical_function get bind dict_get].
  eexists. split; [reflexivity|]. split.
  - intros H. destruct (assoc_get "function_name" d) as [v|] eqn:E.
    + destruct v as [| | |n| |]; try (vm_compute in H; discriminate).
      exists n. split; [eauto|]. now apply existsb_is_str.
    + vm_compute in H. discriminate.
  - intros (n & (d' & [= <-] & Hn) & Hin). rewrite Hn.
    now apply existsb_is_str.
Qed.

Lemma nth_error_after_prefix {A} (rs new : list A) (k : nat) :
  nth_error (rs ++ new) (List.length rs + k) = nth_error new k.
Proof.
  rewrite nth_error_app2 by lia. f_equal. lia.
Qed.

(** What the loop tells about the result recorded for call [k]. *)
Lemma execute_calls_policy {World} (calls : list value) :
  forall (self : ExecutionEngine World) i rs w rs' self' w',
    execute_calls self calls i rs w = (Ok rs', self', w') ->
    forall k call res,
      nth_error calls k = Some call ->
      nth_error rs' (List.length rs + k) = Some res ->
      (succeeded res = false -> _is_critical_function call = Ok true ->
       List.length rs' = List.length rs + k + 1
       /\ execute_calls self (firstn (S k) calls) i rs w = (Ok rs', self', w'))
      /\ ((succeeded res = true \/ _is_critical_function call <> Ok true) ->
          S k < List.length calls ->
          List.length rs + S k < List.length rs').
Proof.
  induction calls as [|call0 rest IH];
    intros self i rs w rs' self' w' Hrun k call res Hcall Hres.
  - destruct k; discriminate.
  - simpl in Hrun.
    destruct (get call0 "function_name" (VStr "unknown")) as [fn|] eqn:Hget;
      [|discriminate].
    destruct (_execute_single_function self call0 i w) as [[r|e] w1] eqn:Hsingle;
      [|discriminate].
    (* the two ways the loop leaves this iteration *)
    assert (Hstop : succeeded r = false ->
                    _is_critical_function call0 = Ok true ->
                    rs' = (rs ++ [r])%list /\ self' = record_result self i r
                    /\ w' = w1).
    { intros Hs Hc. rewrite Hs, Hc in Hrun. now injection Hrun as <- <- <-. }
    assert (Hgo : succeeded r = true \/ _is_critical_function call0 <> Ok true ->
                  execute_calls (record_result self i r) rest (S i)
                    (rs ++ [r])%list w1 = (Ok rs', self', w')).
    { intros [Hs|Hc].
      - now rewrite Hs in Hrun.
      - destruct (succeeded r); [assumption|].
        destruct (_is_critical_function call0) as [[|]|];
          [now elim Hc | assumption | discriminate]. }
    assert (Hcases : (succeeded r = false /\ _is_critical_function call0 = Ok true)
                     \/ (succeeded r = true
                         \/ _is_critical_function call0 <> Ok true)).
    { destruct (succeeded r) eqn:Hs; [tauto|].
      destruct (_is_critical_function call0) as [[|]|];
        [tauto | right; right; discriminate | discriminate]. }
    destruct k as [|k].
    + (* the result asked about is the one of this iteration *)
      injection Hcall as <-.
      assert (res = r) as ->.
      { destruct Hcases as [[Hs Hc]|Hcont].
        - destruct (Hstop Hs Hc) as (-> & _).
          rewrite Nat.add_0_r, nth_error_app2, Nat.sub_diag in Hres by lia.
          now injection Hres.
        - apply Hgo, execute_calls_extends in Hcont as (new & -> & _).
          rewrite <- app_assoc, nth_error_after_prefix in Hres.
          now injection Hres. }
      split.
      * intros Hs Hc. destruct (Hstop Hs Hc) as (-> & -> & ->).
        split; [rewrite length_app; simpl; lia|].
        simpl. now rewrite Hget, Hsingle, Hs, Hc.
      * intros Hcont Hlen. apply Hgo in Hcont.
        apply execute_calls_extends in Hcont as (new & -> & _ & Hne).
        simpl in Hlen. rewrite !length_app. simpl.
        assert (rest <> []) by (destruct rest; [simpl in Hlen; lia|discriminate]).
        destruct new; [now elim Hne|]. simpl. lia.
    + (* a later call: this iteration did not stop the loop *)
      simpl in Hcall.
      destruct Hcases as [[Hs Hc]|Hcont].
      * destruct (Hstop Hs Hc) as (-> & _).
        rewrite nth_error_after_prefix in Hres. destruct k; discriminate.
      * pose proof (Hgo Hcont) as Hrest.
        specialize (IH _ _ _ _ _ _ _ Hrest k call res Hcall).
        rewrite length_app in IH. simpl in IH.
        replace (List.length rs + 1 + k) with (List.length rs + S k) in IH by lia.
        destruct (IH Hres) as [IHa IHb]. split.
        -- intros Hs Hc. destruct (IHa Hs Hc) as [Hlen Htrunc].
           split; [lia|].
           change (firstn (S (S k)) (call0 :: rest))
             with (call0 :: firstn (S k) rest).
           simpl. rewrite Hget, Hsingle.
           destruct Hcont as [Hs0|Hc0].
           ++ now rewrite Hs0.
           ++ destruct (succeeded r); [assumption|].
              destruct (_is_critical_function call0) as [[|]|];
                [now elim Hc0 | assumption | discriminate].
        -- intros Hor Hlen. simpl in Hlen.
           assert (S k < List.length rest) as Hlt by lia.
           specialize (IHb Hor Hlt). lia.
Qed.

Lemma not_critical_operation call :
  ~ names_critical_operation call -> _is_critical_function call <> Ok true.
Proof.
  intros Hn H. destruct call as [| | | | |d]; try discriminate.
  destruct (is_critical_dict d) as (b & Hb & Hiff).
  rewrite Hb in H. injection H as ->. now apply Hn, Hiff.
Qed.

Lemma critical_operation call :
  names_critical_operation call -> _is_critical_function call = Ok true.
Proof.
  intros H. pose proof H as (n & (d & -> & _) & _).
  destruct (is_critical_dict d) as (b & Hb & Hiff).
  rewrite Hb. f_equal. now apply Hiff.
Qed.

(** C3: let the result recorded at index [k] be unsuccessful.  If call [k]
    names a critical operation, [results] has exactly [k + 1] entries and
    the loop ran as it would on the plan cut after call [k] (same results,
    same context, same world: nothing after [k] was invoked or recorded).
    If call [k] names no critical operation and is not the last one, a
    result for call [k + 1] is recorded too. *)
Theorem critical_failure_policy :
  forall (World : Type) (clock : World -> string)
         (self : ExecutionEngine World) (plan0 : dict) (calls : list value)
         (w : World) (k : nat) (call : value) (res : dict),
    dict_get plan0 "function_calls" (VList []) = VList calls ->
    nth_error calls k = Some call ->
    nth_error (results (fst (fst (execute_plan clock self plan0 w)))) k
    = Some res ->
    succeeded res = false ->
    (names_critical_operation call ->
     List.length (results (fst (fst (execute_plan clock self plan0 w))))
     = k + 1
     /\ execute_calls (reset_context self) calls 0 [] w
        = execute_calls (reset_context self) (firstn (S k) calls) 0 [] w)
    /\ (~ names_critical_operation call ->
        S k < List.length calls ->
        S k < List.length
                (results (fst (fst (execute_plan clock self plan0 w))))).
Proof.
  intros World clock self plan0 calls w k call res Hcalls Hcall Hres Hfail.
  unfold execute_plan in *. rewrite Hcalls in *.
  assert (truthy (VList calls) = true) as Ht
      by (destruct calls; [destruct k; discriminate | reflexivity]).
  rewrite Ht in *. simpl in *.
  destruct (execute_calls (reset_context self) calls 0 [] w)
    as [[[rs|e] self1] w'] eqn:Hrun; simpl in *;
    [|destruct k; discriminate].
  pose proof (execute_calls_policy calls _ _ _ _ _ _ _ Hrun k call res Hcall Hres)
    as [Ha Hb].
  split.
  - intros Hcrit. destruct (Ha Hfail (critical_operation _ Hcrit)) as [Hlen Htr].
    split; [exact Hlen | symmetry; exact Htr].
  - intros Hnot Hlt. apply Hb; [right; now apply not_critical_operation | assumption].
Qed.

(** The sample plan: the fourth call is a critical failure (four results,
    four operations invoked, the fifth call never run), the second a
    failure that is not critical (the third call follows). *)
Lemma critical_failure_policy_witness :
  ((List.length (results SamplePolicy.outcome) = 3 + 1
    /\ execute_calls (reset_context Sample.engine) SamplePolicy.calls 0 [] 0
       = execute_calls (reset_context Sample.engine)
           (firstn 4 SamplePolicy.calls) 0 [] 0)
   /\ 2 < List.length (results SamplePolicy.outcome))
  /\ snd (execute_plan Sample.clock Sample.engine SamplePolicy.plan 0) = 4.
Proof.
  split; [split|reflexivity].
  - refine (proj1 (critical_failure_policy Sample.World Sample.clock
                     Sample.engine SamplePolicy.plan SamplePolicy.calls 0 3
                     (Sample.call "read_csv" [("file_path", VStr "missing.csv")])
                     _ eq_refl eq_refl eq_refl eq_refl) _).
    exists "read_csv". split.
    + eexists. split; reflexivity.
    + simpl. tauto.
  - refine (proj2 (critical_failure_policy Sample.World Sample.clock
                     Sample.engine SamplePolicy.plan SamplePolicy.calls 0 1
                     (Sample.call "send_sms"
                        [("phone_number", VStr "555"); ("message", VStr "hi")])
                     _ eq_refl eq_refl eq_refl eq_refl) _ _).
    + intros (n & (d & [= <-] & Hn) & Hin). injection Hn as <-.
      simpl in Hin. repeat destruct Hin as [Hin|Hin]; discriminate || assumption.
    + simpl. lia.
Defined.

(** ** Validation *)

Lemma str_mem_keys (d : dict) k : str_mem k (assoc_keys d) = assoc_mem k d.
Proof.
  unfold str_mem, assoc_keys, assoc_mem.
  induction d as [|[k0 v0] d IH]; simpl; [reflexivity|].
  destruct (String.eqb k k0); simpl; [reflexivity|assumption].
Qed.

Lemma filter_nil_iff {A} (f : A -> bool) l :
  filter f l = [] <-> existsb f l = false.
Proof.
  induction l as [|x l IH]; simpl; [tauto|].
  destruct (f x); simpl; [split; discriminate|assumption].
Qed.

Lemma existsb_nodup (f : string -> bool) l :
  existsb f (nodup string_dec l) = existsb f l.
Proof.
  apply eq_true_iff_eq. rewrite !existsb_exists.
  split; intros (x & Hin & Hx); exists x; split; try assumption;
    now apply (nodup_In string_dec).
Qed.

Lemma missing_params_nil (ps : list FunctionParameter) (p : dict) :
  missing_params (map param_name (filter required ps)) (assoc_keys p) = []
  <-> existsb (fun q => required q && negb (assoc_mem (param_name q) p)) ps
      = false.
Proof.
  unfold missing_params. rewrite filter_nil_iff, existsb_nodup.
  induction ps as [|q ps IH]; simpl; [tauto|].
  destruct (required q); simpl; [|assumption].
  rewrite str_mem_keys. destruct (assoc_mem (param_name q) p); simpl;
    [assumption | tauto].
Qed.

Lemma known_name_found v (available_functions : list FunctionSchema) :
  existsb (is_str v) (map name available_functions) = true ->
  exists func_def,
    find (fun f => is_str v (name f)) available_functions = Some func_def.
Proof.
  induction available_functions as [|f l IH]; simpl; [discriminate|].
  destruct (is_str v (name f)); simpl; eauto.
Qed.

(** The loop body adds an error exactly for a malformed call. *)
Lemma validate_call_malformed available_functions i call :
  well_shaped call = true ->
  exists e,
    validate_call available_functions i call = Ok e
    /\ ((exists msg, e = Some msg) <-> malformed available_functions call = true).
Proof.
  destruct call as [| | | | |d]; try discriminate. simpl.
  unfold validate_call, malformed, missing_function_name, unknown_operation,
    missing_parameters_field, missing_required_parameter.
  cbn [contains bind subscript]. unfold assoc_mem.
  destruct (assoc_get "function_name" d) as [v|] eqn:Hname; cbn [negb];
    [|intros _; eexists; split; [reflexivity|];
      rewrite !orb_true_r; simpl; split; eauto].
  intros Hshape. apply andb_prop in Hshape as [Hhash Hparams].
  cbn [bind]. unfold in_name_set. rewrite Hhash. cbn [bind].
  destruct (existsb (is_str v) (map name available_functions)) eqn:Hknown;
    cbn [negb];
    [|eexists; split; [reflexivity|]; rewrite !orb_true_r; split; eauto].
  destruct (assoc_get "parameters" d) as [p|] eqn:Hp; cbn [negb];
    [|eexists; split; [reflexivity|];
      rewrite orb_true_r; simpl; split; eauto].
  destruct p as [| | | | |p]; try discriminate.
  destruct (known_name_found _ _ Hknown) as (func_def & ->).
  cbn [bind keys]. rewrite !orb_false_r.
  pose proof (missing_params_nil (parameters func_def) p) as Hnil.
  unfold assoc_mem in Hnil.
  destruct (missing_params _ _) as [|m ms].
  - eexists. split; [reflexivity|].
    rewrite (proj1 Hnil eq_refl). split; [intros [? ?]|]; discriminate.
  - eexists. split; [reflexivity|]. split; [|eauto]. intros _.
    destruct (existsb _ (parameters func_def)); [reflexivity|].
    discriminate (proj2 Hnil eq_refl).
Qed.

Lemma validate_loop_counts available_functions calls :
  forallb well_shaped calls = true ->
  forall i errors,
  exists new,
    validate_loop available_functions calls i errors = Ok (errors ++ new)%list
    /\ List.length new
       = List.length (filter (malformed available_functions) calls).
Proof.
  induction calls as [|call rest IH]; simpl; intros Hshape i errors.
  - exists []. now rewrite app_nil_r.
  - apply andb_prop in Hshape as [Hcall Hrest].
    destruct (validate_call_malformed available_functions i call Hcall)
      as (e & -> & Hiff). cbn [bind].
    destruct e as [msg|].
    + rewrite (proj1 Hiff (ex_intro _ msg eq_refl)).
      destruct (IH Hrest (S i) (errors ++ [msg])%list) as (new & -> & Hlen).
      exists (msg :: new). rewrite <- app_assoc. simpl. auto.
    + destruct (malformed available_functions call) eqn:Hm.
      * destruct (proj2 Hiff eq_refl); discriminate.
      * apply IH; assumption.
Qed.

(** C8: on a plan of well-shaped calls the validator returns; it reports
    one error for each malformed call, hence at least [N] errors for [N]
    malformed calls, whichever calls they are and wherever they stand;
    [is_valid] is true exactly when the error list is empty, and false as
    soon as one call is malformed. *)
Theorem validation_accumulates_errors :
  forall (available_functions : list FunctionSchema) (calls : list value),
    forallb well_shaped calls = true ->
    exists is_valid errors,
      validate_function_calls (VList calls) available_functions
      = Ok (is_valid, errors)
      /\ List.length (filter (malformed available_functions) calls)
         <= List.length errors
      /\ List.length errors
         = List.length (filter (malformed available_functions) calls)
      /\ (is_valid = true <-> errors = [])
      /\ (0 < List.length (filter (malformed available_functions) calls) ->
          is_valid = false).
Proof.
  intros available_functions calls Hshape.
  unfold validate_function_calls. cbn [iter bind].
  destruct (validate_loop_counts available_functions calls Hshape 0 [])
    as (errors & -> & Hlen).
  cbn [app bind]. exists (Nat.eqb (List.length errors) 0), errors.
  repeat split; try lia.
  - intros H. apply Nat.eqb_eq in H. now destruct errors.
  - now intros ->.
  - intros Hpos. apply Nat.eqb_neq. lia.
Qed.

Lemma validation_accumulates_errors_witness :
  exists is_valid errors,
    validate_function_calls (VList SampleValidation.calls)
      SampleValidation.available_functions = Ok (is_valid, errors)
    /\ List.length (filter (malformed SampleValidation.available_functions)
                      SampleValidation.calls) <= List.length errors
    /\ List.length errors
       = List.length (filter (malformed SampleValidation.available_functions)
                        SampleValidation.calls)
    /\ (is_valid = true <-> errors = [])
    /\ (0 < List.length (filter (malformed SampleValidation.available_functions)
                           SampleValidation.calls) ->
        is_valid = false).
Proof.
  apply (validation_accumulates_errors SampleValidation.available_functions
           SampleValidation.calls).
  reflexivity.
Defined.

(** ** De-duplication *)

Lemma eqb_hashable_refl v : hashable v = true -> eqb_hashable v v = true.
Proof.
  destruct v; simpl; try discriminate; intros _;
    auto using Bool.eqb_reflx, Z.eqb_refl, String.eqb_refl.
Qed.

Lemma signature_eqb_refl s : hashable (fst s) = true -> signature_eqb s s = true.
Proof.
  intros H. unfold signature_eqb.
  now rewrite eqb_hashable_refl, String.eqb_refl.
Qed.

Lemma has_signature_of call :
  has_signature call = true ->
  call_signature call = Ok (signature_of call)
  /\ hashable (fst (signature_of call)) = true.
Proof.
  unfold has_signature, signature_of.
  destruct (call_signature call); [auto|discriminate].
Qed.

(** The loop computes [first_occurrences]. *)
Lemma optimize_loop_first_occurrences calls :
  forallb has_signature calls = true ->
  forall seen optimized,
    optimize_loop calls seen optimized
    = Ok (optimized ++ first_occurrences seen calls)%list.
Proof.
  induction calls as [|call rest IH]; simpl; intros Hsig seen optimized.
  - now rewrite app_nil_r.
  - apply andb_prop in Hsig as [Hcall Hrest].
    destruct (has_signature_of call Hcall) as [-> Hhash]. cbn [bind].
    rewrite Hhash. cbn [negb].
    destruct (existsb (signature_eqb (signature_of call)) seen).
    + now apply IH.
    + rewrite IH by assumption. now rewrite <- app_assoc.
Qed.

Lemma first_occurrences_subsequence calls :
  forall seen, subsequence (first_occurrences seen calls) calls.
Proof.
  induction calls as [|call rest IH]; simpl; intros seen.
  - constructor.
  - destruct (existsb _ seen); constructor; apply IH.
Qed.

(** What survives was not seen before. *)
Lemma first_occurrences_unseen calls :
  forall seen b,
    In b (first_occurrences seen calls) ->
    existsb (signature_eqb (signature_of b)) seen = false.
Proof.
  induction calls as [|call rest IH]; simpl; intros seen b Hin; [contradiction|].
  destruct (existsb (signature_eqb (signature_of call)) seen) eqn:E.
  - now apply IH.
  - destruct Hin as [<-|Hin]; [assumption|].
    apply IH in Hin. simpl in Hin. now apply orb_false_elim in Hin.
Qed.

Lemma first_occurrences_distinct calls :
  forall seen,
    ForallOrdPairs
      (fun a b => signature_eqb (signature_of b) (signature_of a) = false)
      (first_occurrences seen calls).
Proof.
  induction calls as [|call rest IH]; simpl; intros seen; [constructor|].
  destruct (existsb (signature_eqb (signature_of call)) seen) eqn:E.
  - apply IH.
  - constructor; [|apply IH].
    apply Forall_forall. intros b Hin.
    apply first_occurrences_unseen in Hin. simpl in Hin.
    now apply orb_false_elim in Hin.
Qed.

Lemma first_occurrences_cover calls :
  forallb has_signature calls = true ->
  forall seen a,
    In a calls ->
    existsb (signature_eqb (signature_of a)) seen = true
    \/ exists b, In b (first_occurrences seen calls)
                 /\ signature_eqb (signature_of a) (signature_of b) = true.
Proof.
  induction calls as [|call rest IH]; simpl; intros Hsig seen a Hin;
    [contradiction|].
  apply andb_prop in Hsig as [Hcall Hrest].
  destruct (existsb (signature_eqb (signature_of call)) seen) eqn:E.
  - destruct Hin as [<-|Hin]; [now left|]. now apply IH.
  - destruct Hin as [<-|Hin].
    + right. exists call. split; [now left|].
      apply signature_eqb_refl. now apply has_signature_of.
    + destruct (IH Hrest (signature_of call :: seen) a Hin) as [Hs|(b & Hb & Hs)].
      * simpl in Hs. apply orb_prop in Hs as [Hs|Hs]; [|now left].
        right. exists call. split; [now left|assumption].
      * right. exists b. split; [now right|assumption].
Qed.

(** A call whose signature was seen leaves no trace. *)
Lemma first_occurrences_drop l2 :
  forall seen b l3,
    existsb (signature_eqb (signature_of b)) seen = true ->
    first_occurrences seen (l2 ++ b :: l3)
    = first_occurrences seen (l2 ++ l3).
Proof.
  induction l2 as [|c l2 IH]; simpl; intros seen b l3 Hseen.
  - now rewrite Hseen.
  - destruct (existsb (signature_eqb (signature_of c)) seen).
    + now apply IH.
    + f_equal. apply IH. simpl. rewrite Hseen. apply orb_true_r.
Qed.

Lemma eqb_hashable_trans a b c :
  eqb_hashable a b = true -> eqb_hashable b c = true ->
  eqb_hashable a c = true.
Proof.
  destruct a as [|x|x|x| |], b as [|y|y|y| |], c as [|z|z|z| |]; simpl;
    try discriminate; try reflexivity;
    rewrite ?Z.eqb_eq, ?String.eqb_eq, ?Bool.eqb_true_iff;
    intros; subst; try reflexivity;
    repeat match goal with
           | v : bool |- _ => destruct v
           end; congruence.
Qed.

Lemma signature_eqb_trans s t u :
  signature_eqb s t = true -> signature_eqb t u = true ->
  signature_eqb s u = true.
Proof.
  unfold signature_eqb. intros H1 H2.
  apply andb_prop in H1 as [H1 H1'], H2 as [H2 H2'].
  rewrite (eqb_hashable_trans _ _ _ H1 H2).
  apply String.eqb_eq in H1', H2'. rewrite H1', H2'. apply String.eqb_refl.
Qed.

Lemma seen_same_signature s t seen :
  signature_eqb s t = true ->
  existsb (signature_eqb t) seen = true ->
  existsb (signature_eqb s) seen = true.
Proof.
  intros Hst. rewrite !existsb_exists. intros (u & Hin & Hu).
  exists u. split; [assumption|]. eapply signature_eqb_trans; eauto.
Qed.

Lemma first_occurrences_drop_later l1 :
  forall seen a l2 b l3,
    signature_eqb (signature_of b) (signature_of a) = true ->
    first_occurrences seen (l1 ++ a :: l2 ++ b :: l3)
    = first_occurrences seen (l1 ++ a :: l2 ++ l3).
Proof.
  induction l1 as [|c l1 IH]; simpl; intros seen a l2 b l3 Hsame.
  - destruct (existsb (signature_eqb (signature_of a)) seen) eqn:E.
    + apply first_occurrences_drop. eapply seen_same_signature; eauto.
    + f_equal. apply first_occurrences_drop. simpl. now rewrite Hsame.
  - destruct (existsb (signature_eqb (signature_of c)) seen).
    + now apply IH.
    + f_equal. now apply IH.
Qed.

Lemma first_occurrences_all calls :
  forall seen,
    Forall (fun a => existsb (signature_eqb (signature_of a)) seen = false)
           calls ->
    ForallOrdPairs
      (fun a b => signature_eqb (signature_of b) (signature_of a) = false)
      calls ->
    first_occurrences seen calls = calls.
Proof.
  induction calls as [|call rest IH]; simpl; intros seen Hseen Hpairs;
    [reflexivity|].
  inversion Hseen as [|? ? Hcall Hrest]; subst.
  inversion Hpairs as [|? ? Hhead Htail]; subst.
  rewrite Hcall. f_equal. apply IH; [|assumption].
  apply Forall_forall. intros a Hin. simpl.
  rewrite Forall_forall in Hhead, Hrest.
  now rewrite (Hhead a Hin), (Hrest a Hin).
Qed.

Lemma eqb_hashable_sym a b : eqb_hashable a b = eqb_hashable b a.
Proof.
  destruct a as [|x|x|x| |], b as [|y|y|y| |]; simpl; try reflexivity.
  - now destruct x, y.
  - apply Z.eqb_sym.
  - apply String.eqb_sym.
Qed.

Lemma signature_eqb_sym s t : signature_eqb s t = signature_eqb t s.
Proof.
  unfold signature_eqb. now rewrite eqb_hashable_sym, String.eqb_sym.
Qed.

Lemma same_signature_eqb a b :
  has_signature a = true -> has_signature b = true ->
  (same_signature a b
   <-> signature_eqb (signature_of a) (signature_of b) = true).
Proof.
  intros Ha Hb.
  destruct (has_signature_of a Ha) as [Hsa _].
  destruct (has_signature_of b Hb) as [Hsb _].
  unfold same_signature. split.
  - intros (sa & sb & Ea & Eb & H). congruence.
  - intros H. eauto.
Qed.

Lemma subsequence_In {A} (l l' : list A) :
  subsequence l l' -> forall x, In x l -> In x l'.
Proof.
  induction 1; simpl; intros y Hy; [assumption| |]; firstorder.
Qed.

Lemma pairs_distinct_signatures calls :
  forallb has_signature calls = true ->
  (ForallOrdPairs (fun a b => ~ same_signature a b) calls
   <-> ForallOrdPairs
         (fun a b => signature_eqb (signature_of b) (signature_of a) = false)
         calls).
Proof.
  induction calls as [|c rest IH]; simpl; intros Hsig.
  - split; constructor.
  - apply andb_prop in Hsig as [Hc Hrest].
    rewrite forallb_forall in Hrest.
    assert (Hhead : Forall (fun b => ~ same_signature c b) rest
                    <-> Forall (fun b => signature_eqb (signature_of b)
                                           (signature_of c) = false) rest).
    { rewrite !Forall_forall.
      split; intros H b Hin; specialize (H b Hin);
        pose proof (same_signature_eqb c b Hc (Hrest b Hin)) as Hiff;
        rewrite signature_eqb_sym in Hiff.
      - destruct (signature_eqb _ _); [|reflexivity]. now elim H; apply Hiff.
      - intros Hs. apply Hiff in Hs. congruence. }
    assert (Hrest' : forallb has_signature rest = true)
      by now apply forallb_forall.
    split; intros H; inversion H; subst; constructor;
      try (now apply Hhead); now apply (IH Hrest').
Qed.

(** C10: on calls that all have a signature, [optimize_function_sequence]
    returns a list [optimized] such that: it is the submitted list with
    some calls left out and the order kept; no two of its calls have the
    same signature; every submitted call has its signature among them; a
    later call with the signature of an earlier one can be struck from the
    submitted list without changing the outcome (it is dropped silently),
    and a list without repeated signatures comes back whole.  Two calls
    with the same function name and the same parameters have the same
    signature.  Three copies of one call leave one, and of a plan that
    says the same thing twice one call is executed: fewer calls are run
    than were submitted.  [process_query] hands on the plan with the list
    so reduced. *)
Theorem duplicates_removed_order_kept :
  (forall calls : list value,
      forallb has_signature calls = true ->
      exists optimized,
        optimize_function_sequence (VList calls) = Ok optimized
        /\ subsequence optimized calls
        /\ ForallOrdPairs (fun a b => ~ same_signature a b) optimized
        /\ (forall a, In a calls ->
                      exists b, In b optimized /\ same_signature a b)
        /\ (forall l1 a l2 b l3,
               calls = (l1 ++ a :: l2 ++ b :: l3)%list ->
               same_signature a b ->
               optimize_function_sequence (VList (l1 ++ a :: l2 ++ l3)%list)
               = Ok optimized)
        /\ (ForallOrdPairs (fun a b => ~ same_signature a b) calls ->
            optimized = calls))
  /\ (forall a b,
         has_signature a = true -> duplicate_of a b -> same_signature a b)
  /\ (optimize_function_sequence (VList SampleDuplicates.calls)
      = Ok [SampleDuplicates.read; SampleDuplicates.show]
      /\ option_map (fun r => List.length (results r))
           (SamplePipeline.executed (SamplePipeline.run "say it twice"))
         = Some 1)
  /\ (forall (World : Type) (clock : World -> string) query processed_query
             available_functions (plan0 : dict) (w : World) out v,
         QueryProcessor.finish_plan clock query processed_query
           available_functions plan0 w = Ok out ->
         assoc_get "function_calls" out = Some v ->
         exists plan1 submitted optimized,
           (plan1 = plan0
            \/ exists errors,
                 QueryProcessor._fix_common_issues plan0 errors = Ok plan1)
           /\ assoc_get "function_calls" plan1 = Some submitted
           /\ optimize_function_sequence submitted = Ok optimized
           /\ v = VList optimized).
Proof.
  split; [|split; [|split]].
  - intros calls Hsig.
    exists (first_occurrences [] calls).
    unfold optimize_function_sequence. cbn [iter bind].
    pose proof (first_occurrences_subsequence calls []) as Hsub.
    assert (Hsig' : forallb has_signature (first_occurrences [] calls) = true).
    { apply forallb_forall. intros x Hx.
      rewrite forallb_forall in Hsig. apply Hsig.
      eapply subsequence_In; eauto. }
    repeat split.
    + now rewrite optimize_loop_first_occurrences.
    + assumption.
    + apply pairs_distinct_signatures; [assumption|].
      apply first_occurrences_distinct.
    + intros a Hin.
      destruct (first_occurrences_cover calls Hsig [] a Hin) as [H|(b & Hb & H)];
        [discriminate|].
      exists b. split; [assumption|].
      rewrite forallb_forall in Hsig, Hsig'.
      apply same_signature_eqb; auto.
    + intros l1 a l2 b l3 -> Hsame.
      assert (Hab : signature_eqb (signature_of b) (signature_of a) = true).
      { rewrite forallb_forall in Hsig. rewrite signature_eqb_sym.
        apply same_signature_eqb; [| |assumption]; apply Hsig;
          apply in_or_app; right; [now left|].
        right. apply in_or_app. right. now left. }
      assert (Hsig2 : forallb has_signature (l1 ++ a :: l2 ++ l3) = true).
      { rewrite forallb_forall in *. intros x Hx. apply Hsig.
        apply in_app_or in Hx as [Hx|[Hx|Hx]].
        - apply in_or_app. now left.
        - apply in_or_app. right. now left.
        - apply in_or_app. right. right.
          apply in_app_or in Hx as [Hx|Hx]; apply in_or_app;
            [now left | right; now right]. }
      rewrite optimize_loop_first_occurrences by assumption.
      simpl. f_equal. symmetry. now apply first_occurrences_drop_later.
    + intros Hpairs. apply first_occurrences_all.
      * apply Forall_forall. reflexivity.
      * now apply pairs_distinct_signatures.
  - intros a b Ha Hdup.
    destruct (has_signature_of a Ha) as [Hsa Hhash].
    exists (signature_of a), (signature_of a). repeat split.
    + assumption.
    + rewrite <- Hsa. unfold call_signature. destruct Hdup as [Hn Hp].
      now rewrite Hn, Hp.
    + now apply signature_eqb_refl.
  - split; [reflexivity|]. vm_compute. reflexivity.
  - intros World clock query processed_query available_functions plan0 w out v.
    unfold QueryProcessor.finish_plan.
    destruct (validate_function_calls _ _) as [[is_valid errors]|e];
      cbn [bind fst snd]; [|discriminate].
    set (repaired := if is_valid then Ok plan0
                     else QueryProcessor._fix_common_issues plan0 errors).
    assert (Hrep : forall plan1, repaired = Ok plan1 ->
                   plan1 = plan0
                   \/ exists errors',
                       QueryProcessor._fix_common_issues plan0 errors' = Ok plan1).
    { subst repaired. intros plan1. destruct is_valid.
      - intros [= ->]. now left.
      - intros H. right. eauto. }
    destruct repaired as [plan1|e]; cbn [bind]; [|discriminate].
    destruct (assoc_get "function_calls" plan1) as [submitted|] eqn:Hsub.
    + destruct (optimize_function_sequence submitted) as [optimized|e] eqn:Hopt;
        cbn [bind]; [|discriminate].
      intros [= <-] Hv.
      rewrite !assoc_get_set_other, assoc_get_set_same in Hv by discriminate.
      injection Hv as <-.
      exists plan1, submitted, optimized. auto.
    + cbn [bind]. intros [= <-] Hv.
      rewrite !assoc_get_set_other in Hv by discriminate. congruence.
Qed.

Lemma duplicates_removed_order_kept_witness :
  exists optimized,
    optimize_function_sequence (VList SampleDuplicates.calls) = Ok optimized
    /\ subsequence optimized SampleDuplicates.calls
    /\ List.length optimized < List.length SampleDuplicates.calls.
Proof.
  destruct (proj1 duplicates_removed_order_kept SampleDuplicates.calls eq_refl)
    as (optimized & Hopt & Hsub & _).
  exists optimized. repeat split; [assumption|assumption|].
  vm_compute in Hopt. injection Hopt as <-. simpl. lia.
Defined.

(** ** Repair and validity *)

(** C7, as the code has it: [process_query] validates the planner's plan
    once.  The [valid] flag and the [errors] it attaches to the plan are
    those of that validation, whatever the repairer did afterwards; the
    orchestrator executes the plan whatever the flag says; and a call that
    names an operation the registry does not hold is, when its turn
    comes, recorded as a failed result without anything being invoked. *)
Theorem validity_is_that_of_first_validation :
  forall (World : Type) (clock : World -> string)
         (plan_function_calls :
            string -> list FunctionSchema -> World -> result dict * World)
         (get_model_info : World -> value),
    (forall query processed_query available_functions (plan0 : dict) w out,
        QueryProcessor.finish_plan clock query processed_query
          available_functions plan0 w = Ok out ->
        exists is_valid errors,
          validate_function_calls (dict_get plan0 "function_calls" (VList []))
            available_functions = Ok (is_valid, errors)
          /\ assoc_get "valid" out = Some (VBool is_valid)
          /\ assoc_get "errors" out
             = Some (VList (if is_valid then [] else map VStr errors)))
    /\ (forall (self : PipelineManager.PipelineManager World) query w,
           PipelineManager.initialized self = true ->
           let planned :=
             QueryProcessor.process_query clock plan_function_calls
               (function_registry (PipelineManager.execution_engine self))
               query w in
           let ran :=
             execute_plan clock (PipelineManager.execution_engine self)
               (fst planned) (snd planned) in
           fst (fst (PipelineManager.process_query clock plan_function_calls
                       get_model_info self query true false w))
           = PipelineManager.Processed query (fst planned)
               (Some (fst (fst ran)))
               (get_model_info (snd ran)) (clock (snd ran)))
    /\ (forall (self : ExecutionEngine World) d n i w,
           assoc_get "function_name" d = Some (VStr n) ->
           get_function (function_registry self) n = None ->
           _execute_single_function self (VDict d) i w
           = (Ok (failure ("Function '" ++ n ++ "' not found") (VStr n) i), w)).
Proof.
  intros World clock plan_function_calls get_model_info. split; [|split].
  - intros query processed_query available_functions plan0 w out.
    unfold QueryProcessor.finish_plan.
    destruct (validate_function_calls _ _) as [[is_valid errors]|e];
      cbn [bind fst snd]; [|discriminate].
    destruct (if is_valid then Ok plan0
              else QueryProcessor._fix_common_issues plan0 errors)
      as [plan1|e]; cbn [bind]; [|discriminate].
    destruct (match assoc_get "function_calls" plan1 with
              | Some function_calls =>
                  optimized <- optimize_function_sequence function_calls ;;
                  Ok (assoc_set "function_calls" (VList optimized) plan1)
              | None => Ok plan1
              end) as [plan2|e]; cbn [bind]; [|discriminate].
    intros [= <-]. exists is_valid, errors. repeat split.
    + rewrite assoc_get_set_other by discriminate. apply assoc_get_set_same.
    + apply assoc_get_set_same.
  - intros self query w Hinit. cbv zeta.
    unfold PipelineManager.process_query. rewrite Hinit. cbn [negb].
    destruct (QueryProcessor.process_query _ _ _ _ _) as [plan1 w1].
    cbn [fst snd].
    now destruct (execute_plan clock _ plan1 w1) as [[r engine'] w2].
  - intros self d n i w Hname Hnone.
    unfold _execute_single_function, execute_single_body, lookup_function.
    cbn [get bind].
    assert (Hget : dict_get d "function_name" VNone = VStr n)
      by (unfold dict_get; now rewrite Hname).
    rewrite Hget. cbn [bind hashable]. rewrite Hnone. reflexivity.
Qed.

Lemma validity_is_that_of_first_validation_witness :
  _execute_single_function Sample.engine (Sample.call "frobnicate" []) 0 0
  = (Ok (failure "Function 'frobnicate' not found" (VStr "frobnicate") 0), 0).
Proof.
  refine (proj2 (proj2 (validity_is_that_of_first_validation Sample.World
                          Sample.clock SamplePipeline.plan_function_calls
                          SamplePipeline.get_model_info))
            Sample.engine
            [("function_name", VStr "frobnicate"); ("parameters", VDict []);
             ("description", VStr "call frobnicate")]
            "frobnicate" 0 0 eq_refl eq_refl).
Defined.

(** C7 as stated fails twice over.  The repaired [read_csv] plan would pass
    a second validation, yet it is flagged invalid: the flag is not that of
    a re-validation.  And the plan that names an unknown operation, flagged
    invalid, is executed all the same: its call is run and recorded. *)
Lemma repaired_plan_is_not_validated_again :
  (dict_get (SamplePipeline.processed "load the data") "valid" VNone
   = VBool false
   /\ validate_function_calls
        (dict_get (SamplePipeline.processed "load the data")
           "function_calls" VNone)
        (get_function_schemas Sample.registry)
      = Ok (true, []))
  /\ (dict_get (SamplePipeline.processed "frobnicate it") "valid" VNone
      = VBool false
      /\ option_map results
           (SamplePipeline.executed (SamplePipeline.run "frobnicate it"))
         = Some [failure "Function 'frobnicate' not found"
                   (VStr "frobnicate") 0]).
Proof. vm_compute. repeat split. Qed.

(* ================================================================== *)
(** * Further properties of the engine *)
(* ================================================================== *)

(** ** Single calls *)

Lemma assoc_set_same_value {A} (l : list (string * A)) k v :
  assoc_get k l = Some v -> assoc_set k v l = l.
Proof.
  induction l as [|[k0 v0] l IH]; cbn [assoc_get assoc_set]; [discriminate|].
  destruct (String.eqb_spec k k0) as [->|_].
  - now intros [= ->].
  - intros H. now rewrite IH.
Qed.

Lemma assoc_set_fresh {A} (l : list (string * A)) k v :
  assoc_get k l = None -> assoc_set k v l = (l ++ [(k, v)])%list.
Proof.
  induction l as [|[k0 v0] l IH]; cbn [assoc_get assoc_set app]; [reflexivity|].
  destruct (String.eqb k k0); [discriminate|].
  intros H. now rewrite IH.
Qed.

Lemma add_metadata_fields r function_name i description0 processed d :
  add_metadata r function_name i description0 processed = Ok d ->
  dict_get d "call_index" VNone = VInt (Z.of_nat i)
  /\ dict_get d "function_name" VNone = function_name
  /\ dict_get d "description" VNone = description0
  /\ dict_get d "parameters_used" VNone = VDict processed.
Proof.
  destruct r as [| | | | |d0]; try discriminate.
  cbn [add_metadata dict_update fold_left fst snd]. intros [= <-].
  unfold dict_get.
  repeat split;
    repeat (rewrite assoc_get_set_other by discriminate);
    now rewrite assoc_get_set_same.
Qed.

(** The name recorded when the call holds one: the handler's default
    ["unknown"] and the body's default [None] do not matter then. *)
Lemma dict_get_present (d : dict) k v default :
  assoc_get k d = Some v -> dict_get d k default = v.
Proof. unfold dict_get. now intros ->. Qed.

Lemma single_function_on_mapping {World} (self : ExecutionEngine World) d i w :
  exists r w',
    _execute_single_function self (VDict d) i w = (Ok r, w')
    /\ dict_get r "call_index" VNone = VInt (Z.of_nat i)
    /\ (forall v, assoc_get "function_name" d = Some v ->
                  dict_get r "function_name" VNone = v).
Proof.
  assert (Hfail : forall msg (w' : World),
             exists r w'',
               (Ok (failure msg (dict_get d "function_name" (VStr "unknown")) i),
                w') = (Ok r, w'')
               /\ dict_get r "call_index" VNone = VInt (Z.of_nat i)
               /\ (forall v, assoc_get "function_name" d = Some v ->
                             dict_get r "function_name" VNone = v)).
  { intros msg w'. eexists _, _. split; [reflexivity|]. split; [reflexivity|].
    intros v Hv. cbn. now apply dict_get_present. }
  unfold _execute_single_function, execute_single_body.
  cbn [get bind].
  destruct (lookup_function (function_registry self)
              (dict_get d "function_name" VNone)) as [[f|]|e];
    cbn [bind]; [| |apply Hfail].
  - destruct (_process_parameters (execution_context self)
                (dict_get d "parameters" (VDict []))) as [processed|e];
      [|apply Hfail].
    destruct (execute f processed w) as [[r|e] w']; cbn [bind]; [|apply Hfail].
    destruct (add_metadata r _ i _ processed) as [d'|e] eqn:Hmeta;
      [|apply Hfail].
    apply add_metadata_fields in Hmeta as (Hi & Hn & _).
    eexists _, _. split; [reflexivity|]. split; [assumption|].
    intros v Hv. rewrite Hn. now apply dict_get_present.
  - eexists _, _. split; [reflexivity|]. split; [reflexivity|].
    intros v Hv. cbn. now apply dict_get_present.
Qed.

(** ** The loop, one iteration at a time *)

Lemma execute_calls_cons {World} (self : ExecutionEngine World)
  call rest i rs w rs' self' w' :
  execute_calls self (call :: rest) i rs w = (Ok rs', self', w') ->
  exists d r w1,
    call = VDict d
    /\ _execute_single_function self call i w = (Ok r, w1)
    /\ ((succeeded r = false /\ _is_critical_function call = Ok true
         /\ rs' = (rs ++ [r])%list /\ self' = record_result self i r
         /\ w' = w1)
        \/ ((succeeded r = true \/ _is_critical_function call = Ok false)
            /\ execute_calls (record_result self i r) rest (S i)
                 (rs ++ [r])%list w1 = (Ok rs', self', w'))).
Proof.
  cbn [execute_calls]. intros H.
  destruct call as [| | | | |d]; try discriminate.
  cbn [get] in H.
  destruct (_execute_single_function self (VDict d) i w) as [[r|e] w1];
    [|discriminate].
  exists d, r, w1. split; [reflexivity|]. split; [reflexivity|].
  destruct (succeeded r); [right; auto|].
  destruct (_is_critical_function (VDict d)) as [[|]|e]; [| |discriminate].
  - left. injection H as <- <- <-. auto.
  - right. auto.
Qed.






Lemma execute_calls_full_length {World} (calls : list value) :
  forall (self : ExecutionEngine World) i rs w rs' self' w',
    execute_calls self calls i rs w = (Ok rs', self', w') ->
    (forall j call res,
        nth_error calls j = Some call ->
        nth_error rs' (List.length rs + j) = Some res ->
        succeeded res = true \/ _is_critical_function call <> Ok true) ->
    List.length rs' = List.length rs + List.length calls.
Proof.
  induction calls as [|call rest IH];
    intros self i rs w rs' self' w' Hrun Hok.
  - cbn in Hrun. injection Hrun as <- _ _. cbn. lia.
  - apply execute_calls_cons in Hrun
      as (d & r & w1 & -> & Hsingle & [(Hs & Hc & -> & _)|(_ & Hrest)]).
    + specialize (Hok 0 (VDict d) r eq_refl).
      rewrite Nat.add_0_r, nth_error_app2, Nat.sub_diag in Hok by lia.
      destruct (Hok eq_refl) as [H|H]; [congruence|now elim H].
    + rewrite (IH _ _ _ _ _ _ _ Hrest).
      * rewrite length_app. cbn. lia.
      * intros j call res Hcall Hres. apply (Hok (S j) call res Hcall).
        rewrite length_app in Hres. cbn [List.length] in Hres.
        now replace (List.length rs + S j) with (List.length rs + 1 + j)
          by lia.
Qed.

(** X2: the engine records at most one result per call of the plan, and,
    when the run goes through and no recorded failure belongs to a call
    that names a critical operation, exactly one per call. *)
Theorem results_follow_the_plan :
  forall (World : Type) (clock : World -> string)
         (self : ExecutionEngine World) (plan0 : dict) (calls : list value)
         (w : World),
    dict_get plan0 "function_calls" (VList []) = VList calls ->
    List.length (results (fst (fst (execute_plan clock self plan0 w))))
    <= List.length calls
    /\ (completed (fst (fst (execute_plan clock self plan0 w))) ->
        (forall j call res,
            nth_error calls j = Some call ->
            nth_error (results (fst (fst (execute_plan clock self plan0 w)))) j
            = Some res ->
            succeeded res = true \/ ~ names_critical_operation call) ->
        List.length (results (fst (fst (execute_plan clock self plan0 w))))
        = List.length calls).
Proof.
  intros World clock self plan0 calls w Hcalls.
  unfold execute_plan, completed, engine_failure. rewrite Hcalls.
  destruct (negb (truthy (VList calls))); [cbn; split; [lia|discriminate]|].
  cbn [iter].
  destruct (execute_calls (reset_context self) calls 0 [] w)
    as [[[rs|e] self1] w'] eqn:Hrun; cbn; [|split; [lia|discriminate]].
  split.
  - apply execute_calls_extends in Hrun as (new & -> & Hlen & _).
    cbn. assumption.
  - intros _ Hok.
    apply (execute_calls_full_length calls _ _ _ _ _ _ _ Hrun).
    intros j call res Hcall Hres. cbn in Hres.
    destruct (Hok j call res Hcall Hres) as [H|H]; [now left|right].
    intros Hc. apply H.
    destruct call as [| | | | |d]; try discriminate.
    destruct (is_critical_dict d) as (b & Hb & Hiff).
    rewrite Hb in Hc. injection Hc as ->. now apply Hiff.
Qed.

Lemma results_follow_the_plan_witness :
  List.length (results SamplePolicy.outcome) <= 5
  /\ List.length
       (results (fst (fst (execute_plan Sample.clock Sample.engine
                             (Sample.plan_of (firstn 3 SamplePolicy.calls)) 0))))
     = 3.
Proof.
  split.
  - exact (proj1 (results_follow_the_plan Sample.World Sample.clock
                    Sample.engine SamplePolicy.plan SamplePolicy.calls 0
                    eq_refl)).
  - refine (proj2 (results_follow_the_plan Sample.World Sample.clock
                     Sample.engine
                     (Sample.plan_of (firstn 3 SamplePolicy.calls))
                     (firstn 3 SamplePolicy.calls) 0 eq_refl) eq_refl _).
    intros j call res Hcall Hres. right.
    intros (n & (d & -> & Hn) & Hin).
    do 3 (destruct j as [|j];
          [injection Hcall as <-; injection Hn as <-;
           cbn in Hin; intuition discriminate|]).
    destruct j; discriminate.
Defined.

(** ** Engine-level failures and the history *)

Lemma execute_calls_on_mappings {World} (calls : list value) :
  forallb is_mapping calls = true ->
  forall (self : ExecutionEngine World) i rs w,
  exists rs' self' w',
    execute_calls self calls i rs w = (Ok rs', self', w').
Proof.
  induction calls as [|call rest IH]; cbn [forallb]; intros Hmap self i rs w.
  - cbn. eauto.
  - apply andb_prop in Hmap as [Hcall Hrest].
    destruct call as [| | | | |d]; try discriminate.
    cbn [execute_calls get].
    destruct (single_function_on_mapping self d i w) as (r & w1 & -> & _).
    destruct (is_critical_dict d) as (b & -> & _).
    destruct (succeeded r); [apply IH; assumption|].
    destruct b; [eauto|apply IH; assumption].
Qed.

Lemma forallb_false_existsb {A} (f : A -> bool) (l : list A) :
  forallb f l = false -> existsb (fun x => negb (f x)) l = true.
Proof.
  induction l as [|x l IH]; cbn; [discriminate|].
  destruct (f x); cbn; auto.
Qed.

Lemma execute_calls_keeps_registry_and_history {World} (calls : list value) :
  forall (self : ExecutionEngine World) i rs w out self' w',
    execute_calls self calls i rs w = (out, self', w') ->
    function_registry self' = function_registry self
    /\ results_history self' = results_history self.
Proof.
  induction calls as [|call rest IH]; cbn [execute_calls];
    intros self i rs w out self' w' Hrun.
  - injection Hrun as _ <- _. auto.
  - destruct (get call "function_name" (VStr "unknown"));
      [|injection Hrun as _ <- _; auto].
    destruct (_execute_single_function self call i w) as [[r|e] w1];
      [|injection Hrun as _ <- _; auto].
    assert (Hnext : forall out0,
               execute_calls (record_result self i r) rest (S i)
                 (rs ++ [r])%list w1 = (out0, self', w') ->
               function_registry self' = function_registry self
               /\ results_history self' = results_history self).
    { intros out0 H. now apply IH in H. }
    destruct (succeeded r); [eauto|].
    destruct (_is_critical_function call) as [[|]|e]; eauto;
      injection Hrun as _ <- _; auto.
Qed.

(** X3: on a plan whose calls are all mappings the run always goes
    through, whatever the operations do; a run that does not go through
    hands back no results at all, and then some call of the plan is not a
    mapping. *)
Theorem mapping_calls_complete_the_run :
  forall (World : Type) (clock : World -> string)
         (self : ExecutionEngine World) (plan0 : dict) (calls : list value)
         (w : World),
    dict_get plan0 "function_calls" (VList []) = VList calls ->
    calls <> [] ->
    (forallb is_mapping calls = true ->
     completed (fst (fst (execute_plan clock self plan0 w))))
    /\ (~ completed (fst (fst (execute_plan clock self plan0 w))) ->
        results (fst (fst (execute_plan clock self plan0 w))) = []
        /\ existsb (fun call => negb (is_mapping call)) calls = true).
Proof.
  intros World clock self plan0 calls w Hcalls Hne.
  unfold execute_plan, completed, engine_failure. rewrite Hcalls.
  assert (truthy (VList calls) = true) as -> by (now destruct calls).
  cbn [negb iter].
  destruct (execute_calls (reset_context self) calls 0 [] w)
    as [[[rs|e] self1] w'] eqn:Hrun; cbn.
  - split; [reflexivity|]. intros H. now elim H.
  - destruct (forallb is_mapping calls) eqn:Hmap.
    + destruct (execute_calls_on_mappings calls Hmap (reset_context self)
                  0 [] w) as (rs' & self' & w'' & H).
      rewrite H in Hrun. discriminate.
    + split; [discriminate|]. intros _. split; [reflexivity|].
      now apply forallb_false_existsb.
Qed.

Lemma mapping_calls_complete_the_run_witness :
  completed SamplePolicy.outcome.
Proof.
  refine (proj1 (mapping_calls_complete_the_run Sample.World Sample.clock
                   Sample.engine SamplePolicy.plan SamplePolicy.calls 0
                   eq_refl _) eq_refl).
  discriminate.
Defined.

(** X4: a run never changes the registry; it adds its result to the end
    of the history when it goes through the loop, and leaves the history
    alone when the plan has no calls or the run fails at engine level. *)
Theorem history_records_completed_runs :
  forall (World : Type) (clock : World -> string)
         (self : ExecutionEngine World) (plan0 : dict) (w : World),
    function_registry (snd (fst (execute_plan clock self plan0 w)))
    = function_registry self
    /\ ((completed (fst (fst (execute_plan clock self plan0 w)))
         /\ results_history (snd (fst (execute_plan clock self plan0 w)))
            = (results_history self
                 ++ [fst (fst (execute_plan clock self plan0 w))])%list)
        \/ (~ completed (fst (fst (execute_plan clock self plan0 w)))
            /\ results_history (snd (fst (execute_plan clock self plan0 w)))
               = results_history self)).
Proof.
  intros World clock self plan0 w.
  unfold execute_plan, completed, engine_failure.
  destruct (negb (truthy (dict_get plan0 "function_calls" (VList []))));
    [cbn; split; [reflexivity|right; split; [discriminate|reflexivity]]|].
  destruct (iter _) as [calls|e];
    [|cbn; split; [reflexivity|right; split; [discriminate|reflexivity]]].
  destruct (execute_calls (reset_context self) calls 0 [] w)
    as [[[rs|e] self1] w'] eqn:Hrun;
    apply execute_calls_keeps_registry_and_history in Hrun as [Hreg Hhist];
    cbn in *; (split; [assumption|]).
  - left. split; [reflexivity|]. now rewrite Hhist.
  - right. split; [discriminate|assumption].
Qed.

(** ** The execution context after a run *)

Lemma to_uint_not_nil n : Nat.to_uint n <> Decimal.Nil.
Proof.
  rewrite <- (DecimalNat.Unsigned.of_to n) at 1.
  rewrite DecimalNat.Unsigned.to_of. apply DecimalFacts.unorm_nonnil.
Qed.

Lemma str_of_nat_inj i j : str_of_nat i = str_of_nat j -> i = j.
Proof.
  unfold str_of_nat. intros H.
  apply (f_equal NilZero.uint_of_string) in H.
  rewrite !NilZero.usu in H by apply to_uint_not_nil.
  injection H as H. now apply DecimalNat.Unsigned.to_uint_inj.
Qed.

Lemma result_key_inj i j : result_key i = result_key j -> i = j.
Proof.
  unfold result_key. cbn [append]. intros H.
  injection H as H. now apply str_of_nat_inj.
Qed.

Lemma assoc_get_app_none {A} (l l' : list (string * A)) k :
  assoc_get k l = None -> assoc_get k (l ++ l') = assoc_get k l'.
Proof.
  induction l as [|[k0 v0] l IH]; cbn [assoc_get app]; [reflexivity|].
  destruct (String.eqb k k0); [discriminate|assumption].
Qed.

Lemma context_from_cons first r rs :
  context_from first (r :: rs)
  = (result_key first, VDict r) :: context_from (S first) rs.
Proof. reflexivity. Qed.

Lemma context_from_app first rs new :
  context_from first (rs ++ new)
  = (context_from first rs
       ++ context_from (first + List.length rs) new)%list.
Proof.
  revert first. induction rs as [|r rs IH]; intros first.
  - cbn [app List.length]. now rewrite Nat.add_0_r.
  - cbn [app List.length]. rewrite !context_from_cons, IH. cbn [app].
    do 3 f_equal. lia.
Qed.

Lemma context_from_fresh rs :
  forall first j, j < first \/ first + List.length rs <= j ->
                  assoc_get (result_key j) (context_from first rs) = None.
Proof.
  induction rs as [|r rs IH]; intros first j Hj; [reflexivity|].
  rewrite context_from_cons. cbn [assoc_get].
  destruct (String.eqb_spec (result_key j) (result_key first)) as [E|_].
  - apply result_key_inj in E. cbn [List.length] in Hj. lia.
  - apply IH. cbn [List.length] in Hj. lia.
Qed.

Lemma context_from_lookup rs :
  forall first j res,
    nth_error rs j = Some res ->
    assoc_get (result_key (first + j)) (context_from first rs)
    = Some (VDict res).
Proof.
  induction rs as [|r rs IH]; intros first j res Hj;
    [destruct j; discriminate|].
  rewrite context_from_cons. cbn [assoc_get].
  destruct j as [|j].
  - rewrite Nat.add_0_r, String.eqb_refl. now injection Hj as ->.
  - destruct (String.eqb_spec (result_key (first + S j)) (result_key first))
      as [E|_].
    + apply result_key_inj in E. lia.
    + replace (first + S j) with (S first + j) by lia. now apply IH.
Qed.

(** The loop files each result under its own key, after what was there. *)
Lemma execute_calls_context {World} (calls : list value) :
  forall (self : ExecutionEngine World) rs w rs' self' w',
    execute_calls self calls (List.length rs) rs w = (Ok rs', self', w') ->
    execution_context self = context_of rs ->
    execution_context self' = context_of rs'.
Proof.
  induction calls as [|call rest IH];
    intros self rs w rs' self' w' Hrun Hctx.
  - cbn in Hrun. now injection Hrun as <- <- _.
  - apply execute_calls_cons in Hrun
      as (d & r & w1 & -> & Hsingle & Hcases).
    assert (Hrec : execution_context (record_result self (List.length rs) r)
                   = context_of (rs ++ [r])).
    { cbn [record_result execution_context]. rewrite Hctx.
      unfold context_of. rewrite context_from_app.
      apply assoc_set_fresh. apply context_from_fresh. cbn [fst]. lia. }
    destruct Hcases as [(_ & _ & -> & -> & _)|(_ & Hrest)]; [assumption|].
    apply (IH (record_result self (List.length rs) r) (rs ++ [r])%list
              w1 rs' self' w'); [|assumption].
    rewrite length_app. cbn [List.length].
    now replace (List.length rs + 1) with (S (List.length rs)) by lia.
Qed.

Lemma starts_with_result i : startswith (result_key i) "result_" = true.
Proof.
  unfold startswith, result_key. cbn.
  now destruct (str_of_nat i).
Qed.

Lemma direct_reference (execution_context : dict) reference res :
  startswith reference "result_" = true ->
  assoc_get reference execution_context = Some (VDict res) ->
  _resolve_reference execution_context reference = payload_of res.
Proof.
  intros Hstart Hget. unfold _resolve_reference, resolve_reference_body.
  destruct (String.eqb_spec reference "output_from_previous") as [->|_];
    [discriminate|].
  now rewrite Hstart, Hget.
Qed.

(** X5: after a run that went through, the execution context holds
    exactly the recorded results, result [j] under the key [result_j], in
    the order of the calls; looking up [result_j] gives result [j] back,
    and resolving the reference [result_j] gives its [data] field, or the
    whole result when it has none. *)
Theorem context_holds_the_results :
  forall (World : Type) (clock : World -> string)
         (self : ExecutionEngine World) (plan0 : dict) (w : World),
    completed (fst (fst (execute_plan clock self plan0 w))) ->
    execution_context (snd (fst (execute_plan clock self plan0 w)))
    = context_of (results (fst (fst (execute_plan clock self plan0 w))))
    /\ forall j res,
        nth_error (results (fst (fst (execute_plan clock self plan0 w)))) j
        = Some res ->
        assoc_get (result_key j)
          (execution_context (snd (fst (execute_plan clock self plan0 w))))
        = Some (VDict res)
        /\ _resolve_reference
             (execution_context (snd (fst (execute_plan clock self plan0 w))))
             (result_key j)
           = payload_of res.
Proof.
  intros World clock self plan0 w.
  unfold execute_plan, completed, engine_failure.
  destruct (negb (truthy (dict_get plan0 "function_calls" (VList []))));
    [discriminate|].
  destruct (iter _) as [calls|e]; [|discriminate].
  destruct (execute_calls (reset_context self) calls 0 [] w)
    as [[[rs|e] self1] w'] eqn:Hrun; cbn; [|discriminate].
  intros _.
  assert (Hctx : execution_context self1 = context_of rs)
    by (apply (execute_calls_context calls _ [] _ _ _ _ Hrun); reflexivity).
  split; [assumption|].
  intros j res Hres.
  assert (Hget : assoc_get (result_key j) (execution_context self1)
                 = Some (VDict res))
    by (rewrite Hctx; apply (context_from_lookup rs 0 j res Hres)).
  split; [assumption|].
  apply direct_reference; [apply starts_with_result | assumption].
Qed.

Lemma context_holds_the_results_witness :
  execution_context
    (snd (fst (execute_plan Sample.clock Sample.engine SamplePolicy.plan 0)))
  = context_of (results SamplePolicy.outcome).
Proof.
  exact (proj1 (context_holds_the_results Sample.World Sample.clock
                  Sample.engine SamplePolicy.plan 0 eq_refl)).
Defined.

(** ** Failures of single calls *)

(** X6: a call that is a mapping always yields a result, never an
    exception.  When the registered operation raises, when it returns
    something that is not a mapping, or when the call's parameters are not
    a mapping (the operation is then not invoked), the result is the
    failure record with the text of the error, and it counts as
    unsuccessful. *)
Theorem operation_errors_become_results :
  forall (World : Type) (self : ExecutionEngine World) (d : dict)
         (n : string) (f : BaseFunction World) (i : nat) (w : World),
    assoc_get "function_name" d = Some (VStr n) ->
    get_function (function_registry self) n = Some f ->
    (exists r w', _execute_single_function self (VDict d) i w = (Ok r, w'))
    /\ (forall processed e w',
           _process_parameters (execution_context self)
             (dict_get d "parameters" (VDict [])) = Ok processed ->
           execute f processed w = (Raise e, w') ->
           _execute_single_function self (VDict d) i w
           = (Ok (failure (exn_str e) (VStr n) i), w'))
    /\ (forall processed v w',
           _process_parameters (execution_context self)
             (dict_get d "parameters" (VDict [])) = Ok processed ->
           execute f processed w = (Ok v, w') ->
           is_mapping v = false ->
           _execute_single_function self (VDict d) i w
           = (Ok (failure (exn_str (no_attribute v "update")) (VStr n) i), w'))
    /\ (is_mapping (dict_get d "parameters" (VDict [])) = false ->
        _execute_single_function self (VDict d) i w
        = (Ok (failure
                 (exn_str (no_attribute (dict_get d "parameters" (VDict []))
                             "items"))
                 (VStr n) i), w))
    /\ (forall msg, succeeded (failure msg (VStr n) i) = false).
Proof.
  intros World self d n f i w Hname Hf.
  assert (Hn : forall default, dict_get d "function_name" default = VStr n)
    by (intros; now apply dict_get_present).
  split; [|split; [|split; [|split]]].
  - destruct (single_function_on_mapping self d i w) as (r & w' & H & _).
    eauto.
  - intros processed e w' Hp He.
    unfold _execute_single_function, execute_single_body, lookup_function.
    cbn [get bind]. rewrite !Hn. cbn [hashable bind]. rewrite Hf, Hp, He.
    reflexivity.
  - intros processed v w' Hp Hv Hmap.
    unfold _execute_single_function, execute_single_body, lookup_function.
    cbn [get bind]. rewrite !Hn. cbn [hashable bind]. rewrite Hf, Hp, Hv.
    cbn [bind]. now destruct v.
  - intros Hmap.
    unfold _execute_single_function, execute_single_body, lookup_function.
    cbn [get bind]. rewrite !Hn. cbn [hashable bind]. rewrite Hf.
    now destruct (dict_get d "parameters" (VDict [])).
  - reflexivity.
Qed.

Lemma operation_errors_become_results_witness :
  exists r w',
    _execute_single_function Sample.engine
      (Sample.call "echo" [("value", VInt 1)]) 0 0 = (Ok r, w').
Proof.
  exact (proj1 (operation_errors_become_results Sample.World Sample.engine
                  [("function_name", VStr "echo");
                   ("parameters", VDict [("value", VInt 1)]);
                   ("description", VStr "call echo")]
                  "echo" Sample.echo 0 0 eq_refl eq_refl)).
Defined.

(** ** Parameters and references *)

Lemma process_item_key execution_context kv :
  fst (process_item execution_context kv) = fst kv.
Proof. unfold process_item. now destruct (is_reference (snd kv)). Qed.

(** X7: resolving the parameters of a call keeps every key, in order;
    a value that is not a string wrapped in double braces is handed on
    unchanged, and a mapping without any such string is handed on as it
    is. *)
Theorem literals_pass_through :
  forall (execution_context : dict) (d : dict),
    exists d',
      _process_parameters execution_context (VDict d) = Ok d'
      /\ assoc_keys d' = assoc_keys d
      /\ (forall k v, In (k, v) d -> is_reference v = None -> In (k, v) d')
      /\ (forallb (fun kv => match is_reference (snd kv) with
                             | None => true
                             | Some _ => false
                             end) d = true ->
          d' = d).
Proof.
  intros execution_context d. eexists. split; [reflexivity|].
  split; [|split].
  - unfold assoc_keys. rewrite map_map.
    apply map_ext. apply process_item_key.
  - intros k v Hin Hlit. apply in_map_iff. exists (k, v).
    split; [|assumption]. unfold process_item. cbn [snd]. now rewrite Hlit.
  - intros Hall. rewrite <- (map_id d) at 2. apply map_ext_in.
    intros kv Hin. rewrite forallb_forall in Hall. specialize (Hall kv Hin).
    unfold process_item. now destruct (is_reference (snd kv)).
Qed.

Lemma literals_pass_through_witness :
  _process_parameters SampleReferences.tested_context
    (VDict [("file_path", VStr "a.csv"); ("limit", VInt 10)])
  = Ok [("file_path", VStr "a.csv"); ("limit", VInt 10)].
Proof.
  destruct (literals_pass_through SampleReferences.tested_context
              [("file_path", VStr "a.csv"); ("limit", VInt 10)])
    as (d' & Hd' & _ & _ & Hsame).
  rewrite Hd'. f_equal. apply Hsame. reflexivity.
Defined.

Lemma split_on_not_nil sep s : split_on sep s <> [].
Proof.
  destruct s as [|c r]; cbn; [discriminate|].
  destruct (Ascii.eqb c sep); [discriminate|].
  destruct (split_on sep r); discriminate.
Qed.

(** X8: against an empty context nothing resolves: every reference, of
    whatever form, gives [None], so each reference among the parameters of
    a plan's first call is replaced by [None]. *)
Theorem empty_context_resolves_nothing :
  (forall reference, _resolve_reference [] reference = VNone)
  /\ (forall d,
         _process_parameters [] (VDict d)
         = Ok (map (fun kv => match is_reference (snd kv) with
                              | None => kv
                              | Some _ => (fst kv, VNone)
                              end) d)).
Proof.
  assert (H : forall reference, _resolve_reference [] reference = VNone).
  { intros reference. unfold _resolve_reference, resolve_reference_body.
    destruct (String.eqb reference "output_from_previous"); [reflexivity|].
    destruct (startswith reference "result_"); [reflexivity|].
    destruct (str_contains "." reference); [|reflexivity].
    pose proof (split_on_not_nil "."%char reference) as Hne.
    now destruct (split_on "." reference). }
  split; [assumption|].
  intros d. cbn [_process_parameters]. f_equal. apply map_ext.
  intros kv. unfold process_item.
  destruct (is_reference (snd kv)); [now rewrite H|reflexivity].
Qed.

Lemma prefix_of_result reference :
  String.prefix reference "result" = true ->
  In reference [EmptyString; "r"; "re"; "res"; "resu"; "resul"; "result"].
Proof.
  intros H.
  repeat (destruct reference as [|c reference]; [cbn; tauto|];
          cbn [String.prefix] in H;
          match type of H with
          | (if ascii_dec ?a ?b then _ else _) = true =>
              destruct (ascii_dec a b) as [->|_]; [|discriminate]
          | _ => idtac
          end).
  discriminate.
Qed.

(** X9: a reference that is only a beginning of the word [result] (among
    them the empty one, written [{{}}]) is matched by the closing scan
    against the first key of the context: it resolves to the payload of the
    oldest recorded result. *)
Theorem short_reference_takes_first_result :
  forall (reference : string) (i : nat) (res : dict) (rest : dict),
    String.prefix reference "result" = true ->
    _resolve_reference ((result_key i, VDict res) :: rest) reference
    = payload_of res.
Proof.
  intros reference i res rest H.
  apply prefix_of_result in H. cbn [In] in H.
  unfold _resolve_reference, resolve_reference_body, result_key.
  repeat (destruct H as [<-|H]; [reflexivity|]). contradiction.
Qed.

Lemma short_reference_takes_first_result_witness :
  _resolve_reference
    (context_of [[("success", VBool true); ("data", VInt 7)];
                 [("success", VBool true); ("data", VInt 8)]])
    "result"
  = VInt 7.
Proof.
  exact (short_reference_takes_first_result "result" 0
           [("success", VBool true); ("data", VInt 7)] _ eq_refl).
Defined.

(** ** Simulation and the outputs of a run *)

Lemma simulate_calls_on_mappings calls :
  forallb is_mapping calls = true ->
  forall i acc,
  exists rs,
    simulate_calls calls i acc = Ok (acc ++ rs)%list
    /\ List.length rs = List.length calls
    /\ forall j res,
        nth_error rs j = Some res ->
        dict_get res "call_index" VNone = VInt (Z.of_nat (i + j))
        /\ dict_get res "simulated" VNone = VBool true
        /\ succeeded res = true.
Proof.
  induction calls as [|call rest IH]; cbn [forallb]; intros Hmap i acc.
  - exists []. cbn. rewrite app_nil_r. split; [reflexivity|].
    split; [reflexivity|]. intros j res H. destruct j; discriminate.
  - apply andb_prop in Hmap as [Hcall Hrest].
    destruct call as [| | | | |d]; try discriminate.
    cbn [simulate_calls simulated_result get bind].
    match goal with
    | |- context [simulate_calls rest (S i) ?a] =>
        destruct (IH Hrest (S i) a) as (rs & -> & Hlen & Hrs)
    end.
    eexists (_ :: rs). rewrite <- app_assoc. split; [reflexivity|].
    split; [cbn; now rewrite Hlen|].
    intros [|j'] res Hres.
    + injection Hres as <-. rewrite Nat.add_0_r. repeat split.
    + replace (i + S j') with (S i + j') by lia. now apply Hrs.
Qed.

Lemma simulate_calls_off_mappings calls :
  forallb is_mapping calls = false ->
  forall i acc, exists e, simulate_calls calls i acc = Raise e.
Proof.
  induction calls as [|call rest IH]; cbn [forallb]; [discriminate|].
  intros Hmap i acc.
  destruct call as [| | | | |d];
    cbn [simulate_calls simulated_result get bind]; eauto.
Qed.

(** X10: simulating a plan whose calls are all mappings gives one
    successful, simulated result per call, numbered in the order of the
    calls, under an overall success; as soon as one call is not a mapping
    the simulation raises instead of returning a result. *)
Theorem simulation_mirrors_the_plan :
  forall (World : Type) (clock : World -> string) (plan0 : dict)
         (calls : list value) (w : World),
    dict_get plan0 "function_calls" (VList []) = VList calls ->
    (forallb is_mapping calls = true ->
     exists r,
       simulate_execution clock plan0 w = Ok r
       /\ success r = true
       /\ List.length (results r) = List.length calls
       /\ forall j res,
           nth_error (results r) j = Some res ->
           dict_get res "call_index" VNone = VInt (Z.of_nat j)
           /\ dict_get res "simulated" VNone = VBool true
           /\ succeeded res = true)
    /\ (forallb is_mapping calls = false ->
        exists e, simulate_execution clock plan0 w = Raise e).
Proof.
  intros World clock plan0 calls w Hcalls.
  unfold simulate_execution. rewrite Hcalls. cbn [iter bind]. split.
  - intros Hmap.
    destruct (simulate_calls_on_mappings calls Hmap 0 [])
      as (rs & -> & Hlen & Hrs).
    cbn [bind app]. eexists. split; [reflexivity|]. cbn. auto.
  - intros Hmap.
    destruct (simulate_calls_off_mappings calls Hmap 0 []) as (e & ->).
    cbn [bind]. eauto.
Qed.

Lemma simulation_mirrors_the_plan_witness :
  exists r,
    simulate_execution Sample.clock SamplePolicy.plan 0 = Ok r
    /\ success r = true
    /\ List.length (results r) = 5.
Proof.
  destruct (proj1 (simulation_mirrors_the_plan Sample.World Sample.clock
                     SamplePolicy.plan SamplePolicy.calls 0 eq_refl) eq_refl)
    as (r & Hr & Hs & Hlen & _).
  exists r. auto.
Defined.

(** X11: [get_function_output] answers with the first result recorded
    under the name asked for, whatever follows it: its [data] field, or
    the whole result when it has none; it answers [None] when no result
    carries the name. *)
Theorem first_recorded_output_wins :
  forall (r : ExecutionResult) (function_name : string),
    (forall before res after,
        results r = (before ++ res :: after)%list ->
        Forall (fun x => is_str (dict_get x "function_name" VNone)
                           function_name = false) before ->
        is_str (dict_get res "function_name" VNone) function_name = true ->
        get_function_output r function_name = payload_of res)
    /\ (Forall (fun x => is_str (dict_get x "function_name" VNone)
                           function_name = false) (results r) ->
        get_function_output r function_name = VNone).
Proof.
  intros r function_name. unfold get_function_output. split.
  - intros before res after -> Hbefore Hres.
    induction Hbefore as [|x before Hx _ IH]; cbn [app first_output].
    + now rewrite Hres.
    + now rewrite Hx.
  - intros Hnone.
    induction Hnone as [|x l Hx _ IH]; cbn [first_output]; [reflexivity|].
    now rewrite Hx.
Qed.

Lemma first_recorded_output_wins_witness :
  get_function_output
    (_create_execution_result Sample.empty_plan
       [[("success", VBool true); ("function_name", VStr "read_csv")];
        [("success", VBool true); ("data", VInt 1);
         ("function_name", VStr "echo")];
        [("success", VBool true); ("data", VInt 2);
         ("function_name", VStr "echo")]]
       "Execution completed" true "t3")
    "echo"
  = VInt 1.
Proof.
  match goal with
  | |- get_function_output ?r _ = _ =>
      refine (proj1 (first_recorded_output_wins r "echo")
                [[("success", VBool true); ("function_name", VStr "read_csv")]]
                [("success", VBool true); ("data", VInt 1);
                 ("function_name", VStr "echo")]
                [[("success", VBool true); ("data", VInt 2);
                  ("function_name", VStr "echo")]]
                eq_refl _ eq_refl)
  end.
  repeat constructor.
Defined.

(* ================================================================== *)
(** * Further properties of planning: repair, de-duplication, queries *)
(* ================================================================== *)

(** ** Repair *)

Lemma assoc_mem_set_same {A} (l : list (string * A)) k v :
  assoc_mem k (assoc_set k v l) = true.
Proof. unfold assoc_mem. now rewrite assoc_get_set_same. Qed.

Lemma set_default_mapping (pd : dict) k v :
  QueryProcessor.set_default (VDict pd) k v
  = Ok (VDict (if assoc_mem k pd then pd else assoc_set k v pd)).
Proof.
  unfold QueryProcessor.set_default. cbn [contains bind].
  now destruct (assoc_mem k pd).
Qed.

Lemma default_parameter_mapping (d pd : dict) k v :
  assoc_get "parameters" d = Some (VDict pd) ->
  QueryProcessor.default_parameter (VDict d) k v
  = Ok (VDict (assoc_set "parameters"
                 (VDict (if assoc_mem k pd then pd else assoc_set k v pd)) d)).
Proof.
  intros Hp. unfold QueryProcessor.default_parameter.
  cbn [subscript]. rewrite Hp. cbn [bind].
  rewrite set_default_mapping. reflexivity.
Qed.

Lemma assoc_set_twice {A} (l : list (string * A)) k v v' :
  assoc_set k v' (assoc_set k v l) = assoc_set k v' l.
Proof.
  induction l as [|[k0 v0] l IH]; cbn [assoc_set].
  - now rewrite String.eqb_refl.
  - destruct (String.eqb k k0) eqn:E; cbn [assoc_set].
    + now rewrite String.eqb_refl.
    + now rewrite E, IH.
Qed.

(** The loop body of the repairer on a call whose parameters are a mapping
    or are missing: the table, applied. *)
Lemma fix_call_by_table (d pd : dict) :
  parameters_of d = VDict pd ->
  QueryProcessor.fix_call (VDict d) = Ok (VDict (repaired d pd)).
Proof.
  unfold parameters_of, dict_get. intros Hp.
  unfold QueryProcessor.fix_call, QueryProcessor.set_default.
  cbn [contains bind]. unfold assoc_mem at 1.
  assert (Hname : forall d1 (x : value),
             dict_get (assoc_set "parameters" x d1) "function_name"
               (VStr EmptyString)
             = dict_get d1 "function_name" (VStr EmptyString)).
  { intros d1 x. unfold dict_get.
    now rewrite assoc_get_set_other by discriminate. }
  assert (Hgoal : forall d1,
             assoc_get "parameters" d1 = Some (VDict pd) ->
             dict_get d1 "function_name" (VStr EmptyString)
             = dict_get d "function_name" (VStr EmptyString) ->
             assoc_set "parameters" (VDict pd) d1
             = assoc_set "parameters" (VDict pd) d ->
             (function_name <- get (VDict d1) "function_name"
                                 (VStr EmptyString) ;;
              if is_str function_name "send_email" then
                call2 <- QueryProcessor.default_parameter (VDict d1) "to_email"
                           (VStr "abhayrajputcse@gmail.com") ;;
                call3 <- QueryProcessor.default_parameter call2 "subject"
                           (VStr "Automated Email") ;;
                QueryProcessor.default_parameter call3 "body"
                  (VStr "This is an automated email.")
              else if is_str function_name "read_csv" then
                QueryProcessor.default_parameter (VDict d1) "file_path"
                  (VStr "data/sample.csv")
              else if is_str function_name "read_file" then
                QueryProcessor.default_parameter (VDict d1) "file_path"
                  (VStr "data/sample.txt")
              else Ok (VDict d1))
             = Ok (VDict (repaired d pd))).
  { intros d1 Hp1 Hn1 Hd1. cbn [get bind]. unfold repaired, defaults_for.
    rewrite Hn1.
    destruct (is_str (dict_get d "function_name" (VStr EmptyString))
                "send_email").
    - rewrite (default_parameter_mapping d1 pd) by assumption. cbn [bind].
      rewrite (default_parameter_mapping _ _ "subject" _
                 (assoc_get_set_same _ _ _)). cbn [bind].
      rewrite (default_parameter_mapping _ _ "body" _
                 (assoc_get_set_same _ _ _)).
      rewrite !assoc_set_twice. cbn [apply_defaults fold_left fst snd].
      do 2 f_equal.
      rewrite <- (assoc_set_twice d1 "parameters" (VDict pd)), Hd1.
      now rewrite assoc_set_twice.
    - destruct (is_str (dict_get d "function_name" (VStr EmptyString))
                  "read_csv").
      + rewrite (default_parameter_mapping d1 pd) by assumption.
        cbn [apply_defaults fold_left fst snd]. do 2 f_equal.
        rewrite <- (assoc_set_twice d1 "parameters" (VDict pd)), Hd1.
        now rewrite assoc_set_twice.
      + destruct (is_str (dict_get d "function_name" (VStr EmptyString))
                    "read_file").
        * rewrite (default_parameter_mapping d1 pd) by assumption.
          cbn [apply_defaults fold_left fst snd]. do 2 f_equal.
          rewrite <- (assoc_set_twice d1 "parameters" (VDict pd)), Hd1.
          now rewrite assoc_set_twice.
        * cbn [apply_defaults fold_left]. do 2 f_equal.
          rewrite <- Hd1. symmetry. now apply assoc_set_same_value. }
  destruct (assoc_get "parameters" d) as [p|] eqn:Hget; cbn [negb bind].
  - subst p. apply Hgoal; auto.
  - cbn [setitem bind]. injection Hp as <-. apply Hgoal.
    + apply assoc_get_set_same.
    + apply Hname.
    + apply assoc_set_twice.
Qed.

Lemma apply_defaults_keeps defaults :
  forall (pd : dict) k v,
    assoc_get k pd = Some v ->
    assoc_get k (apply_defaults defaults pd) = Some v.
Proof.
  unfold apply_defaults.
  induction defaults as [|[k0 v0] defaults IH]; cbn [fold_left fst snd];
    intros pd k v Hget; [assumption|].
  apply IH. destruct (assoc_mem k0 pd) eqn:Hmem; [assumption|].
  rewrite assoc_get_set_other; [assumption|].
  intros ->. unfold assoc_mem in Hmem. now rewrite Hget in Hmem.
Qed.

Lemma apply_defaults_cons k0 v0 defaults (pd : dict) :
  apply_defaults ((k0, v0) :: defaults) pd
  = apply_defaults defaults
      (if assoc_mem k0 pd then pd else assoc_set k0 v0 pd).
Proof. reflexivity. Qed.

Lemma apply_defaults_fills defaults :
  forall (pd : dict) k,
    In k (assoc_keys defaults) ->
    assoc_mem k (apply_defaults defaults pd) = true.
Proof.
  unfold assoc_keys.
  induction defaults as [|[k0 v0] defaults IH]; cbn [map In fst];
    intros pd k Hin; [contradiction|].
  rewrite apply_defaults_cons.
  destruct Hin as [<-|Hin]; [|now apply IH].
  set (pd1 := if assoc_mem k0 pd then pd else assoc_set k0 v0 pd).
  assert (Hmem : assoc_mem k0 pd1 = true).
  { subst pd1. destruct (assoc_mem k0 pd) eqn:E; [assumption|].
    apply assoc_mem_set_same. }
  unfold assoc_mem in Hmem |- *.
  destruct (assoc_get k0 pd1) as [v|] eqn:E; [|discriminate].
  now rewrite (apply_defaults_keeps defaults pd1 k0 v E).
Qed.

(** X12: on a call whose parameters are a mapping, or are missing, the
    repairer acts as a table of defaults per operation: it returns the
    call with its parameters completed from the table; every value the
    call gave is kept, every key of the table for the named operation is
    present afterwards, and all other fields of the call are untouched. *)
Theorem repair_applies_the_default_table :
  forall (d pd : dict),
    parameters_of d = VDict pd ->
    QueryProcessor.fix_call (VDict d) = Ok (VDict (repaired d pd))
    /\ (forall k, k <> "parameters" ->
                  assoc_get k (repaired d pd) = assoc_get k d)
    /\ (exists pd',
           assoc_get "parameters" (repaired d pd) = Some (VDict pd')
           /\ (forall k v, assoc_get k pd = Some v -> assoc_get k pd' = Some v)
           /\ (forall k,
                  In k (assoc_keys
                          (defaults_for (dict_get d "function_name"
                                           (VStr EmptyString)))) ->
                  assoc_mem k pd' = true)).
Proof.
  intros d pd Hp. split; [now apply fix_call_by_table|]. split.
  - intros k Hk. unfold repaired. now apply assoc_get_set_other.
  - eexists. split; [apply assoc_get_set_same|]. split.
    + apply apply_defaults_keeps.
    + intros k Hin. now apply apply_defaults_fills.
Qed.

Lemma repair_applies_the_default_table_witness :
  QueryProcessor.fix_call
    (VDict [("function_name", VStr "send_email");
            ("parameters", VDict [("subject", VStr "Invoices")])])
  = Ok (VDict [("function_name", VStr "send_email");
               ("parameters",
                VDict [("subject", VStr "Invoices");
                       ("to_email", VStr "abhayrajputcse@gmail.com");
                       ("body", VStr "This is an automated email.")])]).
Proof.
  exact (proj1 (repair_applies_the_default_table
                  [("function_name", VStr "send_email");
                   ("parameters", VDict [("subject", VStr "Invoices")])]
                  [("subject", VStr "Invoices")] eq_refl)).
Defined.

(** *** Repairing twice *)

Lemma set_default_settles p k v p' :
  QueryProcessor.set_default p k v = Ok p' ->
  contains k p' = Ok true
  /\ forall k', contains k' p = Ok true -> contains k' p' = Ok true.
Proof.
  unfold QueryProcessor.set_default.
  destruct (contains k p) as [[|]|e] eqn:Hc; cbn [bind]; [| |discriminate].
  - intros [= <-]. auto.
  - destruct p as [| | | | |pd]; try discriminate.
    cbn [setitem]. intros [= <-]. cbn [contains]. split.
    + now rewrite assoc_mem_set_same.
    + intros k' Hk'. injection Hk' as Hk'. f_equal.
      unfold assoc_mem in *.
      destruct (String.eqb_spec k' k) as [->|Hne].
      * now rewrite assoc_get_set_same.
      * now rewrite assoc_get_set_other.
Qed.

Lemma default_parameter_shape (d : dict) k v call' :
  QueryProcessor.default_parameter (VDict d) k v = Ok call' ->
  exists p p',
    assoc_get "parameters" d = Some p
    /\ QueryProcessor.set_default p k v = Ok p'
    /\ call' = VDict (assoc_set "parameters" p' d).
Proof.
  unfold QueryProcessor.default_parameter. cbn [subscript].
  destruct (assoc_get "parameters" d) as [p|]; cbn [bind]; [|discriminate].
  destruct (QueryProcessor.set_default p k v) as [p'|e] eqn:Hs;
    cbn [bind setitem]; [|discriminate].
  intros [= <-]. exists p, p'. auto.
Qed.

Lemma default_parameter_stable (d : dict) p k v :
  assoc_get "parameters" d = Some p ->
  contains k p = Ok true ->
  QueryProcessor.default_parameter (VDict d) k v = Ok (VDict d).
Proof.
  intros Hp Hk. unfold QueryProcessor.default_parameter.
  cbn [subscript]. rewrite Hp. cbn [bind].
  unfold QueryProcessor.set_default. rewrite Hk. cbn [bind setitem].
  now rewrite assoc_set_same_value.
Qed.

Lemma fix_call_idempotent call call' :
  QueryProcessor.fix_call call = Ok call' ->
  QueryProcessor.fix_call call' = Ok call'.
Proof.
  unfold QueryProcessor.fix_call at 1.
  destruct (QueryProcessor.set_default call "parameters" (VDict []))
    as [call1|e] eqn:Hset; cbn [bind]; [|discriminate].
  destruct call1 as [| | | | |d1]; try discriminate. cbn [get bind].
  apply set_default_settles in Hset as [Hparams _].
  cbn [contains] in Hparams. injection Hparams as Hparams.
  (* what a second pass does with a call that is settled *)
  assert (Hagain : forall d p,
             assoc_get "parameters" d = Some p ->
             dict_get d "function_name" (VStr EmptyString)
             = dict_get d1 "function_name" (VStr EmptyString) ->
             (forall k,
                 In k (assoc_keys
                         (defaults_for (dict_get d1 "function_name"
                                          (VStr EmptyString)))) ->
                 contains k p = Ok true) ->
             QueryProcessor.fix_call (VDict d) = Ok (VDict d)).
  { intros d p Hp Hn Hkeys.
    unfold QueryProcessor.fix_call, QueryProcessor.set_default.
    cbn [contains bind]. unfold assoc_mem. rewrite Hp. cbn [bind get].
    rewrite Hn. unfold defaults_for in Hkeys.
    destruct (is_str (dict_get d1 "function_name" (VStr EmptyString))
                "send_email").
    - rewrite (default_parameter_stable d p "to_email") by
          (assumption || apply Hkeys; cbn; tauto).
      cbn [bind].
      rewrite (default_parameter_stable d p "subject") by
          (assumption || apply Hkeys; cbn; tauto).
      cbn [bind].
      apply (default_parameter_stable d p "body"); [assumption|].
      apply Hkeys; cbn; tauto.
    - destruct (is_str (dict_get d1 "function_name" (VStr EmptyString))
                  "read_csv");
        [apply (default_parameter_stable d p); [assumption|];
         apply Hkeys; cbn; tauto|].
      destruct (is_str (dict_get d1 "function_name" (VStr EmptyString))
                  "read_file");
        [apply (default_parameter_stable d p); [assumption|];
         apply Hkeys; cbn; tauto|].
      reflexivity. }
  assert (Hname : forall (x : value),
             dict_get (assoc_set "parameters" x d1) "function_name"
               (VStr EmptyString)
             = dict_get d1 "function_name" (VStr EmptyString)).
  { intros x. unfold dict_get.
    now rewrite assoc_get_set_other by discriminate. }
  unfold assoc_mem in Hparams.
  destruct (assoc_get "parameters" d1) as [p1|] eqn:Hp1; [|discriminate].
  unfold defaults_for in Hagain.
  destruct (is_str (dict_get d1 "function_name" (VStr EmptyString))
              "send_email").
  - destruct (QueryProcessor.default_parameter (VDict d1) "to_email" _)
      as [call2|e] eqn:H2; cbn [bind]; [|discriminate].
    apply default_parameter_shape in H2 as (q1 & p2 & Hq1 & Hs2 & ->).
    destruct (QueryProcessor.default_parameter _ "subject" _)
      as [call3|e] eqn:H3; cbn [bind]; [|discriminate].
    apply default_parameter_shape in H3 as (q2 & p3 & Hq2 & Hs3 & ->).
    intros H4.
    apply default_parameter_shape in H4 as (q3 & p4 & Hq3 & Hs4 & ->).
    rewrite assoc_get_set_same in Hq2, Hq3.
    injection Hq2 as <-. injection Hq3 as <-.
    apply set_default_settles in Hs2 as [Hk2 _].
    apply set_default_settles in Hs3 as [Hk3 Hm3].
    apply set_default_settles in Hs4 as [Hk4 Hm4].
    rewrite !assoc_set_twice.
    apply (Hagain _ p4 (assoc_get_set_same _ _ _) (Hname _)).
    cbn [assoc_keys map fst In].
    intros k [<-|[<-|[<-|[]]]]; auto.
  - destruct (is_str (dict_get d1 "function_name" (VStr EmptyString))
                "read_csv").
    + intros H2.
      apply default_parameter_shape in H2 as (q1 & p2 & Hq1 & Hs2 & ->).
      apply set_default_settles in Hs2 as [Hk2 _].
      apply (Hagain _ p2 (assoc_get_set_same _ _ _) (Hname _)).
      cbn [assoc_keys map fst In]. intros k [<-|[]]. assumption.
    + destruct (is_str (dict_get d1 "function_name" (VStr EmptyString))
                  "read_file").
      * intros H2.
        apply default_parameter_shape in H2 as (q1 & p2 & Hq1 & Hs2 & ->).
        apply set_default_settles in Hs2 as [Hk2 _].
        apply (Hagain _ p2 (assoc_get_set_same _ _ _) (Hname _)).
        cbn [assoc_keys map fst In]. intros k [<-|[]]. assumption.
      * intros [= <-].
        apply (Hagain d1 p1 Hp1 eq_refl).
        cbn [assoc_keys map In]. contradiction.
Qed.

Lemma fix_calls_idempotent calls :
  forall fixed,
    QueryProcessor.fix_calls calls = Ok fixed ->
    QueryProcessor.fix_calls fixed = Ok fixed
    /\ List.length fixed = List.length calls.
Proof.
  induction calls as [|call rest IH]; cbn [QueryProcessor.fix_calls];
    intros fixed H.
  - injection H as <-. auto.
  - destruct (QueryProcessor.fix_call call) as [call'|e] eqn:Hc; cbn [bind] in H;
      [|discriminate].
    destruct (QueryProcessor.fix_calls rest) as [rest'|e] eqn:Hr;
      cbn [bind] in H; [|discriminate].
    injection H as <-. destruct (IH rest' eq_refl) as [IH1 IH2].
    cbn [QueryProcessor.fix_calls List.length].
    rewrite (fix_call_idempotent _ _ Hc), IH1. cbn [bind]. auto.
Qed.

(** X13: repairing a repaired plan changes nothing, and repair neither
    adds nor drops a call: when [_fix_common_issues] returns a plan, it
    returns that same plan when run on it again, whatever the calls are,
    and the plan holds as many calls as before. *)
Theorem repair_is_idempotent :
  forall (plan0 plan1 : dict) (errors errors' : list string),
    QueryProcessor._fix_common_issues plan0 errors = Ok plan1 ->
    QueryProcessor._fix_common_issues plan1 errors' = Ok plan1
    /\ (forall calls,
           assoc_get "function_calls" plan0 = Some (VList calls) ->
           exists fixed,
             assoc_get "function_calls" plan1 = Some (VList fixed)
             /\ List.length fixed = List.length calls).
Proof.
  intros plan0 plan1 errors errors'.
  unfold QueryProcessor._fix_common_issues at 1.
  destruct (assoc_get "function_calls" plan0) as [function_calls|] eqn:Hfc.
  - destruct (iter function_calls) as [calls0|e] eqn:Hi; cbn [bind];
      [|discriminate].
    destruct (QueryProcessor.fix_calls calls0) as [fixed|e] eqn:Hf;
      cbn [bind]; [|discriminate].
    intros [= <-]. destruct (fix_calls_idempotent _ _ Hf) as [Hidem Hlen].
    split.
    + unfold QueryProcessor._fix_common_issues.
      rewrite assoc_get_set_same. cbn [iter bind]. rewrite Hidem.
      cbn [bind]. now rewrite assoc_set_twice.
    + intros calls [= ->]. cbn [iter] in Hi. injection Hi as <-.
      exists fixed. split; [apply assoc_get_set_same|assumption].
  - intros [= <-]. split.
    + unfold QueryProcessor._fix_common_issues. now rewrite Hfc.
    + intros calls H. discriminate.
Qed.

Lemma repair_is_idempotent_witness :
  QueryProcessor._fix_common_issues
    (Sample.plan_of
       [VDict [("function_name", VStr "read_csv");
               ("parameters", VDict [("file_path", VStr "data/sample.csv")])]])
    []
  = Ok (Sample.plan_of
          [VDict [("function_name", VStr "read_csv");
                  ("parameters",
                   VDict [("file_path", VStr "data/sample.csv")])]]).
Proof.
  exact (proj1 (repair_is_idempotent
                  (Sample.plan_of
                     [VDict [("function_name", VStr "read_csv");
                             ("parameters", VDict [])]])
                  _ [] [] eq_refl)).
Defined.

(** ** De-duplication, once more *)

Lemma optimize_loop_signatures calls :
  forall seen optimized out,
    optimize_loop calls seen optimized = Ok out ->
    forallb has_signature calls = true.
Proof.
  induction calls as [|call rest IH]; cbn [optimize_loop forallb];
    intros seen optimized out H; [reflexivity|].
  unfold has_signature at 1.
  destruct (call_signature call) as [sig|e]; cbn [bind] in H; [|discriminate].
  destruct (hashable (fst sig)); cbn [negb] in H; [|discriminate].
  cbn [andb].
  destruct (existsb (signature_eqb sig) seen); eapply IH; eauto.
Qed.

(** X14: de-duplicating a second time changes nothing: whatever
    [optimize_function_sequence] returns, it returns again when it is run
    on its own output. *)
Theorem deduplication_is_idempotent :
  forall (function_calls : value) (optimized : list value),
    optimize_function_sequence function_calls = Ok optimized ->
    optimize_function_sequence (VList optimized) = Ok optimized.
Proof.
  intros function_calls optimized. unfold optimize_function_sequence.
  destruct (iter function_calls) as [calls|e]; cbn [bind iter];
    [|discriminate].
  intros H. pose proof (optimize_loop_signatures _ _ _ _ H) as Hsig.
  rewrite optimize_loop_first_occurrences in H by assumption.
  cbn [app] in H. injection H as <-.
  assert (Hsig' : forallb has_signature (first_occurrences [] calls) = true).
  { apply forallb_forall. intros x Hx.
    rewrite forallb_forall in Hsig. apply Hsig.
    eapply subsequence_In; [apply first_occurrences_subsequence|eassumption]. }
  rewrite optimize_loop_first_occurrences by assumption. cbn [app]. f_equal.
  apply first_occurrences_all.
  - apply Forall_forall. reflexivity.
  - apply first_occurrences_distinct.
Qed.

Lemma deduplication_is_idempotent_witness :
  optimize_function_sequence
    (VList [SampleDuplicates.read; SampleDuplicates.show])
  = Ok [SampleDuplicates.read; SampleDuplicates.show].
Proof.
  exact (deduplication_is_idempotent (VList SampleDuplicates.calls) _ eq_refl).
Defined.

(** ** From the planner's plan to the processed plan *)

Lemma well_shaped_parameters d :
  well_shaped (VDict d) = true -> exists pd, parameters_of d = VDict pd.
Proof.
  unfold well_shaped, parameters_of, dict_get. intros H.
  apply andb_prop in H as [_ H].
  destruct (assoc_get "parameters" d) as [[| | | | |pd]|];
    try discriminate; eauto.
Qed.

Lemma fix_calls_repairs calls :
  forallb well_shaped calls = true ->
  QueryProcessor.fix_calls calls = Ok (map repaired_call calls).
Proof.
  induction calls as [|call rest IH];
    cbn [QueryProcessor.fix_calls forallb map]; intros H; [reflexivity|].
  apply andb_prop in H as [Hc Hr].
  destruct call as [| | | | |d]; try discriminate.
  destruct (well_shaped_parameters _ Hc) as [pd Hpd].
  rewrite (fix_call_by_table _ _ Hpd), (IH Hr). cbn [bind].
  unfold repaired_call. now rewrite Hpd.
Qed.

Lemma repaired_call_signature call :
  well_shaped call = true ->
  if has_name call then has_signature (repaired_call call) = true
  else call_signature (repaired_call call) = Raise (KeyError "function_name").
Proof.
  destruct call as [| | | | |d]; try discriminate. intros Hc.
  destruct (well_shaped_parameters _ Hc) as [pd Hpd].
  unfold repaired_call. rewrite Hpd.
  unfold has_signature, call_signature, repaired, has_name, assoc_mem.
  cbn [subscript]. rewrite assoc_get_set_other by discriminate.
  unfold well_shaped in Hc. apply andb_prop in Hc as [Hc _].
  destruct (assoc_get "function_name" d) as [v|]; [|reflexivity].
  cbn [bind]. rewrite assoc_get_set_same. cbn [bind fst]. assumption.
Qed.

Lemma sound_call_signature available_functions call :
  well_shaped call = true ->
  malformed available_functions call = false ->
  has_signature call = true.
Proof.
  destruct call as [| | | | |d]; try discriminate. intros Hc.
  unfold malformed. intros H.
  apply orb_false_elim in H as [H _].
  apply orb_false_elim in H as [H Hname].
  apply orb_false_elim in H as [_ Hpar].
  unfold missing_function_name, missing_parameters_field, assoc_mem in *.
  unfold has_signature, call_signature. cbn [subscript].
  unfold well_shaped in Hc. apply andb_prop in Hc as [Hc _].
  destruct (assoc_get "function_name" d) as [v|]; [|discriminate].
  destruct (assoc_get "parameters" d) as [p|]; [|discriminate].
  cbn [bind fst]. assumption.
Qed.

Lemma nameless_is_malformed available_functions call :
  well_shaped call = true ->
  has_name call = false ->
  malformed available_functions call = true.
Proof.
  destruct call as [| | | | |d]; try discriminate. intros _.
  unfold has_name, malformed, missing_function_name. intros ->.
  cbn [negb]. now rewrite !orb_true_r.
Qed.

Lemma optimize_loop_nameless calls :
  Forall (fun c => has_signature c = true
                   \/ call_signature c = Raise (KeyError "function_name"))
         calls ->
  forallb has_signature calls = false ->
  forall seen optimized,
    optimize_loop calls seen optimized = Raise (KeyError "function_name").
Proof.
  induction calls as [|call rest IH]; cbn [forallb optimize_loop];
    intros Hall Hsome seen optimized; [discriminate|].
  inversion Hall as [|? ? Hcall Hrest]; subst.
  destruct Hcall as [Hcall| ->]; [|reflexivity].
  rewrite Hcall in Hsome. cbn [andb] in Hsome.
  destruct (has_signature_of call Hcall) as [-> Hhash]. cbn [bind].
  rewrite Hhash. cbn [negb].
  destruct (existsb (signature_eqb (signature_of call)) seen); now apply IH.
Qed.

Lemma repaired_calls_signatures calls :
  forallb well_shaped calls = true ->
  forallb has_signature (map repaired_call calls) = forallb has_name calls
  /\ Forall (fun c => has_signature c = true
                      \/ call_signature c = Raise (KeyError "function_name"))
            (map repaired_call calls).
Proof.
  induction calls as [|call rest IH]; cbn [forallb map]; intros H;
    [split; [reflexivity|constructor]|].
  apply andb_prop in H as [Hc Hr]. destruct (IH Hr) as [IH1 IH2].
  pose proof (repaired_call_signature call Hc) as Hsig.
  destruct (has_name call).
  - rewrite Hsig. cbn [andb]. split; [assumption|]. constructor; auto.
  - split; [|constructor; auto].
    unfold has_signature at 1. rewrite Hsig. reflexivity.
Qed.

Lemma sound_calls_signatures available_functions calls :
  forallb well_shaped calls = true ->
  none_malformed available_functions calls = true ->
  forallb has_signature calls = true.
Proof.
  unfold none_malformed.
  induction calls as [|call rest IH]; cbn [forallb]; intros H Hm;
    [reflexivity|].
  apply andb_prop in H as [Hc Hr]. apply andb_prop in Hm as [Hmc Hmr].
  rewrite (sound_call_signature available_functions call Hc).
  - now apply IH.
  - now destruct (malformed available_functions call).
Qed.

Lemma none_malformed_filter available_functions calls :
  Nat.eqb (List.length (filter (malformed available_functions) calls)) 0
  = none_malformed available_functions calls.
Proof.
  unfold none_malformed.
  induction calls as [|call rest IH]; cbn [filter forallb]; [reflexivity|].
  destruct (malformed available_functions call); cbn [negb andb List.length];
    [reflexivity|assumption].
Qed.

(** The verdict of the validator on well-shaped calls. *)
Lemma validate_well_shaped available_functions calls :
  forallb well_shaped calls = true ->
  exists errors,
    validate_function_calls (VList calls) available_functions
    = Ok (none_malformed available_functions calls, errors).
Proof.
  intros Hshape. unfold validate_function_calls. cbn [iter bind].
  destruct (validate_loop_counts available_functions calls Hshape 0 [])
    as (new & -> & Hlen).
  cbn [bind app]. rewrite Hlen, none_malformed_filter. eauto.
Qed.

Lemma nameless_not_valid available_functions calls :
  forallb well_shaped calls = true ->
  forallb has_name calls = false ->
  none_malformed available_functions calls = false.
Proof.
  unfold none_malformed.
  induction calls as [|call rest IH]; cbn [forallb]; intros H Hn;
    [discriminate|].
  apply andb_prop in H as [Hc Hr].
  destruct (has_name call) eqn:Hname; cbn [andb] in Hn.
  - rewrite (IH Hr Hn). apply andb_false_r.
  - now rewrite (nameless_is_malformed available_functions call Hc Hname).
Qed.

(** What [finish_plan] makes of a plan of well-shaped calls that all have
    a name. *)
Lemma finish_plan_named {World} (clock : World -> string)
  query processed_query available_functions (plan0 : dict) calls w :
  assoc_get "function_calls" plan0 = Some (VList calls) ->
  forallb well_shaped calls = true ->
  forallb has_name calls = true ->
  exists out,
    QueryProcessor.finish_plan clock query processed_query
      available_functions plan0 w = Ok out
    /\ assoc_get "function_calls" out
       = Some (VList (first_occurrences []
                        (if none_malformed available_functions calls
                         then calls else map repaired_call calls)))
    /\ assoc_get "valid" out
       = Some (VBool (none_malformed available_functions calls))
    /\ assoc_get "query" out = Some (VStr query).
Proof.
  intros Hfc Hshape Hnamed. unfold QueryProcessor.finish_plan.
  unfold dict_get. rewrite Hfc.
  destruct (validate_well_shaped available_functions calls Hshape)
    as (errors & ->).
  cbn [bind fst snd].
  assert (Hout : forall (plan2 : dict) (x : value) valid (es : list value),
             assoc_get "function_calls" plan2 = Some x ->
             let out :=
               assoc_set "errors" (VList es)
                 (assoc_set "valid" (VBool valid)
                    (assoc_set "timestamp" (VStr (clock w))
                       (assoc_set "processed_query" (VStr processed_query)
                          (assoc_set "query" (VStr query) plan2)))) in
             assoc_get "function_calls" out = Some x
             /\ assoc_get "valid" out = Some (VBool valid)
             /\ assoc_get "query" out = Some (VStr query)).
  { intros plan2 x valid es Hx. cbn zeta. repeat split.
    - rewrite !assoc_get_set_other by discriminate. assumption.
    - rewrite assoc_get_set_other by discriminate. apply assoc_get_set_same.
    - rewrite !assoc_get_set_other by discriminate. apply assoc_get_set_same. }
  destruct (none_malformed available_functions calls) eqn:Hvalid.
  - cbn [bind]. rewrite Hfc. unfold optimize_function_sequence.
    cbn [iter bind].
    rewrite optimize_loop_first_occurrences
      by (eapply sound_calls_signatures; eassumption).
    cbn [bind app]. eexists. split; [reflexivity|].
    apply Hout. apply assoc_get_set_same.
  - unfold QueryProcessor._fix_common_issues. rewrite Hfc. cbn [iter bind].
    rewrite (fix_calls_repairs calls Hshape). cbn [bind].
    rewrite assoc_get_set_same. unfold optimize_function_sequence.
    cbn [iter bind].
    destruct (repaired_calls_signatures calls Hshape) as [Hsig _].
    rewrite Hnamed in Hsig.
    rewrite optimize_loop_first_occurrences by assumption.
    cbn [bind app]. eexists. split; [reflexivity|].
    apply Hout. apply assoc_get_set_same.
Qed.

(** What [finish_plan] makes of a plan of well-shaped calls one of which
    has no name. *)
Lemma finish_plan_nameless {World} (clock : World -> string)
  query processed_query available_functions (plan0 : dict) calls w :
  assoc_get "function_calls" plan0 = Some (VList calls) ->
  forallb well_shaped calls = true ->
  forallb has_name calls = false ->
  QueryProcessor.finish_plan clock query processed_query
    available_functions plan0 w = Raise (KeyError "function_name").
Proof.
  intros Hfc Hshape Hnameless. unfold QueryProcessor.finish_plan.
  unfold dict_get. rewrite Hfc.
  destruct (validate_well_shaped available_functions calls Hshape)
    as (errors & ->).
  cbn [bind fst snd].
  rewrite (nameless_not_valid available_functions calls Hshape Hnameless).
  unfold QueryProcessor._fix_common_issues. rewrite Hfc. cbn [iter bind].
  rewrite (fix_calls_repairs calls Hshape). cbn [bind].
  rewrite assoc_get_set_same. unfold optimize_function_sequence.
  cbn [iter bind].
  destruct (repaired_calls_signatures calls Hshape) as [Hsig Hall].
  rewrite Hnameless in Hsig.
  now rewrite (optimize_loop_nameless _ Hall Hsig).
Qed.

(** X15: one call without a function name voids the whole plan.  When the
    planner's calls are well-shaped mappings and one of them has no
    [function_name], [process_query] answers with its error response, which
    holds no call at all, and the pipeline, asked to execute, runs nothing:
    the engine is left as it was and the outcome is unsuccessful. *)
Theorem nameless_call_voids_the_plan :
  forall (World : Type) (clock : World -> string)
         (plan_function_calls :
            string -> list FunctionSchema -> World -> result dict * World)
         (get_model_info : World -> value)
         (self : PipelineManager.PipelineManager World) (query : string)
         (plan0 : dict) (calls : list value) (w w1 : World),
    PipelineManager.initialized self = true ->
    plan_function_calls (QueryProcessor._preprocess_query query)
      (get_function_schemas
         (function_registry (PipelineManager.execution_engine self))) w
    = (Ok plan0, w1) ->
    assoc_get "function_calls" plan0 = Some (VList calls) ->
    forallb well_shaped calls = true ->
    forallb has_name calls = false ->
    QueryProcessor.process_query clock plan_function_calls
      (function_registry (PipelineManager.execution_engine self)) query w
    = (QueryProcessor._create_error_response query "'function_name'"
         (clock w1), w1)
    /\ PipelineManager.process_query clock plan_function_calls get_model_info
         self query true false w
       = (PipelineManager.Processed query
            (QueryProcessor._create_error_response query "'function_name'"
               (clock w1))
            (Some (_create_execution_result
                     (QueryProcessor._create_error_response query
                        "'function_name'" (clock w1))
                     [] "No function calls to execute" false (clock w1)))
            (get_model_info w1) (clock w1),
          self, w1).
Proof.
  intros World clock plan_function_calls get_model_info self query plan0
    calls w w1 Hinit Hplan Hfc Hshape Hnameless.
  destruct self as [ini engine0].
  cbn [PipelineManager.initialized PipelineManager.execution_engine] in *.
  assert (Hq : QueryProcessor.process_query clock plan_function_calls
                 (function_registry engine0) query w
               = (QueryProcessor._create_error_response query
                    "'function_name'" (clock w1), w1)).
  { unfold QueryProcessor.process_query. rewrite Hplan. cbn [bind].
    now rewrite (finish_plan_nameless clock _ _ _ _ _ _ Hfc Hshape Hnameless). }
  split; [exact Hq|].
  unfold PipelineManager.process_query.
  cbn [PipelineManager.initialized PipelineManager.execution_engine].
  rewrite Hinit. cbn [negb]. rewrite Hq. reflexivity.
Qed.

Lemma nameless_call_voids_the_plan_witness :
  QueryProcessor.process_query Sample.clock
    SampleNameless.plan_function_calls Sample.registry "say hello" 0
  = (QueryProcessor._create_error_response "say hello" "'function_name'"
       "t0", 0).
Proof.
  exact (proj1 (nameless_call_voids_the_plan Sample.World Sample.clock
                  SampleNameless.plan_function_calls
                  SamplePipeline.get_model_info SamplePipeline.pipeline
                  "say hello" _ _ 0 0 eq_refl eq_refl eq_refl eq_refl eq_refl)).
Defined.

(** X16: a plan of well-shaped calls that all have a function name always
    gets through [process_query], whatever operations it names.  The
    processed plan holds the first occurrences of the planner's calls when
    none of them is malformed, and of the repaired calls otherwise; its
    [valid] flag tells which; it keeps the query as it was asked. *)
Theorem named_calls_get_through :
  forall (World : Type) (clock : World -> string)
         (plan_function_calls :
            string -> list FunctionSchema -> World -> result dict * World)
         (registry : FunctionRegistry World) (query : string)
         (plan0 : dict) (calls : list value) (w w1 : World),
    plan_function_calls (QueryProcessor._preprocess_query query)
      (get_function_schemas registry) w = (Ok plan0, w1) ->
    assoc_get "function_calls" plan0 = Some (VList calls) ->
    forallb well_shaped calls = true ->
    forallb has_name calls = true ->
    exists out,
      QueryProcessor.process_query clock plan_function_calls registry query w
      = (out, w1)
      /\ assoc_get "function_calls" out
         = Some (VList (first_occurrences []
                          (if none_malformed (get_function_schemas registry)
                                calls
                           then calls else map repaired_call calls)))
      /\ assoc_get "valid" out
         = Some (VBool (none_malformed (get_function_schemas registry) calls))
      /\ assoc_get "query" out = Some (VStr query).
Proof.
  intros World clock plan_function_calls registry query plan0 calls w w1
    Hplan Hfc Hshape Hnamed.
  destruct (finish_plan_named clock query
              (QueryProcessor._preprocess_query query)
              (get_function_schemas registry) plan0 calls w1
              Hfc Hshape Hnamed) as (out & Hout & Hrest).
  exists out. split; [|exact Hrest].
  unfold QueryProcessor.process_query. rewrite Hplan. cbn [bind].
  now rewrite Hout.
Qed.

Lemma named_calls_get_through_witness :
  exists out,
    QueryProcessor.process_query Sample.clock
      SamplePipeline.plan_function_calls Sample.registry "load the data" 0
    = (out, 0)
    /\ assoc_get "function_calls" out
       = Some (VList [VDict [("function_name", VStr "read_csv");
                             ("parameters",
                              VDict [("file_path", VStr "data/sample.csv")])]])
    /\ assoc_get "valid" out = Some (VBool false)
    /\ assoc_get "query" out = Some (VStr "load the data").
Proof.
  exact (named_calls_get_through Sample.World Sample.clock
           SamplePipeline.plan_function_calls Sample.registry
           "load the data" _ _ 0 0 eq_refl eq_refl eq_refl eq_refl).
Defined.

(** ** Batches *)

Lemma pipeline_answers {World} (clock : World -> string) plan_function_calls
  get_model_info (self : PipelineManager.PipelineManager World) query
  execute_flag w :
  PipelineManager.initialized self = true ->
  exists r self' w',
    PipelineManager.process_query clock plan_function_calls get_model_info
      self query execute_flag false w = (r, self', w')
    /\ answers query r
    /\ PipelineManager.initialized self' = true.
Proof.
  intros Hinit. unfold PipelineManager.process_query. rewrite Hinit.
  cbn [negb].
  destruct (QueryProcessor.process_query clock plan_function_calls
              (function_registry (PipelineManager.execution_engine self))
              query w) as [plan0 w1].
  destruct execute_flag.
  - destruct (execute_plan clock (PipelineManager.execution_engine self)
                plan0 w1) as [[r engine'] w2].
    do 3 eexists. split; [reflexivity|]. split; [|exact Hinit].
    unfold answers. eauto.
  - do 3 eexists. split; [reflexivity|]. split; [|exact Hinit].
    unfold answers. eauto.
Qed.

Lemma batch_loop_counts {World} (clock : World -> string) plan_function_calls
  get_model_info execute_flag queries :
  forall (self : PipelineManager.PipelineManager World) results0 successful0
         failed0 w,
    PipelineManager.initialized self = true ->
    exists rs self' w',
      PipelineManager.batch_loop clock plan_function_calls get_model_info
        self queries execute_flag results0 successful0 failed0 w
      = ((results0 ++ rs)%list, List.length queries + successful0, failed0,
         self', w')
      /\ Forall2 answers queries rs
      /\ PipelineManager.initialized self' = true.
Proof.
  induction queries as [|query rest IH];
    intros self results0 successful0 failed0 w Hinit;
    cbn [PipelineManager.batch_loop List.length].
  - exists [], self, w. rewrite app_nil_r. repeat split; auto.
  - destruct (pipeline_answers clock plan_function_calls get_model_info self
                query execute_flag w Hinit)
      as (r & self1 & w1 & -> & Hr & Hinit1).
    assert (Hs : PipelineManager.reported_success r = true).
    { destruct Hr as (? & ? & ? & ? & ->). reflexivity. }
    rewrite Hs.
    destruct (IH self1 (results0 ++ [r])%list (S successful0) failed0 w1
                Hinit1) as (rs & self' & w' & -> & Hrs & Hinit').
    exists (r :: rs), self', w'. rewrite <- app_assoc. cbn [app].
    rewrite Nat.add_succ_r. repeat split; auto.
Qed.

(** X17: a batch on an initialized pipeline answers every query, in order,
    and counts every one of them as successful, whatever plan the query
    got and whatever its execution recorded: [failed] is always zero and
    [successful] is the number of queries. *)
Theorem batch_counts_every_query_as_successful :
  forall (World : Type) (clock : World -> string)
         (plan_function_calls :
            string -> list FunctionSchema -> World -> result dict * World)
         (get_model_info : World -> value)
         (self : PipelineManager.PipelineManager World)
         (queries : list string) (execute_flag : bool) (w : World),
    PipelineManager.initialized self = true ->
    exists batch_results self' w',
      PipelineManager.process_batch_queries clock plan_function_calls
        get_model_info self queries execute_flag w
      = (PipelineManager.Batch batch_results
           {| PipelineManager.total_queries := List.length queries;
              PipelineManager.successful := List.length queries;
              PipelineManager.failed := 0 |},
         self', w')
      /\ Forall2 answers queries batch_results
      /\ PipelineManager.initialized self' = true.
Proof.
  intros World clock plan_function_calls get_model_info self queries
    execute_flag w Hinit.
  unfold PipelineManager.process_batch_queries. rewrite Hinit. cbn [negb].
  destruct (batch_loop_counts clock plan_function_calls get_model_info
              execute_flag queries self [] 0 0 w Hinit)
    as (rs & self' & w' & -> & Hrs & Hinit').
  exists rs, self', w'. cbn [app]. rewrite Nat.add_0_r. auto.
Qed.

Lemma batch_counts_every_query_as_successful_witness :
  exists batch_results self' w',
    PipelineManager.process_batch_queries Sample.clock
      SampleNameless.plan_function_calls SamplePipeline.get_model_info
      SamplePipeline.pipeline ["say hello"; "load the data"] true 0
    = (PipelineManager.Batch batch_results
         {| PipelineManager.total_queries := 2;
            PipelineManager.successful := 2;
            PipelineManager.failed := 0 |},
       self', w')
    /\ Forall2 answers ["say hello"; "load the data"] batch_results
    /\ PipelineManager.initialized self' = true.
Proof.
  exact (batch_counts_every_query_as_successful Sample.World Sample.clock
           SampleNameless.plan_function_calls SamplePipeline.get_model_info
           SamplePipeline.pipeline ["say hello"; "load the data"] true 0
           eq_refl).
Defined.

(* ================================================================== *)
(** * Further properties of the registry and of its look-ups *)
(* ================================================================== *)

Lemma assoc_get_set {A} (l : list (string * A)) k k' v :
  assoc_get k' (assoc_set k v l)
  = if String.eqb k' k then Some v else assoc_get k' l.
Proof.
  destruct (String.eqb_spec k' k) as [->|Hne].
  - apply assoc_get_set_same.
  - now apply assoc_get_set_other.
Qed.

Lemma assoc_get_none_keys {A} (l : list (string * A)) k :
  assoc_get k l = None <-> ~ In k (assoc_keys l).
Proof.
  unfold assoc_keys.
  induction l as [|[k0 v0] l IH]; cbn [assoc_get map fst In]; [tauto|].
  destruct (String.eqb_spec k k0) as [->|Hne].
  - split; [discriminate|]. intros H. exfalso. apply H. now left.
  - rewrite IH. split.
    + intros H [Heq|Hin]; [now apply Hne|now apply H].
    + intros H Hin. apply H. now right.
Qed.

Lemma assoc_get_In {A} (l : list (string * A)) k v :
  assoc_get k l = Some v -> In (k, v) l.
Proof.
  induction l as [|[k0 v0] l IH]; cbn [assoc_get In]; [discriminate|].
  destruct (String.eqb_spec k k0) as [->|Hne].
  - intros [= ->]. now left.
  - intros H. right. now apply IH.
Qed.

Lemma assoc_set_NoDup {A} (l : list (string * A)) k v :
  NoDup (assoc_keys l) -> NoDup (assoc_keys (assoc_set k v l)).
Proof.
  intros Hnd. destruct (assoc_get k l) as [x|] eqn:Hk.
  - rewrite assoc_set_keys_present; [assumption|].
    unfold assoc_mem. now rewrite Hk.
  - rewrite assoc_set_fresh by assumption.
    unfold assoc_keys in *. rewrite map_app. cbn [map fst].
    apply NoDup_app; [assumption|repeat constructor; auto|].
    intros x Hin [<-|[]]. now apply assoc_get_none_keys in Hk.
Qed.

Lemma assoc_set_Forall {A} (P : string * A -> Prop) (l : list (string * A))
  k v :
  Forall P l -> P (k, v) -> Forall P (assoc_set k v l).
Proof.
  intros Hl Hkv.
  induction l as [|[k0 v0] l IH]; cbn [assoc_set]; [repeat constructor; auto|].
  inversion Hl; subst.
  destruct (String.eqb k k0); constructor; auto.
Qed.

Lemma register_functions {World} (self : FunctionRegistry World) function n :
  get_function (register self function) n
  = if String.eqb n (name (schema function)) then Some function
    else get_function self n.
Proof. unfold get_function, register. cbn [functions]. apply assoc_get_set. Qed.

Lemma register_categories {World} (self : FunctionRegistry World) function c :
  assoc_get c (categories (register self function))
  = if String.eqb c (category (schema function))
    then Some ((match assoc_get (category (schema function))
                        (categories self) with
                | Some l => l
                | None => []
                end) ++ [name (schema function)])%list
    else assoc_get c (categories self).
Proof.
  destruct (String.eqb_spec c (category (schema function))) as [->|Hne].
  - apply register_category_members.
  - unfold register. cbn [categories].
    rewrite assoc_get_set_other by assumption.
    destruct (assoc_mem (category (schema function)) (categories self));
      [reflexivity|].
    now rewrite assoc_get_set_other.
Qed.

(** What holds of every registry that was built by registering. *)
Lemma built_invariants {World} (self : FunctionRegistry World) :
  built self ->
  NoDup (assoc_keys (functions self))
  /\ Forall (fun kv => name (schema (snd kv)) = fst kv) (functions self)
  /\ (forall c names n,
         assoc_get c (categories self) = Some names -> In n names ->
         exists f, get_function self n = Some f)
  /\ (forall n f,
         get_function self n = Some f ->
         exists names,
           assoc_get (category (schema f)) (categories self) = Some names
           /\ In n names).
Proof.
  induction 1 as [|self function _ (IH1 & IH2 & IH3 & IH4)].
  - repeat split; try constructor; cbn; intros; discriminate.
  - split; [|split; [|split]].
    + unfold register. cbn [functions]. now apply assoc_set_NoDup.
    + unfold register. cbn [functions]. now apply assoc_set_Forall.
    + intros c names n Hc Hin. rewrite register_functions.
      destruct (String.eqb n (name (schema function))) eqn:En; [eauto|].
      rewrite register_categories in Hc.
      destruct (String.eqb c (category (schema function))) eqn:Ec.
      * injection Hc as <-. apply in_app_or in Hin as [Hin|[<-|[]]].
        -- destruct (assoc_get (category (schema function)) (categories self))
             as [old|] eqn:Hold; [|contradiction]. eauto.
        -- now rewrite String.eqb_refl in En.
      * eauto.
    + intros n f. rewrite register_functions, register_categories.
      destruct (String.eqb_spec n (name (schema function))) as [->|Hn].
      * intros [= <-]. rewrite String.eqb_refl. eexists. split; [reflexivity|].
        apply in_or_app. right. now left.
      * intros Hf. destruct (IH4 n f Hf) as (names & Hnames & Hin).
        destruct (String.eqb_spec (category (schema f))
                    (category (schema function))) as [Ec|Ec].
        -- eexists. split; [reflexivity|]. apply in_or_app. left.
           rewrite <- Ec, Hnames. assumption.
        -- eauto.
Qed.

Lemma category_members_found {World} (self : FunctionRegistry World) names :
  (forall n, In n names -> exists f, get_function self n = Some f) ->
  Forall2 (fun n f => get_function self n = Some f) names
    (flat_map (fun n => match assoc_get n (functions self) with
                        | Some f => [f]
                        | None => []
                        end) names).
Proof.
  induction names as [|n names IH]; cbn [flat_map]; intros H; [constructor|].
  destruct (H n (or_introl eq_refl)) as [f Hf].
  unfold get_function in Hf. rewrite Hf. cbn [app].
  constructor; [assumption|]. apply IH. intros m Hm. apply H. now right.
Qed.

(** X18: in every registry that was built by registering, an operation is
    stored under its own name and the exported schemas bear pairwise
    different names; each category lists registered names only, so that
    [get_functions_by_category] finds an operation for every name of the
    list, in order; and every registered operation is among those of its
    own category. *)
Theorem built_registry_is_consistent :
  forall (World : Type) (self : FunctionRegistry World),
    built self ->
    NoDup (map name (get_function_schemas self))
    /\ (forall n f, get_function self n = Some f ->
                    name (to_dict f) = n /\ In f (get_all_functions self))
    /\ (forall c names,
           assoc_get c (categories self) = Some names ->
           Forall2 (fun n f => get_function self n = Some f) names
             (get_functions_by_category self c))
    /\ (forall n f,
           get_function self n = Some f ->
           In f (get_functions_by_category self (category (to_dict f)))).
Proof.
  intros World self Hbuilt.
  destruct (built_invariants self Hbuilt) as (I1 & I2 & I3 & I4).
  split; [|split; [|split]].
  - unfold get_function_schemas, assoc_values, to_dict.
    rewrite !map_map.
    replace (map (fun x => name (schema (snd x))) (functions self))
      with (assoc_keys (functions self)); [assumption|].
    unfold assoc_keys. apply map_ext_in. intros kv Hin.
    rewrite Forall_forall in I2. symmetry. now apply I2.
  - intros n f Hf. unfold get_function in Hf.
    apply assoc_get_In in Hf. split.
    + rewrite Forall_forall in I2. apply (I2 _ Hf).
    + unfold get_all_functions, assoc_values.
      change f with (snd (n, f)). now apply in_map.
  - intros c names Hc. unfold get_functions_by_category. rewrite Hc.
    apply category_members_found. intros n Hin. eapply I3; eassumption.
  - intros n f Hf. destruct (I4 n f Hf) as (names & Hnames & Hin).
    unfold get_functions_by_category, to_dict. rewrite Hnames.
    apply in_flat_map. exists n. split; [assumption|].
    unfold get_function in Hf. rewrite Hf. now left.
Qed.

Lemma built_registry_is_consistent_witness :
  NoDup (map name (get_function_schemas Sample.registry)).
Proof.
  refine (proj1 (built_registry_is_consistent Sample.World Sample.registry _)).
  unfold Sample.registry. repeat constructor.
Defined.

(** ** Searching the registry *)

Lemma lower_char_idempotent c : lower_char (lower_char c) = lower_char c.
Proof.
  destruct c as [[] [] [] [] [] [] [] []]; vm_compute; reflexivity.
Qed.

Lemma lower_idempotent s : lower (lower s) = lower s.
Proof.
  induction s as [|c s IH]; cbn [lower]; [reflexivity|].
  now rewrite lower_char_idempotent, IH.
Qed.

Lemma prefix_iff p s :
  String.prefix p s = true <-> exists b, s = p ++ b.
Proof.
  revert s. induction p as [|c p IH]; intros s.
  - split; [cbn [append]; eauto|]. intros _. now destruct s.
  - destruct s as [|c' s]; cbn [String.prefix append].
    + split; [discriminate|]. intros [b Hb]. discriminate.
    + destruct (Ascii.ascii_dec c c') as [->|Hne].
      * rewrite IH. split; intros [b Hb]; exists b.
        -- now rewrite Hb.
        -- now injection Hb.
      * split; [discriminate|]. intros [b Hb]. injection Hb as -> _.
        now contradiction Hne.
Qed.

Lemma str_contains_iff sub s :
  str_contains sub s = true <-> exists a b, s = a ++ sub ++ b.
Proof.
  induction s as [|c s IH]; cbn [str_contains].
  - rewrite orb_false_r, prefix_iff. split.
    + intros [b Hb]. now exists EmptyString, b.
    + intros (a & b & H). destruct a; [now exists b|discriminate].
  - rewrite orb_true_iff, prefix_iff, IH. split.
    + intros [[b Hb]|(a & b & H)].
      * now exists EmptyString, b.
      * exists (String c a), b. cbn [append]. now rewrite H.
    + intros (a & b & H). destruct a as [|c' a].
      * left. now exists b.
      * right. injection H as -> H. now exists a, b.
Qed.

Lemma append_assoc3 a b c : (a ++ b) ++ c = a ++ b ++ c.
Proof.
  induction a as [|x a IH]; cbn [append]; [reflexivity|now rewrite IH].
Qed.

Lemma str_contains_trans k1 k2 s :
  str_contains k1 k2 = true -> str_contains k2 s = true ->
  str_contains k1 s = true.
Proof.
  rewrite !str_contains_iff. intros (a & b & ->) (c & d & ->).
  exists (c ++ a), (b ++ d). now rewrite !append_assoc3.
Qed.

Lemma str_contains_refl s : str_contains s s = true.
Proof.
  apply str_contains_iff. exists EmptyString, EmptyString.
  cbn [append]. induction s as [|c s IH]; cbn [append]; [reflexivity|].
  now rewrite <- IH.
Qed.

Lemma str_contains_empty s : str_contains EmptyString s = true.
Proof. apply str_contains_iff. now exists EmptyString, s. Qed.

Lemma filter_subsequence {A} (f : A -> bool) (l : list A) :
  subsequence (filter f l) l.
Proof.
  induction l as [|x l IH]; cbn [filter]; [constructor|].
  destruct (f x); now constructor.
Qed.

(** X19: [search_functions] hands back registered schemas only, in the
    order of the registry; the empty keyword finds every operation; the
    letter case of the keyword does not matter; an operation is found by
    its own name, in whatever case it is typed; and a keyword never finds
    more than a keyword it contains. *)
Theorem search_is_case_blind_and_monotone :
  forall (World : Type) (registry : FunctionRegistry World) (keyword : string),
    QueryProcessor.search_functions registry EmptyString
    = get_function_schemas registry
    /\ QueryProcessor.search_functions registry (lower keyword)
       = QueryProcessor.search_functions registry keyword
    /\ subsequence (QueryProcessor.search_functions registry keyword)
         (get_function_schemas registry)
    /\ (forall f,
           In f (get_all_functions registry) ->
           lower keyword = lower (name (to_dict f)) ->
           In (to_dict f) (QueryProcessor.search_functions registry keyword))
    /\ (forall longer found,
           str_contains (lower keyword) (lower longer) = true ->
           In found (QueryProcessor.search_functions registry longer) ->
           In found (QueryProcessor.search_functions registry keyword)).
Proof.
  intros World registry keyword. unfold QueryProcessor.search_functions.
  split; [|split; [|split; [|split]]].
  - unfold get_function_schemas, get_all_functions.
    cbn [lower].
    induction (map to_dict (assoc_values (functions registry)))
      as [|x l IH]; cbn [filter]; [reflexivity|].
    unfold QueryProcessor.matches_keyword at 1.
    rewrite str_contains_empty. cbn [orb]. now rewrite IH.
  - now rewrite lower_idempotent.
  - apply filter_subsequence.
  - intros f Hf Hk. apply filter_In. split; [now apply in_map|].
    unfold QueryProcessor.matches_keyword. rewrite Hk, str_contains_refl.
    reflexivity.
  - intros longer found Hsub Hin. apply filter_In in Hin as [Hin Hm].
    apply filter_In. split; [assumption|].
    unfold QueryProcessor.matches_keyword in *.
    apply orb_true_iff in Hm as [Hm|Hm];
      [apply orb_true_iff in Hm as [Hm|Hm]|];
      rewrite (str_contains_trans _ _ _ Hsub Hm);
      rewrite ?orb_true_r; reflexivity.
Qed.

Lemma search_is_case_blind_and_monotone_witness :
  In (to_dict Sample.echo)
     (QueryProcessor.search_functions Sample.registry "ECHO").
Proof.
  refine (proj1 (proj2 (proj2 (proj2
            (search_is_case_blind_and_monotone Sample.World Sample.registry
               "ECHO")))) Sample.echo _ eq_refl).
  right. left. reflexivity.
Defined.

(** ** Query complexity *)

Lemma count_keywords_cons keywords word words :
  QueryProcessor.count_keywords keywords (word :: words)
  = (if str_mem (lower word) keywords then 1 else 0)
    + QueryProcessor.count_keywords keywords words.
Proof.
  unfold QueryProcessor.count_keywords. cbn [filter].
  now destruct (str_mem (lower word) keywords).
Qed.

(** No word is a keyword of two kinds. *)
Lemma keyword_kinds_disjoint x :
  (if str_mem x QueryProcessor.data_keywords then 1 else 0)
  + (if str_mem x QueryProcessor.process_keywords then 1 else 0)
  + (if str_mem x QueryProcessor.output_keywords then 1 else 0) <= 1.
Proof.
  unfold str_mem, QueryProcessor.data_keywords,
    QueryProcessor.process_keywords, QueryProcessor.output_keywords.
  cbn [existsb].
  repeat match goal with
         | |- context [String.eqb x ?k] =>
             destruct (String.eqb_spec x k) as [->|_]; [vm_compute; lia|]
         end.
  cbn [orb]. lia.
Qed.

Lemma score_below_words words :
  QueryProcessor.count_keywords QueryProcessor.data_keywords words
  + QueryProcessor.count_keywords QueryProcessor.process_keywords words
  + QueryProcessor.count_keywords QueryProcessor.output_keywords words
  <= List.length words.
Proof.
  induction words as [|word words IH]; [cbn; lia|].
  rewrite !count_keywords_cons. cbn [List.length].
  pose proof (keyword_kinds_disjoint (lower word)). lia.
Qed.

Lemma is_space_lower_char c : is_space (lower_char c) = is_space c.
Proof.
  destruct c as [[] [] [] [] [] [] [] []]; vm_compute; reflexivity.
Qed.

Lemma lower_app a b : lower (a ++ b) = lower a ++ lower b.
Proof.
  induction a as [|c a IH]; cbn [append lower]; [reflexivity|now rewrite IH].
Qed.

Lemma split_from_lower s :
  forall current,
    split_from (lower current) (lower s) = map lower (split_from current s).
Proof.
  induction s as [|c s IH]; intros current; cbn [lower split_from].
  - destruct current; reflexivity.
  - rewrite is_space_lower_char. destruct (is_space c).
    + destruct current as [|c0 current]; cbn [lower map].
      * apply (IH EmptyString).
      * f_equal. apply (IH EmptyString).
    + rewrite <- IH, lower_app. reflexivity.
Qed.

Lemma count_keywords_lower keywords words :
  QueryProcessor.count_keywords keywords (map lower words)
  = QueryProcessor.count_keywords keywords words.
Proof.
  induction words as [|word words IH]; [reflexivity|].
  cbn [map]. rewrite !count_keywords_cons, lower_idempotent. now rewrite IH.
Qed.

Lemma split_words_lower query :
  split_words (lower query) = map lower (split_words query).
Proof. apply (split_from_lower query EmptyString). Qed.

Lemma analyze_lower query :
  QueryProcessor.analyze_query_complexity (lower query)
  = QueryProcessor.analyze_query_complexity query.
Proof.
  unfold QueryProcessor.analyze_query_complexity.
  now rewrite split_words_lower, !count_keywords_lower.
Qed.

(** X20: the complexity score of a query never exceeds its number of
    words, since no word counts for two kinds of keyword: a query of at
    most two words is always rated simple, one of at most four words is
    never rated complex, and the estimated number of functions lies
    between one and the number of words (one for the empty query).  The
    analysis does not depend on the letter case of the query. *)
Theorem complexity_is_bounded_by_the_words :
  forall query : string,
    exists score : nat,
      assoc_get "complexity_score" (QueryProcessor.analyze_query_complexity query)
      = Some (VInt (Z.of_nat score))
      /\ assoc_get "estimated_functions"
           (QueryProcessor.analyze_query_complexity query)
         = Some (VInt (Z.of_nat (Nat.max 1 score)))
      /\ score <= List.length (split_words query)
      /\ (List.length (split_words query) <= 2 ->
          assoc_get "complexity" (QueryProcessor.analyze_query_complexity query)
          = Some (VStr "simple"))
      /\ (List.length (split_words query) <= 4 ->
          assoc_get "complexity" (QueryProcessor.analyze_query_complexity query)
          <> Some (VStr "complex"))
      /\ QueryProcessor.analyze_query_complexity (lower query)
         = QueryProcessor.analyze_query_complexity query.
Proof.
  intros query. rewrite analyze_lower.
  unfold QueryProcessor.analyze_query_complexity.
  pose proof (score_below_words (split_words query)) as Hscore.
  set (score :=
         QueryProcessor.count_keywords QueryProcessor.data_keywords
           (split_words query)
         + QueryProcessor.count_keywords QueryProcessor.process_keywords
             (split_words query)
         + QueryProcessor.count_keywords QueryProcessor.output_keywords
             (split_words query)) in *.
  exists score. split; [reflexivity|]. split; [reflexivity|].
  split; [assumption|]. split; [|split].
  - intros Hwords. cbn [assoc_get String.eqb Ascii.eqb Bool.eqb].
    destruct (Nat.leb_spec score 2); [reflexivity|lia].
  - intros Hwords. cbn [assoc_get String.eqb Ascii.eqb Bool.eqb].
    destruct (Nat.leb_spec score 2); [discriminate|].
    destruct (Nat.leb_spec score 4); [discriminate|lia].
  - reflexivity.
Qed.

Lemma complexity_is_bounded_by_the_words_witness :
  assoc_get "complexity"
    (QueryProcessor.analyze_query_complexity "Read  DATA")
  = Some (VStr "simple").
Proof.
  destruct (complexity_is_bounded_by_the_words "Read  DATA")
    as (score & _ & _ & _ & Hsimple & _).
  apply Hsimple. vm_compute. repeat constructor.
Defined.

(** ** The fallback plan *)

(** X21: whatever the query, the keyword-based fallback plan holds one or
    two calls, each a well-shaped mapping with a function name; repair has
    nothing to add to them and de-duplication nothing to drop, so the plan
    always gets through the processing of [process_query]; the plan does
    not depend on the letter case of the query. *)
Theorem fallback_plan_is_ready :
  forall user_query : string,
    exists calls,
      assoc_get "function_calls" (_create_fallback_plan user_query)
      = Some (VList calls)
      /\ 1 <= List.length calls <= 2
      /\ forallb well_shaped calls = true
      /\ forallb has_name calls = true
      /\ QueryProcessor.fix_calls calls = Ok calls
      /\ optimize_function_sequence (VList calls) = Ok calls
      /\ (forall (World : Type) (clock : World -> string) query
                 processed_query available_functions w,
             exists out,
               QueryProcessor.finish_plan clock query processed_query
                 available_functions (_create_fallback_plan user_query) w
               = Ok out)
      /\ _create_fallback_plan (lower user_query)
         = _create_fallback_plan user_query.
Proof.
  intros user_query.
  assert (Hready :
            exists calls,
              assoc_get "function_calls" (_create_fallback_plan user_query)
              = Some (VList calls)
              /\ 1 <= List.length calls <= 2
              /\ forallb well_shaped calls = true
              /\ forallb has_name calls = true
              /\ QueryProcessor.fix_calls calls = Ok calls
              /\ optimize_function_sequence (VList calls) = Ok calls).
  { unfold _create_fallback_plan.
    destruct (str_contains "email" (lower user_query)
              && str_contains "send" (lower user_query));
      [|destruct (str_contains "file" (lower user_query)
                  && (str_contains "read" (lower user_query)
                      || str_contains "open" (lower user_query)));
        [|destruct (str_contains "data" (lower user_query)
                    && (str_contains "analyze" (lower user_query)
                        || str_contains "process" (lower user_query)))]];
      eexists; (split; [reflexivity|]);
      (split; [cbn [List.length]; lia|]);
      repeat split; vm_compute; reflexivity. }
  destruct Hready as (calls & Hcalls & Hlen & Hshape & Hnamed & Hfix & Hopt).
  exists calls. repeat (split; [assumption|]). split.
  - intros World clock query processed_query available_functions w.
    destruct (finish_plan_named clock query processed_query
                available_functions _ calls w Hcalls Hshape Hnamed)
      as (out & Hout & _).
    eauto.
  - unfold _create_fallback_plan. now rewrite lower_idempotent.
Qed.

(* ================================================================== *)
(** * Further properties of query preprocessing *)
(* ================================================================== *)

Lemma prefix_empty s : String.prefix EmptyString s = true.
Proof. now destruct s. Qed.

Lemma no_w_slash_weaken b s :
  no_w_slash b s = true -> no_w_slash false s = true.
Proof.
  destruct b; [|auto]. destruct s as [|c r]; cbn [no_w_slash andb]; [auto|].
  now destruct (Ascii.eqb c "/").
Qed.

Lemma prefix_cons c p c' s :
  String.prefix (String c p) (String c' s)
  = Ascii.eqb c c' && String.prefix p s.
Proof.
  cbn [String.prefix].
  destruct (Ascii.ascii_dec c c') as [->|Hne].
  - now rewrite Ascii.eqb_refl.
  - destruct (Ascii.eqb_spec c c'); [contradiction|reflexivity].
Qed.

Lemma prefix_slash s :
  String.prefix "/" s
  = match s with
    | EmptyString => false
    | String c _ => Ascii.eqb c "/"
    end.
Proof.
  destruct s as [|c r]; [reflexivity|].
  rewrite prefix_cons, prefix_empty, andb_true_r. apply Ascii.eqb_sym.
Qed.

Lemma no_w_slash_after_w s :
  no_w_slash true s = negb (String.prefix "/" s) && no_w_slash false s.
Proof.
  rewrite prefix_slash. destruct s as [|c r]; cbn [no_w_slash andb negb];
    [reflexivity|].
  now destruct (Ascii.eqb c "/").
Qed.

Lemma no_w_slash_cons b c r :
  no_w_slash b (String c r)
  = negb (b && Ascii.eqb c "/") && no_w_slash (Ascii.eqb c "w") r.
Proof. cbn [no_w_slash]. now destruct (b && Ascii.eqb c "/"). Qed.

Lemma contains_w_slash s :
  str_contains "w/" s = negb (no_w_slash false s).
Proof.
  induction s as [|c r IH]; [reflexivity|].
  cbn [str_contains]. rewrite IH, no_w_slash_cons, prefix_cons.
  cbn [andb negb]. rewrite (Ascii.eqb_sym "w"%char c).
  destruct (Ascii.eqb c "w"); cbn [andb orb]; [|reflexivity].
  rewrite no_w_slash_after_w.
  now destruct (String.prefix "/" r), (no_w_slash false r).
Qed.

Lemma replace_from_skip old new k :
  forall s,
    replace_from old new k s = replace_from old new 0 (drop k s).
Proof.
  induction k as [|k IH]; intros s; [now destruct s|].
  destruct s as [|c r]; cbn [replace_from drop]; [reflexivity|apply IH].
Qed.

Lemma drop_length k : forall s, String.length (drop k s) <= String.length s.
Proof.
  induction k as [|k IH]; intros s; [now destruct s|].
  destruct s as [|c r]; cbn [drop String.length]; [lia|].
  specialize (IH r). lia.
Qed.

Lemma no_w_slash_drop k :
  forall b s, no_w_slash b s = true -> no_w_slash false (drop k s) = true.
Proof.
  induction k as [|k IH]; intros b s H.
  - destruct s; cbn [drop]; eapply no_w_slash_weaken; eassumption.
  - destruct s as [|c r]; cbn [drop]; [reflexivity|].
    rewrite no_w_slash_cons in H. apply andb_prop in H as [_ H].
    eapply IH; eassumption.
Qed.

(** Expanding [w/] leaves no [w/] behind. *)
Lemma expanding_with_clears n :
  forall s b,
    String.length s <= n ->
    (b = true -> String.prefix "/" s = false) ->
    no_w_slash b (replace_from "w/" "with" 0 s) = true.
Proof.
  induction n as [|n IH]; intros s b Hlen Hb.
  - destruct s; [reflexivity|cbn [String.length] in Hlen; lia].
  - destruct s as [|c r]; [reflexivity|].
    cbn [String.length] in Hlen. cbn [replace_from].
    destruct (String.prefix "w/" (String c r)) eqn:Hp.
    + apply prefix_iff in Hp as [rest Hrest].
      cbn [append] in Hrest. injection Hrest as -> ->.
      cbn [String.length Nat.sub]. rewrite replace_from_skip. cbn [drop].
      cbn [append]. rewrite !no_w_slash_cons.
      cbn [Ascii.eqb Bool.eqb andb negb]. rewrite andb_false_r. cbn [negb andb].
      apply IH; [cbn [String.length] in Hlen; lia|discriminate].
    + rewrite no_w_slash_cons. apply andb_true_intro. split.
      * destruct b; [|reflexivity]. specialize (Hb eq_refl).
        rewrite prefix_slash in Hb. now rewrite Hb.
      * apply IH; [lia|]. intros Hw.
        rewrite prefix_cons, Ascii.eqb_sym, Hw in Hp. exact Hp.
Qed.

(** Expanding another abbreviation brings no [w/] in. *)
Lemma expanding_keeps_clear old new :
  (forall b rest, no_w_slash false rest = true ->
                  no_w_slash b (new ++ rest) = true) ->
  forall n s b,
    String.length s <= n ->
    no_w_slash b s = true ->
    no_w_slash b (replace_from old new 0 s) = true.
Proof.
  intros Hnew. induction n as [|n IH]; intros s b Hlen Hs.
  - destruct s; [reflexivity|cbn [String.length] in Hlen; lia].
  - destruct s as [|c r]; [reflexivity|].
    cbn [String.length] in Hlen. cbn [replace_from].
    rewrite no_w_slash_cons in Hs. apply andb_prop in Hs as [Hc Hr].
    destruct (String.prefix old (String c r)).
    + apply Hnew. rewrite replace_from_skip. apply IH.
      * pose proof (drop_length (String.length old - 1) r). lia.
      * eapply no_w_slash_drop; eassumption.
    + rewrite no_w_slash_cons, Hc. cbn [andb]. apply IH; [lia|assumption].
Qed.

Lemma replace_keeps_clear s old new :
  (forall b rest, no_w_slash false rest = true ->
                  no_w_slash b (new ++ rest) = true) ->
  no_w_slash false s = true ->
  no_w_slash false (replace s old new) = true.
Proof.
  intros Hnew Hs. unfold replace.
  now apply (expanding_keeps_clear old new Hnew (String.length s)).
Qed.

Lemma append_keeps_clear s note :
  (forall b, no_w_slash b note = true) ->
  forall b, no_w_slash b s = true -> no_w_slash b (s ++ note) = true.
Proof.
  intros Hnote. induction s as [|c r IH]; intros b; cbn [append]; [auto|].
  rewrite !no_w_slash_cons. intros H. apply andb_prop in H as [-> H].
  cbn [andb]. now apply IH.
Qed.

(** Where no [w/] is left, there is no [w/o] to expand. *)
Lemma nothing_left_to_expand new s :
  forall b, no_w_slash b s = true -> replace_from "w/o" new 0 s = s.
Proof.
  induction s as [|c r IH]; intros b Hs; [reflexivity|].
  cbn [replace_from].
  destruct (String.prefix "w/o" (String c r)) eqn:Hp.
  - apply prefix_iff in Hp as [rest Hrest]. cbn [append] in Hrest.
    injection Hrest as -> ->. rewrite !no_w_slash_cons in Hs.
    cbn [Ascii.eqb Bool.eqb andb negb] in Hs.
    rewrite !andb_false_r in Hs. discriminate.
  - f_equal. rewrite no_w_slash_cons in Hs. apply andb_prop in Hs as [_ Hs].
    eapply IH; eassumption.
Qed.

Lemma with_expanded_is_clear s :
  no_w_slash false (replace s "w/" "with") = true.
Proof.
  unfold replace.
  apply (expanding_with_clears (String.length s)); [lia|discriminate].
Qed.

Lemma without_is_noop s new :
  replace (replace s "w/" "with") "w/o" new = replace s "w/" "with".
Proof.
  unfold replace at 1.
  apply (nothing_left_to_expand new _ false), with_expanded_is_clear.
Qed.

Lemma expand_same s :
  fold_left (fun q kv => replace q (fst kv) (snd kv))
    QueryProcessor.abbreviations s
  = fold_left (fun q kv => replace q (fst kv) (snd kv))
      abbreviations_but_without s.
Proof.
  unfold abbreviations_but_without, QueryProcessor.abbreviations.
  cbn [filter fst String.eqb Ascii.eqb Bool.eqb negb fold_left snd].
  now rewrite without_is_noop.
Qed.

(** X22: the abbreviation [w/o] is never expanded.  [w/] is expanded
    first and turns every [w/o] into [witho], so the processed query is
    the one the table without the [w/o] entry gives, and it never holds a
    [w/]. *)
Theorem without_is_never_expanded :
  forall query : string,
    QueryProcessor._preprocess_query query
    = preprocess_with abbreviations_but_without query
    /\ str_contains "w/" (QueryProcessor._preprocess_query query) = false
    /\ QueryProcessor._preprocess_query query
       = preprocess_with QueryProcessor.abbreviations query.
Proof.
  intros query.
  assert (Hsame : QueryProcessor._preprocess_query query
                  = preprocess_with abbreviations_but_without query).
  { unfold QueryProcessor._preprocess_query, preprocess_with.
    now rewrite expand_same. }
  split; [exact Hsame|]. split; [|reflexivity].
  rewrite Hsame, contains_w_slash.
  unfold preprocess_with, abbreviations_but_without,
    QueryProcessor.abbreviations.
  cbn [filter fst String.eqb Ascii.eqb Bool.eqb negb fold_left snd].
  set (query1 := collapse_spaces false (strip query)).
  assert (Hclear :
            no_w_slash false
              (replace
                 (replace
                    (replace (replace query1 "w/" "with") "etc." "and so on")
                    "e.g." "for example") "i.e." "that is") = true).
  { do 3 (apply replace_keeps_clear;
            [intros b rest Hrest; cbn [append]; rewrite !no_w_slash_cons;
             cbn [Ascii.eqb Bool.eqb andb negb]; rewrite ?andb_false_r;
             cbn [negb andb]; exact Hrest|]).
    apply with_expanded_is_clear. }
  set (query2 := replace _ "i.e." "that is") in *.
  assert (Hnote : forall (flag : bool) note s,
             (forall b, no_w_slash b note = true) ->
             no_w_slash false s = true ->
             no_w_slash false (if flag then s ++ note else s) = true).
  { intros flag note s Hn Hs. destruct flag; [|assumption].
    now apply append_keeps_clear. }
  rewrite Hnote; [reflexivity| |].
  - intros []; vm_compute; reflexivity.
  - apply Hnote; [|assumption]. intros []; vm_compute; reflexivity.
Qed.

(** ** White space *)

Lemma ends_clean_tail c r : ends_clean (String c r) = true -> ends_clean r = true.
Proof. destruct r; [reflexivity|auto]. Qed.

Lemma rstrip_ends_clean s : ends_clean (rstrip s) = true.
Proof.
  induction s as [|c r IH]; [reflexivity|]. cbn [rstrip].
  destruct (rstrip r) as [|c' r'].
  - destruct (is_space c) eqn:Hc; [reflexivity|]. cbn [ends_clean].
    now rewrite Hc.
  - exact IH.
Qed.

Lemma lstrip_starts s :
  match lstrip s with
  | EmptyString => True
  | String c _ => is_space c = false
  end.
Proof.
  induction s as [|c r IH]; cbn [lstrip]; [exact I|].
  destruct (is_space c) eqn:Hc; [exact IH|exact Hc].
Qed.

Lemma strip_starts s :
  match strip s with
  | EmptyString => True
  | String c _ => is_space c = false
  end.
Proof.
  unfold strip. pose proof (lstrip_starts s) as H.
  destruct (lstrip s) as [|c r]; [exact I|]. cbn [rstrip].
  destruct (rstrip r); [rewrite H|]; exact H.
Qed.

Lemma blank_is_space c : Ascii.eqb c " " = true -> is_space c = true.
Proof. intros H. apply Ascii.eqb_eq in H. now subst. Qed.

Lemma not_space_not_blank c : is_space c = false -> Ascii.eqb c " " = false.
Proof.
  intros H. destruct (Ascii.eqb c " ") eqn:E; [|reflexivity].
  apply blank_is_space in E. congruence.
Qed.

Lemma collapse_tidy s :
  forall b,
    ends_clean s = true ->
    (b = true -> s <> EmptyString) ->
    tidy b (collapse_spaces b s) = true.
Proof.
  induction s as [|c r IH]; intros b Hend Hb.
  - destruct b; [now contradiction (Hb eq_refl)|reflexivity].
  - cbn [collapse_spaces]. destruct (is_space c) eqn:Hc.
    + assert (Hr : r <> EmptyString).
      { intros ->. cbn [ends_clean] in Hend. now rewrite Hc in Hend. }
      apply ends_clean_tail in Hend. destruct b.
      * now apply IH.
      * cbn [tidy Ascii.eqb Bool.eqb negb andb]. now apply IH.
    + cbn [tidy]. rewrite (not_space_not_blank c Hc), Hc. cbn [negb andb].
      apply IH; [now apply ends_clean_tail in Hend|discriminate].
Qed.

Lemma strip_collapse_normalised query :
  normalised (collapse_spaces false (strip query)) = true.
Proof.
  pose proof (strip_starts query) as Hstart.
  pose proof (rstrip_ends_clean (lstrip query)) as Hend.
  fold (strip query) in Hend.
  destruct (strip query) as [|c r]; [reflexivity|].
  cbn [collapse_spaces]. rewrite Hstart. unfold normalised. cbn [tidy].
  rewrite (not_space_not_blank c Hstart), Hstart. cbn [negb andb].
  apply collapse_tidy; [now apply ends_clean_tail in Hend|discriminate].
Qed.

Lemma drop_prefix old : forall rest, drop (String.length old) (old ++ rest) = rest.
Proof.
  induction old as [|c old IH]; intros rest; cbn [String.length drop append];
    [now destruct rest|apply IH].
Qed.

Lemma length_append a b :
  String.length (a ++ b) = String.length a + String.length b.
Proof.
  induction a as [|c a IH]; cbn [append String.length]; [reflexivity|].
  now rewrite IH.
Qed.

(** Expanding an abbreviation that holds no white space by words
    separated by single blanks keeps the text tidy. *)
Lemma expanding_keeps_tidy old new :
  old <> EmptyString ->
  (forall b rest, tidy b (old ++ rest) = true -> tidy false rest = true) ->
  (forall b rest, tidy false rest = true -> tidy b (new ++ rest) = true) ->
  forall n s b,
    String.length s <= n ->
    tidy b s = true ->
    tidy b (replace_from old new 0 s) = true.
Proof.
  intros Hne Hold Hnew. induction n as [|n IH]; intros s b Hlen Hs.
  - destruct s; [exact Hs|cbn [String.length] in Hlen; lia].
  - destruct s as [|c r]; [exact Hs|].
    cbn [replace_from].
    destruct (String.prefix old (String c r)) eqn:Hp.
    + apply prefix_iff in Hp as [rest Hrest].
      apply Hnew. rewrite replace_from_skip.
      assert (Hdrop : drop (String.length old - 1) r = rest).
      { pose proof (drop_prefix old rest) as Hd. rewrite <- Hrest in Hd.
        destruct old as [|c0 old0]; [contradiction|].
        cbn [String.length drop] in Hd.
        replace (String.length (String c0 old0) - 1)
          with (String.length old0) by (cbn [String.length]; lia).
        injection Hrest as -> ->. exact Hd. }
      rewrite Hdrop. apply IH.
      * rewrite Hrest, length_append in Hlen.
        destruct old; [contradiction|]. cbn [String.length] in Hlen. lia.
      * apply (Hold b). now rewrite <- Hrest.
    + cbn [tidy] in *. apply andb_prop in Hs as [-> Hr]. cbn [andb].
      apply IH; [cbn [String.length] in Hlen; lia|assumption].
Qed.

Lemma replace_keeps_normalised s old new :
  old <> EmptyString ->
  (forall b rest, tidy b (old ++ rest) = true -> tidy false rest = true) ->
  (forall b rest, tidy false rest = true -> tidy b (new ++ rest) = true) ->
  normalised s = true ->
  normalised (replace s old new) = true.
Proof.
  intros Hne Hold Hnew Hs. destruct s as [|c r]; [reflexivity|].
  unfold normalised in Hs. unfold replace.
  pose proof (expanding_keeps_tidy old new Hne Hold Hnew _ _ true
                (Nat.le_refl _) Hs) as H.
  unfold normalised. now destruct (replace_from old new 0 (String c r)).
Qed.

Lemma append_keeps_tidy s note :
  tidy false note = true ->
  forall b, tidy b s = true -> tidy b (s ++ note) = true.
Proof.
  intros Hnote. induction s as [|c r IH]; intros b Hs.
  - destruct b; [discriminate|exact Hnote].
  - cbn [append tidy] in *. apply andb_prop in Hs as [-> Hr]. cbn [andb].
    now apply IH.
Qed.

Lemma note_keeps_normalised (flag : string -> bool) s note :
  flag EmptyString = false ->
  tidy false note = true ->
  normalised s = true ->
  normalised (if flag s then s ++ note else s) = true.
Proof.
  intros Hflag Hnote Hs. destruct s as [|c r]; [now rewrite Hflag|].
  destruct (flag (String c r)); [|assumption].
  unfold normalised in *. cbn [append].
  change (String c (r ++ note)) with (String c r ++ note).
  now apply append_keeps_tidy.
Qed.

(** X23: whatever white space the query holds, the processed query holds
    none but single blanks, each between two other characters: no leading
    or trailing blank, no tab or line break, no two blanks in a row; the
    expansion of abbreviations and the appended notes keep it so. *)
Theorem processed_query_is_normalised :
  forall query : string,
    normalised (QueryProcessor._preprocess_query query) = true.
Proof.
  intros query. unfold QueryProcessor._preprocess_query.
  unfold QueryProcessor.abbreviations. cbn [fold_left fst snd].
  set (query2 := replace _ "i.e." "that is").
  assert (H2 : normalised query2 = true).
  { subst query2.
    repeat (apply replace_keeps_normalised;
            [discriminate
            |intros b rest; cbn [append tidy];
             cbn [Ascii.eqb Bool.eqb is_space nat_of_ascii]; cbn;
             intros H; repeat (apply andb_prop in H as [_ H]); exact H
            |intros b rest H; cbn [append tidy];
             cbn [Ascii.eqb Bool.eqb]; cbn; now rewrite H
            |]).
    apply strip_collapse_normalised. }
  apply (note_keeps_normalised
           (fun s => str_contains "email" (lower s)
                     && str_contains "send" (lower s)));
    [reflexivity|vm_compute; reflexivity|].
  apply (note_keeps_normalised
           (fun s => str_contains "invoice" (lower s)
                     && str_contains "march" (lower s)));
    [reflexivity|vm_compute; reflexivity|exact H2].
Qed.

(* ================================================================== *)
(** * Running a plan call by call *)
(* ================================================================== *)





(* ================================================================== *)
(** * One run after another *)
(* ================================================================== *)

Lemma single_function_view {World} (self self' : ExecutionEngine World)
  call i w :
  function_registry self = function_registry self' ->
  execution_context self = execution_context self' ->
  _execute_single_function self call i w
  = _execute_single_function self' call i w.
Proof.
  intros Hreg Hctx. unfold _execute_single_function, execute_single_body.
  now rewrite Hreg, Hctx.
Qed.

Lemma execute_calls_view {World} (calls : list value) :
  forall (self self' : ExecutionEngine World) i rs w,
    function_registry self = function_registry self' ->
    execution_context self = execution_context self' ->
    fst (fst (execute_calls self calls i rs w))
    = fst (fst (execute_calls self' calls i rs w))
    /\ snd (execute_calls self calls i rs w)
       = snd (execute_calls self' calls i rs w)
    /\ execution_context (snd (fst (execute_calls self calls i rs w)))
       = execution_context (snd (fst (execute_calls self' calls i rs w))).
Proof.
  induction calls as [|call rest IH]; intros self self' i rs w Hreg Hctx;
    cbn [execute_calls].
  - cbn [fst snd]. auto.
  - destruct (get call "function_name" (VStr "unknown"));
      [|cbn [fst snd]; auto].
    rewrite (single_function_view self self' call i w Hreg Hctx).
    destruct (_execute_single_function self' call i w) as [[r|e] w1];
      [|cbn [fst snd]; auto].
    assert (Hnext : forall rs1,
               fst (fst (execute_calls (record_result self i r) rest (S i)
                           rs1 w1))
               = fst (fst (execute_calls (record_result self' i r) rest (S i)
                             rs1 w1))
               /\ snd (execute_calls (record_result self i r) rest (S i) rs1 w1)
                  = snd (execute_calls (record_result self' i r) rest (S i)
                           rs1 w1)
               /\ execution_context
                    (snd (fst (execute_calls (record_result self i r) rest
                                 (S i) rs1 w1)))
                  = execution_context
                      (snd (fst (execute_calls (record_result self' i r) rest
                                   (S i) rs1 w1)))).
    { intros rs1. apply IH; cbn [record_result function_registry
                                  execution_context]; congruence. }
    destruct (succeeded r); [apply Hnext|].
    destruct (_is_critical_function call) as [[|]|e];
      [| apply Hnext |];
      cbn [fst snd record_result execution_context]; rewrite Hctx; auto.
Qed.

(** X25: a run does not see what earlier runs left behind.  Two engines
    over the same registry, whatever their contexts and histories, give
    the same result for the same plan in the same world, and end in the
    same world; for a plan with calls they also end with the same
    context. *)
Theorem runs_are_isolated :
  forall (World : Type) (clock : World -> string)
         (self self' : ExecutionEngine World) (plan0 : dict) (w : World),
    function_registry self = function_registry self' ->
    fst (fst (execute_plan clock self plan0 w))
    = fst (fst (execute_plan clock self' plan0 w))
    /\ snd (execute_plan clock self plan0 w)
       = snd (execute_plan clock self' plan0 w)
    /\ (truthy (dict_get plan0 "function_calls" (VList [])) = true ->
        execution_context (snd (fst (execute_plan clock self plan0 w)))
        = execution_context (snd (fst (execute_plan clock self' plan0 w)))).
Proof.
  intros World clock self self' plan0 w Hreg. unfold execute_plan.
  destruct (truthy (dict_get plan0 "function_calls" (VList [])));
    cbn [negb]; [|cbn [fst snd]; repeat split; discriminate].
  destruct (iter (dict_get plan0 "function_calls" (VList [])))
    as [calls|e]; [|cbn [fst snd]; auto].
  destruct (execute_calls_view calls (reset_context self)
              (reset_context self') 0 [] w Hreg eq_refl)
    as (Hout & Hw & Hctx).
  destruct (execute_calls (reset_context self) calls 0 [] w)
    as [[out self1] w1].
  destruct (execute_calls (reset_context self') calls 0 [] w)
    as [[out' self1'] w1'].
  cbn [fst snd] in Hout, Hw, Hctx. subst out' w1'.
  destruct out as [rs|e]; cbn [fst snd remember execution_context]; auto.
Qed.

Lemma runs_are_isolated_witness :
  fst (fst (execute_plan Sample.clock Sample.engine SampleChain.long_plan 0))
  = fst (fst (execute_plan Sample.clock
                (snd (fst (execute_plan Sample.clock Sample.engine
                             SamplePolicy.plan 0)))
                SampleChain.long_plan 0)).
Proof.
  exact (proj1 (runs_are_isolated Sample.World Sample.clock Sample.engine
                  (snd (fst (execute_plan Sample.clock Sample.engine
                               SamplePolicy.plan 0)))
                  SampleChain.long_plan 0 eq_refl)).
Defined.

(* ================================================================== *)
(** * Which calls the validator complains about *)
(* ================================================================== *)

Lemma validate_call_label available_functions i call msg :
  validate_call available_functions i call = Ok (Some msg) ->
  names_call i msg.
Proof.
  unfold validate_call, names_call.
  destruct (contains "function_name" call) as [[|]|e]; cbn [bind negb];
    [|intros [= <-]; eexists; reflexivity|discriminate].
  destruct (subscript call "function_name") as [function_name|e];
    cbn [bind]; [|discriminate].
  destruct (in_name_set function_name (map name available_functions))
    as [[|]|e]; cbn [bind negb]; [|intros [= <-]; eexists; reflexivity|discriminate].
  destruct (contains "parameters" call) as [[|]|e]; cbn [bind negb];
    [|intros [= <-]; eexists; reflexivity|discriminate].
  destruct (find _ available_functions) as [func_def|]; [|discriminate].
  destruct (subscript call "parameters") as [call_parameters|e];
    cbn [bind]; [|discriminate].
  destruct (keys call_parameters) as [provided_params|e]; cbn [bind];
    [|discriminate].
  destruct (missing_params _ provided_params); [discriminate|].
  intros [= <-]. eexists. reflexivity.
Qed.

Lemma validate_loop_positions available_functions calls :
  forallb well_shaped calls = true ->
  forall i errors,
  exists new,
    validate_loop available_functions calls i errors = Ok (errors ++ new)%list
    /\ Forall2 names_call (malformed_positions available_functions i calls)
         new.
Proof.
  induction calls as [|call rest IH]; cbn [forallb validate_loop
                                           malformed_positions];
    intros Hshape i errors.
  - exists []. rewrite app_nil_r. split; [reflexivity|constructor].
  - apply andb_prop in Hshape as [Hcall Hrest].
    destruct (validate_call_malformed available_functions i call Hcall)
      as (e & He & Hiff).
    rewrite He. cbn [bind].
    destruct e as [msg|].
    + replace (malformed available_functions call) with true
        by (symmetry; apply Hiff; eauto).
      destruct (IH Hrest (S i) (errors ++ [msg])%list) as (new & -> & Hnew).
      exists (msg :: new). rewrite <- app_assoc. split; [reflexivity|].
      constructor; [|assumption].
      eapply validate_call_label; eassumption.
    + replace (malformed available_functions call) with false.
      * apply IH. assumption.
      * destruct (malformed available_functions call) eqn:Hm; [|reflexivity].
        destruct (proj2 Hiff eq_refl) as [msg Hmsg]. discriminate.
Qed.

Lemma malformed_positions_spec available_functions calls :
  forall i k,
    In k (malformed_positions available_functions i calls)
    <-> exists j call,
          k = i + j /\ nth_error calls j = Some call
          /\ malformed available_functions call = true.
Proof.
  induction calls as [|call rest IH]; intros i k; cbn [malformed_positions].
  - split; [contradiction|]. intros (j & c & _ & H & _). now destruct j.
  - assert (Hrest : In k (malformed_positions available_functions (S i) rest)
                    <-> exists j c,
                          k = i + S j /\ nth_error rest j = Some c
                          /\ malformed available_functions c = true).
    { rewrite IH. split; intros (j & c & Hk & H); exists j, c;
        (split; [lia|exact H]). }
    destruct (malformed available_functions call) eqn:Hm; cbn [In];
      rewrite ?Hrest; split.
    + intros [<-|(j & c & Hk & Hj & Hc)].
      * exists 0, call. rewrite Nat.add_0_r. auto.
      * exists (S j), c. auto.
    + intros ([|j] & c & Hk & Hj & Hc).
      * left. lia.
      * right. exists j, c. auto.
    + intros (j & c & Hk & Hj & Hc). exists (S j), c. auto.
    + intros ([|j] & c & Hk & Hj & Hc).
      * cbn [nth_error] in Hj. injection Hj as <-. congruence.
      * exists j, c. auto.
Qed.

(** X26: on a plan of well-shaped calls the validator reports one error
    per malformed call, in the order of the calls, and each message
    begins with the label of the call it is about, [Function call k+1: ]
    for the call at position [k]; the positions reported are exactly
    those of the malformed calls. *)
Theorem errors_name_their_calls :
  forall (available_functions : list FunctionSchema) (calls : list value),
    forallb well_shaped calls = true ->
    exists is_valid errors,
      validate_function_calls (VList calls) available_functions
      = Ok (is_valid, errors)
      /\ Forall2 names_call
           (malformed_positions available_functions 0 calls) errors
      /\ forall k,
          In k (malformed_positions available_functions 0 calls)
          <-> exists call, nth_error calls k = Some call
                           /\ malformed available_functions call = true.
Proof.
  intros available_functions calls Hshape.
  unfold validate_function_calls. cbn [iter bind].
  destruct (validate_loop_positions available_functions calls Hshape 0 [])
    as (new & -> & Hnew).
  cbn [bind app]. do 2 eexists. split; [reflexivity|]. split; [exact Hnew|].
  intros k. rewrite malformed_positions_spec. cbn [Nat.add].
  split; [intros (j & c & -> & H); eauto|intros (c & H); eauto].
Qed.

Lemma errors_name_their_calls_witness :
  exists is_valid errors,
    validate_function_calls (VList SampleValidation.calls)
      SampleValidation.available_functions
    = Ok (is_valid, errors)
    /\ Forall2 names_call [0; 1; 3; 4] errors
    /\ forall k,
        In k [0; 1; 3; 4]
        <-> exists call, nth_error SampleValidation.calls k = Some call
                         /\ malformed SampleValidation.available_functions call
                            = true.
Proof.
  exact (errors_name_their_calls SampleValidation.available_functions
           SampleValidation.calls eq_refl).
Defined.
